(** * Telegram group media to Google Photos: store, fetch, client, orchestrator

    A shallow embedding of the sync pipeline of the bot:
    - [Database]     : bot/database.py, the three SQLite tables;
    - [Media]        : bot/media.py, size ceilings and the Telegram download;
    - [GooglePhotos] : bot/google_photos.py, the retry wrapper of the client;
    - [Handlers]     : bot/handlers.py, [handle_media];
    - [Json], [GooglePhotosClient] : bot/google_photos.py, the calls of the
      client on top of the retry wrapper;
    - [Scenarios]    : the concrete collaborators of the tests.

    Coroutines are run to completion one after the other (there is one
    event at a time), so an [await]ed call is an ordinary call here.  A call
    that can raise returns an [Outcome]; code that also changes the store or
    talks to a collaborator lives in the effect monad [Eff], which threads
    the store and collects the calls that were made, in order. *)

From Stdlib Require Import ZArith String Ascii List Lia.
From Stdlib Require Import Floats.SpecFloat.
From stdpp Require Import base option gmap sets list strings pretty.

Local Open Scope string_scope.
Local Open Scope list_scope.
Local Open Scope Z_scope.

(** ** Python values *)

(** The exceptions the pipeline raises or catches.  All of them derive from
    Python's [Exception]; [HTTPStatusError] derives from [httpx.HTTPError]. *)
Inductive Exn : Type :=
| RuntimeError (msg : string)
| FileTooLargeError (label : string) (size_bytes limit_bytes : Z)
| GooglePhotosError (msg : string) (status_code : option Z)
    (body : option string)
| HTTPError (msg : string)
| HTTPStatusError (status : Z)
| OtherException (msg : string).

(** The result of a call: a value, or an exception on its way up. *)
Inductive Outcome (A : Type) : Type :=
| Ret (a : A)
| Raise (e : Exn).
Arguments Ret {A} a.
Arguments Raise {A} e.

(** [bool(s)] of a string, and [o or d] for an optional string. *)
Definition truthy (s : string) : bool :=
  match s with EmptyString => false | String _ _ => true end.

Definition truthy_opt (o : option string) : bool :=
  match o with None => false | Some s => truthy s end.

Definition str_or (o : option string) (d : string) : string :=
  match o with
  | Some s => if truthy s then s else d
  | None => d
  end.

(** [c.isspace()] for the code points a [string] of this development holds
    (0..255): the characters [str.strip()] removes. *)
Definition isspace (c : ascii) : bool :=
  let n := N_of_ascii c in
  ((9 <=? n) && (n <=? 13) || (28 <=? n) && (n <=? 32)
   || (n =? 133) || (n =? 160))%N.

Fixpoint lstrip (s : string) : string :=
  match s with
  | String c s' => if isspace c then lstrip s' else s
  | EmptyString => EmptyString
  end.

Fixpoint rstrip (s : string) : string :=
  match s with
  | String c s' =>
      match rstrip s' with
      | EmptyString => if isspace c then EmptyString else String c EmptyString
      | r => String c r
      end
  | EmptyString => EmptyString
  end.

Definition strip (s : string) : string := rstrip (lstrip s).

(** ** The effect monad: store, exceptions, and the calls made *)

Section Eff.
Context {S E : Type}.

Definition Eff (A : Type) : Type := S -> Outcome A * S * list E.

Definition ret {A} (a : A) : Eff A := fun s => (Ret a, s, []).

Definition raise {A} (e : Exn) : Eff A := fun s => (Raise e, s, []).

Definition bind {A B} (m : Eff A) (k : A -> Eff B) : Eff B :=
  fun s =>
    match m s with
    | (Ret a, s1, t1) => let '(r, s2, t2) := k a s1 in (r, s2, t1 ++ t2)
    | (Raise e, s1, t1) => (Raise e, s1, t1)
    end.

(** [try: m except Exception as e: ...]: the outcome of [m] as a value. *)
Definition try {A} (m : Eff A) : Eff (Outcome A) :=
  fun s => let '(r, s1, t1) := m s in (Ret r, s1, t1).

(** Record a call to a collaborator. *)
Definition emit (ev : E) : Eff unit := fun s => (Ret tt, s, [ev]).

Definition of_outcome {A} (r : Outcome A) : Eff A := fun s => (r, s, []).
End Eff.
Arguments Eff : clear implicits.

(** A computation without a store: its outcome and the calls it made. *)
Definition run {E A} (m : Eff unit E A) : Outcome A * list E :=
  let '(r, _, t) := m tt in (r, t).

Declare Scope eff_scope.
Delimit Scope eff_scope with eff.
Notation "x <- m ;; k" := (bind m (fun x => k))
  (at level 100, m at next level, k at level 200, right associativity)
  : eff_scope.
Notation "m ;; k" := (bind m (fun _ => k))
  (at level 100, k at level 200, right associativity) : eff_scope.

(** ** bot/database.py *)

Module Database.

(** The three tables of [_SCHEMA]; the primary keys make
    [processed_messages] a set of pairs and the other two finite maps. *)
Record Tables : Type := mkTables {
  processed_messages : gset (Z * Z);
  album_cache : gmap string string;
  chat_titles : gmap Z string
}.

(** [Database]: [_conn] is [None] until [open()] has run. *)
Record t : Type := mk { _conn : option Tables }.

Definition opened (tb : Tables) : t := {| _conn := Some tb |}.

Definition _require_conn (self : t) : Outcome Tables :=
  match _conn self with
  | None => Raise (RuntimeError "Database not open; call open() first")
  | Some conn => Ret conn
  end.

(** SELECT 1 FROM processed_messages WHERE chat_id = ? AND message_id = ? *)
Definition is_processed (chat_id message_id : Z) (self : t)
  : Outcome bool * t :=
  match _require_conn self with
  | Raise e => (Raise e, self)
  | Ret conn =>
      (Ret (bool_decide ((chat_id, message_id) ∈ processed_messages conn)),
       self)
  end.

(** INSERT OR IGNORE INTO processed_messages (chat_id, message_id) *)
Definition mark_processed (chat_id message_id : Z) (self : t)
  : Outcome unit * t :=
  match _require_conn self with
  | Raise e => (Raise e, self)
  | Ret conn =>
      if decide ((chat_id, message_id) ∈ processed_messages conn)
      then (Ret tt, opened conn)
      else (Ret tt,
            opened (mkTables
                      ({[ (chat_id, message_id) ]} ∪ processed_messages conn)
                      (album_cache conn) (chat_titles conn)))
  end.

(** SELECT album_id FROM album_cache WHERE group_title = ? *)
Definition get_album_id (group_title : string) (self : t)
  : Outcome (option string) * t :=
  match _require_conn self with
  | Raise e => (Raise e, self)
  | Ret conn => (Ret (album_cache conn !! group_title), self)
  end.

(** INSERT OR REPLACE INTO album_cache (group_title, album_id) *)
Definition set_album_id (group_title album_id : string) (self : t)
  : Outcome unit * t :=
  match _require_conn self with
  | Raise e => (Raise e, self)
  | Ret conn =>
      (Ret tt,
       opened (mkTables (processed_messages conn)
                        (<[group_title := album_id]> (album_cache conn))
                        (chat_titles conn)))
  end.

(** DELETE FROM album_cache WHERE group_title = ? *)
Definition delete_album_cache (group_title : string) (self : t)
  : Outcome unit * t :=
  match _require_conn self with
  | Raise e => (Raise e, self)
  | Ret conn =>
      (Ret tt,
       opened (mkTables (processed_messages conn)
                        (delete group_title (album_cache conn))
                        (chat_titles conn)))
  end.

(** SELECT group_title FROM chat_titles WHERE chat_id = ? *)
Definition get_chat_title (chat_id : Z) (self : t)
  : Outcome (option string) * t :=
  match _require_conn self with
  | Raise e => (Raise e, self)
  | Ret conn => (Ret (chat_titles conn !! chat_id), self)
  end.

(** INSERT OR REPLACE INTO chat_titles (chat_id, group_title) *)
Definition set_chat_title (chat_id : Z) (group_title : string) (self : t)
  : Outcome unit * t :=
  match _require_conn self with
  | Raise e => (Raise e, self)
  | Ret conn =>
      (Ret tt,
       opened (mkTables (processed_messages conn) (album_cache conn)
                        (<[chat_id := group_title]> (chat_titles conn))))
  end.

(** [close()]: the connection, if there is one, is closed and forgotten. *)
Definition close (self : t) : t := {| _conn := None |}.

End Database.

(** ** The Telegram objects the bot reads (python-telegram-bot) *)

Module Telegram.

Definition bytes : Type := list Byte.byte.

(** [getattr(x, "file_size", None)] is the optional declared size. *)
Module PhotoSize.
Record t : Type := mk { file_id : string; file_size : option Z }.
End PhotoSize.

Module Video.
Record t : Type := mk {
  file_id : string;
  file_size : option Z;
  file_name : option string;
  mime_type : option string
}.
End Video.

Module VideoNote.
Record t : Type := mk { file_id : string; file_size : option Z }.
End VideoNote.

Module Message.
Record t : Type := mk {
  id : Z;
  photo : list PhotoSize.t;
  video : option Video.t;
  video_note : option VideoNote.t
}.
End Message.

Module Chat.
Record t : Type := mk { id : Z; type : string; title : option string }.
End Chat.

Module Update.
Record t : Type := mk {
  message : option Message.t;
  effective_chat : option Chat.t
}.
End Update.

(** The file handle [bot.get_file] returns; fetching its bytes can fail. *)
Module File.
Record t : Type := mk {
  file_path : option string;
  download_as_bytearray : Outcome bytes
}.
End File.

(** The bot as the download sees it: the answer of the [n]-th
    [get_file] call of one download (counted from 0). *)
Module Bot.
Record t : Type := mk { get_file : nat -> string -> Outcome File.t }.
End Bot.

End Telegram.

(** ** bot/media.py *)

Module Media.
Import Telegram.

Definition PHOTO_MAX_BYTES : Z := 200 * 1024 * 1024.
Definition VIDEO_MAX_BYTES : Z := 10 * 1024 * 1024 * 1024.

Definition MAX_DOWNLOAD_RETRIES : nat := 3.
Definition RETRY_BASE_DELAY_SEC : Z := 2.

Record MediaContent : Type := mkContent {
  data : bytes;
  filename : string;
  mime_type : string
}.

(** What the download does to the outside world. *)
Inductive Event : Type :=
| Sleep (delay : Z)
| GetFile (file_id : string)
| DownloadAsBytearray (file_id : string).

Definition is_sep (c : ascii) : bool :=
  Ascii.eqb c "/" || Ascii.eqb c "\".

Fixpoint contains_sep (s : string) : bool :=
  match s with
  | EmptyString => false
  | String c s' => is_sep c || contains_sep s'
  end.

(** [s.replace("\\", "/")] *)
Fixpoint replace_backslash (s : string) : string :=
  match s with
  | EmptyString => EmptyString
  | String c s' =>
      String (if Ascii.eqb c "\" then "/"%char else c) (replace_backslash s')
  end.

(** [s.split("/")]: never empty, one more piece than separators. *)
Fixpoint split_slash (s : string) : list string :=
  match s with
  | EmptyString => [EmptyString]
  | String c s' =>
      if Ascii.eqb c "/" then EmptyString :: split_slash s'
      else match split_slash s' with
           | seg :: rest => String c seg :: rest
           | [] => [String c EmptyString]
           end
  end.

Definition _safe_filename (candidate fallback : string) : string :=
  let candidate := strip candidate in
  if negb (truthy candidate) then fallback else
  let candidate :=
    if contains_sep candidate
    then List.last (split_slash (replace_backslash candidate)) EmptyString
    else candidate in
  if negb (truthy candidate) then fallback else candidate.

Definition _check_file_size (file_size : option Z) (limit : Z)
  (label : string) : Outcome unit :=
  match file_size with
  | Some size =>
      if limit <? size then Raise (FileTooLargeError label size limit)
      else Ret tt
  | None => Ret tt
  end.

(** One pass of the body of [for attempt in range(MAX_DOWNLOAD_RETRIES)],
    [remaining] passes being left; the [try] covers both calls. *)
Fixpoint _download_attempts (bot : Bot.t) (file_id : string)
  (remaining attempt : nat) (last_exc : option Exn)
  : Eff unit Event (File.t * bytes) :=
  match remaining with
  | O =>
      match last_exc with
      | Some exc => raise exc
      | None => raise (OtherException "TypeError")
      end
  | S remaining' =>
      ((if (0 <? attempt)%nat
        then emit (Sleep (RETRY_BASE_DELAY_SEC * 2 ^ (Z.of_nat attempt - 1)))
        else ret tt) ;;
       r <- try (emit (GetFile file_id) ;;
                 tg_file <- of_outcome (Bot.get_file bot attempt file_id) ;;
                 emit (DownloadAsBytearray file_id) ;;
                 data <- of_outcome (File.download_as_bytearray tg_file) ;;
                 ret (tg_file, data)) ;;
       match r with
       | Ret res => ret res
       | Raise exc =>
           _download_attempts bot file_id remaining' (S attempt) (Some exc)
       end)%eff
  end.

Definition _download_with_retry (bot : Bot.t) (file_id : string)
  : Eff unit Event (File.t * bytes) :=
  _download_attempts bot file_id MAX_DOWNLOAD_RETRIES 0 None.

Definition _download_photo (bot : Bot.t) (photo_sizes : list PhotoSize.t)
  : Eff unit Event (option MediaContent) :=
  match last photo_sizes with
  | None => ret None
  | Some largest =>
      (of_outcome (_check_file_size (PhotoSize.file_size largest)
                     PHOTO_MAX_BYTES "photo") ;;
       res <- _download_with_retry bot (PhotoSize.file_id largest) ;;
       let '(tg_file, data) := res in
       let filename :=
         _safe_filename (str_or (File.file_path tg_file) "photo.jpg")
           "photo.jpg" in
       ret (Some (mkContent data filename "image/jpeg")))%eff
  end.

Definition _download_video (bot : Bot.t) (video : Video.t)
  : Eff unit Event (option MediaContent) :=
  (of_outcome (_check_file_size (Video.file_size video)
                 VIDEO_MAX_BYTES "video") ;;
   res <- _download_with_retry bot (Video.file_id video) ;;
   let '(tg_file, data) := res in
   let filename :=
     match Video.file_name video with
     | Some n =>
         if truthy n then n
         else _safe_filename (str_or (File.file_path tg_file) "video.mp4")
                "video.mp4"
     | None =>
         _safe_filename (str_or (File.file_path tg_file) "video.mp4")
           "video.mp4"
     end in
   let mime_type := str_or (Video.mime_type video) "video/mp4" in
   ret (Some (mkContent data filename mime_type)))%eff.

Definition _download_video_note (bot : Bot.t) (video_note : VideoNote.t)
  : Eff unit Event (option MediaContent) :=
  (of_outcome (_check_file_size (VideoNote.file_size video_note)
                 VIDEO_MAX_BYTES "video_note") ;;
   res <- _download_with_retry bot (VideoNote.file_id video_note) ;;
   let '(tg_file, data) := res in
   let filename :=
     _safe_filename (str_or (File.file_path tg_file) "video_note.mp4")
       "video_note.mp4" in
   ret (Some (mkContent data filename "video/mp4")))%eff.

Definition download_media (bot : Bot.t) (message : Message.t)
  : Eff unit Event (option MediaContent) :=
  match Message.photo message with
  | _ :: _ => _download_photo bot (Message.photo message)
  | [] =>
      match Message.video message with
      | Some video => _download_video bot video
      | None =>
          match Message.video_note message with
          | Some video_note => _download_video_note bot video_note
          | None => ret None
          end
      end
  end.

(** The attachment [download_media] picks for [message] is of the kind
    labelled [label], whose ceiling is [limit], and declares [size] bytes. *)
Inductive declared (message : Message.t) : string -> Z -> Z -> Prop :=
| declared_photo largest size :
    last (Message.photo message) = Some largest ->
    PhotoSize.file_size largest = Some size ->
    declared message "photo" PHOTO_MAX_BYTES size
| declared_video video size :
    Message.photo message = [] ->
    Message.video message = Some video ->
    Video.file_size video = Some size ->
    declared message "video" VIDEO_MAX_BYTES size
| declared_video_note video_note size :
    Message.photo message = [] ->
    Message.video message = None ->
    Message.video_note message = Some video_note ->
    VideoNote.file_size video_note = Some size ->
    declared message "video_note" VIDEO_MAX_BYTES size.

(** The attachment [download_media] picks for [message] has the file id
    [file_id] and declares no size. *)
Inductive undeclared (message : Message.t) : string -> Prop :=
| undeclared_photo largest :
    last (Message.photo message) = Some largest ->
    PhotoSize.file_size largest = None ->
    undeclared message (PhotoSize.file_id largest)
| undeclared_video video :
    Message.photo message = [] ->
    Message.video message = Some video ->
    Video.file_size video = None ->
    undeclared message (Video.file_id video)
| undeclared_video_note video_note :
    Message.photo message = [] ->
    Message.video message = None ->
    Message.video_note message = Some video_note ->
    VideoNote.file_size video_note = None ->
    undeclared message (VideoNote.file_id video_note).

(** *** Vocabulary of the statements about the transfer *)

(** What attempt [i] of a download of [file_id] comes to: the file handle
    and its bytes, or what [get_file] or [download_as_bytearray] raised. *)
Definition transfer_attempt (bot : Bot.t) (file_id : string) (i : nat)
  : Outcome (File.t * bytes) :=
  match Bot.get_file bot i file_id with
  | Raise exc => Raise exc
  | Ret tg_file =>
      match File.download_as_bytearray tg_file with
      | Raise exc => Raise exc
      | Ret data => Ret (tg_file, data)
      end
  end.

Definition transfer_fails (bot : Bot.t) (file_id : string) (i : nat) : bool :=
  match transfer_attempt bot file_id i with
  | Raise _ => true
  | Ret _ => false
  end.

(** The file ids asked of [get_file] in a run, and its sleeps, in order. *)
Definition get_files (evs : list Event) : list string :=
  omap (fun ev => match ev with GetFile f => Some f | _ => None end) evs.

Definition sleeps (evs : list Event) : list Z :=
  omap (fun ev => match ev with Sleep d => Some d | _ => None end) evs.

(** The file id an event of the transfer is about, if it is about one. *)
Definition file_of (ev : Event) : option string :=
  match ev with
  | Sleep _ => None
  | GetFile f | DownloadAsBytearray f => Some f
  end.

End Media.

(** ** bot/google_photos.py *)

Module GooglePhotos.
Import Telegram.

Definition MIN_RETRY_DELAY_SEC : Z := 30.
Definition MAX_RETRIES : nat := 4.
Definition RETRYABLE_STATUS_CODES : gset Z := {[ 429; 500; 502; 503; 504 ]}.

(** [httpx.Response], as far as the client reads it. *)
Module Response.
Record t : Type := mk { status_code : Z; text : string }.
End Response.

(** The body of a request: [json=...] when given, [content=...] otherwise. *)
Inductive Body : Type :=
| JsonBody (json : string)
| ContentBody (content : option bytes).

Module Request.
Record t : Type := mk {
  method : string;
  url : string;
  params : option (list (string * string));
  body : Body;
  headers : gmap string string
}.
End Request.

(** The two collaborators of the wrapper, each answering the call of
    attempt [n] (counted from 0): the credential holder behind
    [_get_access_token] and the [httpx.AsyncClient]. *)
Module Credentials.
Record t : Type := mk { _get_access_token : nat -> Outcome string }.
End Credentials.

Module AsyncClient.
Record t : Type := mk { request : nat -> Request.t -> Outcome Response.t }.
End AsyncClient.

Inductive Event : Type :=
| Sleep (delay : Z)
| GetAccessToken
| SendRequest (req : Request.t).

(** [isinstance(exc, httpx.HTTPError)] *)
Definition is_HTTPError (exc : Exn) : bool :=
  match exc with
  | HTTPError _ | HTTPStatusError _ => true
  | _ => false
  end.

(** [resp.raise_for_status()] of httpx: only a 2xx response passes. *)
Definition raise_for_status (resp : Response.t) : Outcome unit :=
  let s := Response.status_code resp in
  if (200 <=? s) && (s <=? 299) then Ret tt else Raise (HTTPStatusError s).

Definition _auth_headers (access_token : string) : gmap string string :=
  {[ "Authorization" := "Bearer " +:+ access_token ]}.

(** [d.update(e)]: the entries of [e] replace those of [d]. *)
Definition dict_update (d e : gmap string string) : gmap string string :=
  e ∪ d.

(** Lines 219-222: the headers of one attempt. *)
Definition request_headers (token : string)
  (extra_headers : option (gmap string string)) : gmap string string :=
  let request_headers := _auth_headers token in
  match extra_headers with
  | Some extra =>
      if decide (extra = ∅) then request_headers
      else dict_update request_headers extra
  | None => request_headers
  end.

Definition retryable_status (resp : Response.t) : bool :=
  bool_decide (Response.status_code resp ∈ RETRYABLE_STATUS_CODES).

(** The [GooglePhotosError] kept in [last_exc] for a retryable status. *)
Definition status_error (resp : Response.t) : Exn :=
  GooglePhotosError ("API returned " +:+ pretty (Response.status_code resp))
    (Some (Response.status_code resp)) (Some (Response.text resp)).

(** The sleeps of a run, in order. *)
Definition sleeps (evs : list Event) : list Z :=
  omap (fun ev => match ev with Sleep d => Some d | _ => None end) evs.

(** The requests sent in a run, in order. *)
Definition requests (evs : list Event) : list Request.t :=
  omap (fun ev => match ev with SendRequest r => Some r | _ => None end) evs.

(** The number of attempts a run started. *)
Definition attempts_started (evs : list Event) : nat :=
  length (omap (fun ev => match ev with
                          | GetAccessToken => Some tt
                          | _ => None
                          end) evs).

(** Lines 239 and 253: [delay = min(delay * 2, 120)]. *)
Definition next_delay (delay : Z) : Z := Z.min (delay * 2) 120.

Section Wrapper.
Variable self : Credentials.t.
Variable client : AsyncClient.t.
Variables method url : string.
Variable params : option (list (string * string)).
Variable json : option string.
Variable content : option bytes.
Variable extra_headers : option (gmap string string).

(** The request of one attempt, given its token. *)
Definition build_request (token : string) : Request.t :=
  Request.mk method url params
    (match json with
     | Some j => JsonBody j
     | None => ContentBody content
     end)
    (request_headers token extra_headers).

(** One pass of the body of [for attempt in range(MAX_RETRIES)],
    [remaining] passes being left. *)
Fixpoint _attempts (remaining attempt : nat) (delay : Z)
  (last_exc : option Exn) : Eff unit Event Response.t :=
  match remaining with
  | O =>
      match last_exc with
      | Some exc => raise exc
      | None =>
          raise (GooglePhotosError "Request failed after retries" None None)
      end
  | S remaining' =>
      ((if (0 <? attempt)%nat then emit (Sleep delay) else ret tt) ;;
       emit GetAccessToken ;;
       token <- of_outcome (Credentials._get_access_token self attempt) ;;
       let req := build_request token in
       emit (SendRequest req) ;;
       r <- try (of_outcome (AsyncClient.request client attempt req)) ;;
       match r with
       | Raise exc =>
           if is_HTTPError exc
           then _attempts remaining' (S attempt) (next_delay delay) (Some exc)
           else raise exc
       | Ret resp =>
           if retryable_status resp
           then
             let delay := Z.max delay MIN_RETRY_DELAY_SEC in
             _attempts remaining' (S attempt) (next_delay delay)
               (Some (status_error resp))
           else
             (of_outcome (raise_for_status resp) ;; ret resp)
       end)%eff
  end.

Definition _request_with_retry : Eff unit Event Response.t :=
  _attempts MAX_RETRIES 0 MIN_RETRY_DELAY_SEC None.

(** *** What attempt [i] amounts to, for the statements below *)

(** Attempt [i] fails in a way the loop retries: the token was
    obtained, and the request raised an [httpx.HTTPError] or was
    answered with a status of [RETRYABLE_STATUS_CODES]. *)
Definition retryable_attempt (i : nat) : bool :=
  match Credentials._get_access_token self i with
  | Raise _ => false
  | Ret token =>
      match AsyncClient.request client i (build_request token) with
      | Raise exc => is_HTTPError exc
      | Ret resp => retryable_status resp
      end
  end.

(** The failure of attempt [i] that [last_exc] keeps: the transport
    error it raised, or the typed error made from the status and body
    of its response. *)
Definition attempt_failure (i : nat) : Exn :=
  match Credentials._get_access_token self i with
  | Raise exc => exc
  | Ret token =>
      match AsyncClient.request client i (build_request token) with
      | Raise exc => exc
      | Ret resp => status_error resp
      end
  end.

(** What attempt [i] ends the call with when it is not retried. *)
Definition attempt_outcome (i : nat) : Outcome Response.t :=
  match Credentials._get_access_token self i with
  | Raise exc => Raise exc
  | Ret token =>
      match AsyncClient.request client i (build_request token) with
      | Raise exc => Raise exc
      | Ret resp =>
          match raise_for_status resp with
          | Ret _ => Ret resp
          | Raise exc => Raise exc
          end
      end
  end.

(** The HTTP response of attempt [i], if it obtained one. *)
Definition attempt_response (i : nat) : option Response.t :=
  match Credentials._get_access_token self i with
  | Raise _ => None
  | Ret token =>
      match AsyncClient.request client i (build_request token) with
      | Raise _ => None
      | Ret resp => Some resp
      end
  end.

(** The latest HTTP response among the attempts [0 .. n-1]. *)
Fixpoint last_response (n : nat) : option Response.t :=
  match n with
  | O => None
  | S n' =>
      match attempt_response n' with
      | Some resp => Some resp
      | None => last_response n'
      end
  end.

(** The backoff as the spec words it: the wait before retry 1 is the
    30-second minimum, and each later wait is double the one before,
    capped at 120 seconds. *)
Definition backoff_as_claimed : Prop :=
  forall k : nat, (k <= 3)%nat ->
    (forall i : nat, (i < k)%nat -> retryable_attempt i = true) ->
    forall i : nat, (i < k)%nat ->
      sleeps (run _request_with_retry).2 !! i = [30; 60; 120] !! i.

(** Exhaustion as the spec words it: a typed error with the last HTTP
    status and body, or the last transport error if no HTTP response
    was ever obtained. *)
Definition exhaustion_as_claimed : Prop :=
  (forall i : nat, (i < MAX_RETRIES)%nat -> retryable_attempt i = true) ->
  match last_response MAX_RETRIES with
  | Some resp =>
      exists msg,
        (run _request_with_retry).1 =
        Raise (GooglePhotosError msg (Some (Response.status_code resp))
                 (Some (Response.text resp)))
  | None =>
      (run _request_with_retry).1 =
      Raise (attempt_failure (MAX_RETRIES - 1))
  end.
End Wrapper.

(** The client as the orchestrator sees it: the three coroutines it
    awaits, each at most once per event, with what they return or raise. *)
Module Client.
Record t : Type := mk {
  get_or_create_album : string -> Outcome string;
  upload_media : bytes -> string -> string -> string -> Outcome unit;
  get_album_product_url : string -> Outcome string
}.
End Client.

End GooglePhotos.

(** ** bot/config.py, as far as the handlers read it *)

Module Config.
Record t : Type := mk { allowed_group_ids : list Z }.
End Config.

(** ** bot/handlers.py *)

Module Handlers.
Import Telegram.
Import Media (MediaContent).

(** [context]: the bot and what [post_init] put into [bot_data].  The
    store itself is the state of the effect monad; [db] only says whether
    the key is there. *)
Record Context : Type := mkContext {
  bot : Bot.t;
  db : bool;
  google_photos : option GooglePhotos.Client.t;
  config : option Config.t
}.

(** The answers of the link command. *)
Inductive Reply : Type :=
| NoAlbumFound
| AlbumUrl (url : string)
| CouldNotRetrieve.

(** The calls a handler makes, in order; a call to a collaborator is
    recorded with what it returned or raised. *)
Inductive Event : Type :=
| DeleteAlbumCache (group_title : string)
| SetChatTitle (chat_id : Z) (group_title : string)
| SetAlbumId (group_title album_id : string)
| MarkProcessed (chat_id message_id : Z)
| Transfer (ev : Media.Event)
| DownloadMedia (res : Outcome (option MediaContent))
| GetOrCreateAlbum (title : string) (res : Outcome string)
| UploadMedia (file_bytes : bytes) (filename mime_type album_id : string)
    (res : Outcome unit)
| GetAlbumProductUrl (album_id : string) (res : Outcome string)
| ReplyText (reply : Reply).

Definition M : Type -> Type := Eff Database.t Event.

(** A read of the store. *)
Definition db_read {A} (f : Database.t -> Outcome A * Database.t) : M A :=
  fun s => let '(r, s') := f s in (r, s', []).

(** A mutating call on the store, recorded as [ev]. *)
Definition db_write (ev : Event) (f : Database.t -> Outcome unit * Database.t)
  : M unit :=
  fun s => let '(r, s') := f s in (r, s', [ev]).

(** [download_media(context.bot, message)]: the store is not touched. *)
Definition call_download (bot : Bot.t) (message : Message.t)
  : M (option MediaContent) :=
  fun s =>
    let '(r, t) := run (Media.download_media bot message) in
    (r, s, map Transfer t ++ [DownloadMedia r]).

(** A call of a client coroutine, recorded by [ev] with its outcome. *)
Definition call_client {A} (ev : Outcome A -> Event) (r : Outcome A) : M A :=
  fun s => (r, s, [ev r]).

(** [chat.type in ("group", "supergroup")] *)
Definition is_group (chat : Chat.t) : bool :=
  String.eqb (Chat.type chat) "group"
  || String.eqb (Chat.type chat) "supergroup".

(** [allowed and chat_id not in allowed] *)
Definition not_allowed (cfg : Config.t) (chat_id : Z) : bool :=
  match Config.allowed_group_ids cfg with
  | [] => false
  | allowed => negb (bool_decide (chat_id ∈ allowed))
  end.

(** Lines 54-56: the title the album goes by. *)
Definition effective_title (chat : Chat.t) : string :=
  let fallback := "Chat_" +:+ pretty (Chat.id chat) in
  let chat_title := str_or (Chat.title chat) fallback in
  if negb (truthy (strip chat_title)) then fallback else chat_title.

(** [isinstance(exc, FileTooLargeError)] and
    [isinstance(exc, GooglePhotosError)] *)
Definition is_FileTooLargeError (exc : Exn) : bool :=
  match exc with FileTooLargeError _ _ _ => true | _ => false end.

Definition is_GooglePhotosError (exc : Exn) : bool :=
  match exc with GooglePhotosError _ _ _ => true | _ => false end.

Definition handle_media (update : Update.t) (context : Context) : M unit :=
  match Update.message update, Update.effective_chat update with
  | Some message, Some chat =>
    let chat_id := Chat.id chat in
    let message_id := Message.id message in
    if negb (is_group chat) then ret tt else
    match db context, google_photos context, config context with
    | true, Some google_photos, Some config =>
      if not_allowed config chat_id then ret tt else
      (processed <- db_read (Database.is_processed chat_id message_id) ;;
       if processed : bool then ret tt else
       let chat_title := effective_title chat in
       (* Detect group rename *)
       (stored_title <- db_read (Database.get_chat_title chat_id) ;;
        (match stored_title with
         | Some stored =>
             if truthy stored && negb (String.eqb stored chat_title)
             then db_write (DeleteAlbumCache stored)
                    (Database.delete_album_cache stored)
             else ret tt
         | None => ret tt
         end) ;;
        db_write (SetChatTitle chat_id chat_title)
          (Database.set_chat_title chat_id chat_title)) ;;
       downloaded <- try (call_download (bot context) message) ;;
       match downloaded with
       | Raise exc =>
           if is_FileTooLargeError exc then ret tt (* logger.warning *)
           else ret tt (* logger.exception *)
       | Ret None => ret tt
       | Ret (Some content) =>
         uploaded <- try (
           cached <- db_read (Database.get_album_id chat_title) ;;
           album_id <-
             (if truthy_opt cached
              then ret (default EmptyString cached)
              else
                album_id <- call_client (GetOrCreateAlbum chat_title)
                  (GooglePhotos.Client.get_or_create_album google_photos
                     chat_title) ;;
                db_write (SetAlbumId chat_title album_id)
                  (Database.set_album_id chat_title album_id) ;;
                ret album_id) ;;
           call_client
             (UploadMedia (Media.data content) (Media.filename content)
                (Media.mime_type content) album_id)
             (GooglePhotos.Client.upload_media google_photos
                (Media.data content) (Media.filename content)
                (Media.mime_type content) album_id)) ;;
         match uploaded with
         | Raise exc =>
             if is_GooglePhotosError exc then ret tt (* logger.error *)
             else ret tt (* logger.exception *)
         | Ret _ =>
             db_write (MarkProcessed chat_id message_id)
               (Database.mark_processed chat_id message_id)
         end
       end)%eff
    | _, _, _ => ret tt
    end
  | _, _ => ret tt
  end.

(** Two blocks of [handle_media], named for the statements: lines 58-66,
    the rename step, and lines 90-100, the body of the second [try]. *)
Definition detect_rename (chat_id : Z) (chat_title : string) : M unit :=
  (stored_title <- db_read (Database.get_chat_title chat_id) ;;
   (match stored_title with
    | Some stored =>
        if truthy stored && negb (String.eqb stored chat_title)
        then db_write (DeleteAlbumCache stored)
               (Database.delete_album_cache stored)
        else ret tt
    | None => ret tt
    end) ;;
   db_write (SetChatTitle chat_id chat_title)
     (Database.set_chat_title chat_id chat_title))%eff.

Definition resolve_and_upload (google_photos : GooglePhotos.Client.t)
  (chat_title : string) (content : MediaContent) : M unit :=
  (cached <- db_read (Database.get_album_id chat_title) ;;
   album_id <-
     (if truthy_opt cached
      then ret (default EmptyString cached)
      else
        album_id <- call_client (GetOrCreateAlbum chat_title)
          (GooglePhotos.Client.get_or_create_album google_photos chat_title) ;;
        db_write (SetAlbumId chat_title album_id)
          (Database.set_album_id chat_title album_id) ;;
        ret album_id) ;;
   call_client
     (UploadMedia (Media.data content) (Media.filename content)
        (Media.mime_type content) album_id)
     (GooglePhotos.Client.upload_media google_photos (Media.data content)
        (Media.filename content) (Media.mime_type content) album_id))%eff.

(** Modelled from the spec: [handle_link_command], the coroutine behind
    [link_command_handler] that main.py registers, is missing from
    bot/handlers.py.  The spec (sections 4.4 and 6): a request-response
    query, scoped to a group, that given the group's current effective
    title replies with the product URL of its cached album, with an
    explicit "no album found" when nothing is cached, and with an explicit
    "could not retrieve" on remote failure; it performs no mutation and no
    upload.  The gates before the query are those of [handle_media], which
    tests/test_handlers.py exercises for this command as well. *)
Definition handle_link_command (update : Update.t) (context : Context)
  : M unit :=
  match Update.message update, Update.effective_chat update with
  | Some message, Some chat =>
    if negb (is_group chat) then ret tt else
    match db context, google_photos context, config context with
    | true, Some google_photos, Some config =>
      if not_allowed config (Chat.id chat) then ret tt else
      (cached <- db_read (Database.get_album_id (effective_title chat)) ;;
       match cached with
       | None => emit (ReplyText NoAlbumFound)
       | Some album_id =>
           url <- try (call_client (GetAlbumProductUrl album_id)
                         (GooglePhotos.Client.get_album_product_url
                            google_photos album_id)) ;;
           match url with
           | Ret url => emit (ReplyText (AlbumUrl url))
           | Raise _ => emit (ReplyText CouldNotRetrieve)
           end
       end)%eff
    | _, _, _ => ret tt
    end
  | _, _ => ret tt
  end.

(** *** Vocabulary of the statements about the handlers *)

(** The processed markers a store holds. *)
Definition processed (store : Database.t) : gset (Z * Z) :=
  match Database._conn store with
  | Some conn => Database.processed_messages conn
  | None => ∅
  end.

(** The [mark_processed] calls of a run, the transfer steps of its
    download, and the titles of its album lookups. *)
Definition marks (evs : list Event) : list (Z * Z) :=
  omap (fun ev => match ev with
                  | MarkProcessed c m => Some (c, m)
                  | _ => None
                  end) evs.

Definition transfers (evs : list Event) : list Media.Event :=
  omap (fun ev => match ev with Transfer e => Some e | _ => None end) evs.

Definition album_lookups (evs : list Event) : list string :=
  omap (fun ev => match ev with
                  | GetOrCreateAlbum title _ => Some title
                  | _ => None
                  end) evs.

(** The calls of step 4, the rename bookkeeping. *)
Definition bookkeeping (ev : Event) : bool :=
  match ev with
  | DeleteAlbumCache _ | SetChatTitle _ _ => true
  | _ => false
  end.

(** A collaborator call that ends an error path: the fetch raised (a
    size-limit error or any other), the fetch found no media, the album
    resolution raised, the upload raised. *)
Definition failed (ev : Event) : bool :=
  match ev with
  | DownloadMedia (Raise _) => true
  | DownloadMedia (Ret None) => true
  | GetOrCreateAlbum _ (Raise _) => true
  | UploadMedia _ _ _ _ (Raise _) => true
  | _ => false
  end.

(** The event passes the gates: a message in a group chat, the handler's
    collaborators in place, the group on the allow-list if there is one. *)
Record accepted (update : Update.t) (context : Context)
  (message : Message.t) (chat : Chat.t)
  (client : GooglePhotos.Client.t) (cfg : Config.t) : Prop := mkAccepted {
  acc_message : Update.message update = Some message;
  acc_chat : Update.effective_chat update = Some chat;
  acc_group : is_group chat = true;
  acc_db : db context = true;
  acc_client : google_photos context = Some client;
  acc_config : config context = Some cfg;
  acc_allowed : not_allowed cfg (Chat.id chat) = false
}.

(** The event is turned away before the rename step. *)
Inductive rejected (update : Update.t) (context : Context)
  (store : Database.t) : Prop :=
| rejected_no_message :
    Update.message update = None -> rejected update context store
| rejected_no_chat :
    Update.effective_chat update = None -> rejected update context store
| rejected_not_group chat :
    Update.effective_chat update = Some chat ->
    is_group chat = false ->
    rejected update context store
| rejected_not_allowed chat cfg :
    Update.effective_chat update = Some chat ->
    config context = Some cfg ->
    not_allowed cfg (Chat.id chat) = true ->
    rejected update context store
| rejected_processed message chat conn :
    Update.message update = Some message ->
    Update.effective_chat update = Some chat ->
    store = Database.opened conn ->
    (Chat.id chat, Message.id message) ∈ Database.processed_messages conn ->
    rejected update context store.

(** The rename scenario as the spec words it, for an event that passes
    the gates, whose fetch yields media and whose album lookup answers. *)
Definition rename_as_claimed : Prop :=
  forall update context message chat client cfg conn content tevs
         album_old album_new,
    accepted update context message chat client cfg ->
    (Chat.id chat, Message.id message) ∉ Database.processed_messages conn ->
    Chat.title chat = Some "New" ->
    Database.chat_titles conn !! Chat.id chat = Some "Old" ->
    Database.album_cache conn !! "Old" = Some album_old ->
    run (Media.download_media (bot context) message)
      = (Ret (Some content), tevs) ->
    GooglePhotos.Client.get_or_create_album client "New" = Ret album_new ->
    exists conn',
      (handle_media update context (Database.opened conn)).1.2
        = Database.opened conn' /\
      Database.album_cache conn' !! "Old" = None /\
      Database.chat_titles conn' !! Chat.id chat = Some "New" /\
      album_lookups (handle_media update context (Database.opened conn)).2
        = ["New"] /\
      Database.album_cache conn' !! "New" = Some album_new.

End Handlers.

(** ** Concrete collaborators and events, for the scenarios *)

Module Scenarios.
Import Telegram.

(** *** The retry wrapper *)

Definition fresh_token : GooglePhotos.Credentials.t :=
  GooglePhotos.Credentials.mk (fun _ => Ret "fresh").

Definition respond (status : Z) (text : string)
  : Outcome GooglePhotos.Response.t :=
  Ret (GooglePhotos.Response.mk status text).

Definition always_ok : GooglePhotos.AsyncClient.t :=
  GooglePhotos.AsyncClient.mk (fun _ _ => respond 200 "ok").

Definition always_rate_limited : GooglePhotos.AsyncClient.t :=
  GooglePhotos.AsyncClient.mk (fun _ _ => respond 429 "rate limited").

(** Two 503s, then the request goes through. *)
Definition unavailable_twice_then_ok : GooglePhotos.AsyncClient.t :=
  GooglePhotos.AsyncClient.mk
    (fun n _ =>
       match n with
       | O | S O => respond 503 "unavailable"
       | S (S _) => respond 200 "ok"
       end).

(** One 503, then the network goes down. *)
Definition unavailable_then_down : GooglePhotos.AsyncClient.t :=
  GooglePhotos.AsyncClient.mk
    (fun n _ =>
       match n with
       | O => respond 503 "unavailable"
       | S _ => Raise (HTTPError "down")
       end).

(** A caller that passes an Authorization header of its own. *)
Definition stale_authorization : gmap string string :=
  {[ "Authorization" := "Bearer stale" ]}.

Definition get_albums (client : GooglePhotos.AsyncClient.t)
  : Eff unit GooglePhotos.Event GooglePhotos.Response.t :=
  GooglePhotos._request_with_retry fresh_token client "GET"
    "https://photoslibrary.googleapis.com/v1/albums" None None None None.

Definition post_upload (extra_headers : option (gmap string string))
  : Eff unit GooglePhotos.Event GooglePhotos.Response.t :=
  GooglePhotos._request_with_retry fresh_token always_ok "POST"
    "https://photoslibrary.googleapis.com/v1/uploads" None None
    (Some [Byte.xff; Byte.xd8]) extra_headers.

(** *** The handlers *)

Definition photo_message (message_id : Z) (file_size : option Z)
  : Message.t :=
  Message.mk message_id [PhotoSize.mk "photo_id" file_size] None None.

Definition supergroup (chat_id : Z) (title : string) : Chat.t :=
  Chat.mk chat_id "supergroup" (Some title).

(** A photo posted in a supergroup. *)
Definition photo_event (chat_id message_id : Z) (title : string)
  (file_size : option Z) : Update.t :=
  Update.mk (Some (photo_message message_id file_size))
    (Some (supergroup chat_id title)).

(** The same photo sent in a private chat. *)
Definition private_event : Update.t :=
  Update.mk (Some (photo_message 1 (Some 5000)))
    (Some (Chat.mk 7 "private" None)).

Definition jpeg : bytes := [Byte.xff; Byte.xd8].

Definition tg_file : File.t :=
  File.mk (Some "photos/img_001.jpg") (Ret jpeg).

Definition reliable_bot : Bot.t := Bot.mk (fun _ _ => Ret tg_file).

(** A client whose calls all succeed; lookups answer [album_id]. *)
Definition photos (album_id : string) : GooglePhotos.Client.t :=
  GooglePhotos.Client.mk
    (fun _ => Ret album_id)
    (fun _ _ _ _ => Ret tt)
    (fun album => Ret ("https://photos.google.com/lr/album/" +:+ album)).

(** A client whose uploads are refused with a 500. *)
Definition failing_upload : GooglePhotos.Client.t :=
  GooglePhotos.Client.mk
    (fun _ => Ret "album_1")
    (fun _ _ _ _ => Raise (GooglePhotosError "fail" (Some 500) None))
    (fun _ => Raise (GooglePhotosError "not found" (Some 404) None)).

Definition no_allow_list : Config.t := Config.mk [].

Definition context (album_id : string) : Handlers.Context :=
  Handlers.mkContext reliable_bot true (Some (photos album_id))
    (Some no_allow_list).

Definition empty_tables : Database.Tables := Database.mkTables ∅ ∅ ∅.

(** Group -100 was last seen as "Old", whose album is cached. *)
Definition old_tables : Database.Tables :=
  Database.mkTables ∅ {[ "Old" := "album_old" ]} {[ (-100) := "Old" ]}.

(** The same, with an album already cached under "New" as well (another
    group goes by that title). *)
Definition shared_tables : Database.Tables :=
  Database.mkTables ∅
    (<[ "New" := "album_shared" ]> {[ "Old" := "album_old" ]})
    {[ (-100) := "Old" ]}.

(** Message 1 of group -100 is already delivered. *)
Definition delivered_tables : Database.Tables :=
  Database.mkTables {[ (-100, 1) ]} ∅ ∅.

Definition downloaded_photo : Media.MediaContent :=
  Media.mkContent jpeg "img_001.jpg" "image/jpeg".

(** What the transfer of that photo does. *)
Definition photo_transfer : list Media.Event :=
  [Media.GetFile "photo_id"; Media.DownloadAsBytearray "photo_id"].

End Scenarios.

(** ** More concrete collaborators, for the other scenarios *)

Module Cases.
Import Telegram.

(** A bot whose calls all fail. *)
Definition dead_bot : Bot.t :=
  Bot.mk (fun _ _ => Raise (OtherException "persistent failure")).

(** A bot whose first call fails and whose later calls go through. *)
Definition flaky_bot : Bot.t :=
  Bot.mk (fun n _ =>
            match n with
            | O => Raise (OtherException "network")
            | S _ => Ret Scenarios.tg_file
            end).

(** A video that comes with a file name of its own, and a message that
    carries it together with a video note. *)
Definition holiday_video : Video.t :=
  Video.mk "video_id" (Some 10000) (Some "clips/holiday.mp4") None.

Definition video_message : Message.t :=
  Message.mk 5 [] (Some holiday_video)
    (Some (VideoNote.mk "note_id" (Some 2000))).

End Cases.

(** ** More vocabulary, for the statements about whole runs *)

Module Calls.
Import Telegram Handlers.

(** The outcomes of the [download_media] calls of a run, and the arguments
    of its [upload_media] calls. *)
Definition downloads (evs : list Event)
  : list (Outcome (option Media.MediaContent)) :=
  omap (fun ev => match ev with DownloadMedia res => Some res | _ => None end)
    evs.

Definition uploads (evs : list Event)
  : list (bytes * string * string * string) :=
  omap (fun ev => match ev with
                  | UploadMedia file_bytes filename mime_type album_id _ =>
                      Some (file_bytes, filename, mime_type, album_id)
                  | _ => None
                  end) evs.

(** [f"Chat_{chat_id}"], and a chat that reports no title to go by: none,
    the empty one, or white space only. *)
Definition placeholder (chat_id : Z) : string := "Chat_" +:+ pretty chat_id.

Definition untitled (chat : Chat.t) : bool :=
  match Chat.title chat with
  | Some title => negb (truthy (strip title))
  | None => true
  end.

End Calls.

(** ** bot/google_photos.py: the calls of the client *)

(** What [resp.json()] returns and what goes into a [json=] body or into
    [params=]: the values of Python's [json] module. *)
Module Json.

Inductive t : Type :=
| Null
| Bool (b : bool)
| Int (n : Z)
| Float (x : spec_float)
| Str (s : string)
| List (items : list t)
| Dict (items : list (string * t)).

(** The exceptions of ill-typed data; none of them is a
    [GooglePhotosError] or an [httpx.HTTPError]. *)
Definition AttributeError : Exn := OtherException "AttributeError".
Definition TypeError : Exn := OtherException "TypeError".
Definition KeyError : Exn := OtherException "KeyError".
Definition IndexError : Exn := OtherException "IndexError".

(** The value of [key] in the items of a dict. *)
Fixpoint lookup (key : string) (items : list (string * t)) : option t :=
  match items with
  | [] => None
  | (k, v) :: items' => if String.eqb k key then Some v else lookup key items'
  end.

(** [bool(v)] *)
Definition truthy (v : t) : bool :=
  match v with
  | Null => false
  | Bool b => b
  | Int n => negb (n =? 0)
  | Float (S754_zero _) => false
  | Float _ => true
  | Str s => negb (String.eqb s EmptyString)
  | List items => match items with [] => false | _ :: _ => true end
  | Dict items => match items with [] => false | _ :: _ => true end
  end.

(** [v.get(key, fallback)]: only a dict has the method. *)
Definition get (v : t) (key : string) (fallback : t) : Outcome t :=
  match v with
  | Dict items => Ret (default fallback (lookup key items))
  | _ => Raise AttributeError
  end.

(** [v[key]] for a string [key]. *)
Definition getitem (v : t) (key : string) : Outcome t :=
  match v with
  | Dict items =>
      match lookup key items with
      | Some x => Ret x
      | None => Raise KeyError
      end
  | _ => Raise TypeError
  end.

(** [v[0]] *)
Definition first (v : t) : Outcome t :=
  match v with
  | List (x :: _) => Ret x
  | List [] => Raise IndexError
  | Str (String c _) => Ret (Str (String c EmptyString))
  | Str EmptyString => Raise IndexError
  | Dict _ => Raise KeyError
  | _ => Raise TypeError
  end.

(** What [for x in v] goes through: the items of a list, the keys of a
    dict, the characters of a string. *)
Definition iter (v : t) : Outcome (list t) :=
  match v with
  | List items => Ret items
  | Dict items => Ret (map (fun kv => Str (fst kv)) items)
  | Str s =>
      Ret (map (fun c => Str (String c EmptyString)) (list_ascii_of_string s))
  | _ => Raise TypeError
  end.

(** [v == s] for a string [s], and [v != 0]. *)
Definition eq_str (v : t) (s : string) : bool :=
  match v with
  | Str s' => String.eqb s' s
  | _ => false
  end.

Definition ne_zero (v : t) : bool :=
  match v with
  | Int n => negb (n =? 0)
  | Float (S754_zero _) => false
  | Bool b => b
  | _ => true
  end.

End Json.

(** The public calls of [GooglePhotosClient] and the private ones behind
    them.  Each goes through [_request_with_retry], once or several times;
    the state of a run is the number of such calls made so far, and call
    [k] of a run faces the credential holder [credentials k] and the HTTP
    client [http k].  The library functions the methods rely on are
    parameters: [resp.json()], the encoding of a [json=] body and of
    [params=] by httpx, and [str()] of a value in an f-string. *)
Module GooglePhotosClient.
Import Telegram GooglePhotos.

Definition BASE_URL : string := "https://photoslibrary.googleapis.com/v1".
Definition UPLOAD_URL : string :=
  "https://photoslibrary.googleapis.com/v1/uploads".

Definition M : Type -> Type := Eff nat Event.

(** [s[:n] if len(s) > n else s] *)
Definition cut (n : nat) (s : string) : string :=
  if (n <? String.length s)%nat then substring 0 n s else s.

Section Methods.
Variable credentials : nat -> Credentials.t.
Variable http : nat -> AsyncClient.t.
Variable json : Response.t -> Outcome Json.t.
Variable encode_json : Json.t -> string.
Variable encode_params : list (string * Json.t) -> list (string * string).
Variable str : Json.t -> string.

(** [await self._request_with_retry(client, method, url, ...)] *)
Definition request_with_retry (method url : string)
  (params : option (list (string * string))) (body : option string)
  (content : option bytes) (extra_headers : option (gmap string string))
  : M Response.t :=
  fun k =>
    let '(r, t) :=
      run (_request_with_retry (credentials k) (http k) method url params
             body content extra_headers) in
    (r, S k, t).

(** Lines 140-153. *)
Definition upload_headers (mime_type : string) : gmap string string :=
  <[ "Content-type" := "application/octet-stream" ]>
    (<[ "X-Goog-Upload-Content-Type" := mime_type ]>
       {[ "X-Goog-Upload-Protocol" := "raw" ]}).

Definition _upload_bytes (file_bytes : bytes) (mime_type : string)
  : M string :=
  (resp <- request_with_retry "POST" UPLOAD_URL None None (Some file_bytes)
             (Some (upload_headers mime_type)) ;;
   ret (strip (Response.text resp)))%eff.

(** Lines 161-173: the body of the [batchCreate] request. *)
Definition media_item_body (upload_token filename album_id : string)
  : Json.t :=
  let filename_safe := cut 255 filename in
  Json.Dict
    [("albumId", Json.Str album_id);
     ("newMediaItems",
      Json.List
        [Json.Dict
           [("description", Json.Str EmptyString);
            ("simpleMediaItem",
             Json.Dict [("uploadToken", Json.Str upload_token);
                        ("fileName", Json.Str filename_safe)])]])].

(** Lines 181-188: what is made of the answer; [a and b] looks at [b]
    only when [a] is truthy. *)
Definition check_media_item (resp : Response.t) : Outcome unit :=
  match json resp with
  | Raise exc => Raise exc
  | Ret data =>
      match Json.get data "newMediaItemResults" (Json.List []) with
      | Raise exc => Raise exc
      | Ret results =>
          if negb (Json.truthy results)
          then Raise (GooglePhotosError "batchCreate returned no results"
                        None (Some (Response.text resp)))
          else
            match Json.first results with
            | Raise exc => Raise exc
            | Ret result =>
                match Json.get result "status" (Json.Dict []) with
                | Raise exc => Raise exc
                | Ret status =>
                    match Json.get status "code" Json.Null with
                    | Raise exc => Raise exc
                    | Ret code =>
                        if negb (Json.truthy code) then Ret tt else
                        match Json.getitem status "code" with
                        | Raise exc => Raise exc
                        | Ret code' =>
                            if negb (Json.ne_zero code') then Ret tt else
                            match Json.get status "message"
                                    (Json.Str "Unknown error") with
                            | Raise exc => Raise exc
                            | Ret msg =>
                                Raise (GooglePhotosError
                                         ("batchCreate failed: " +:+ str msg)
                                         None (Some (Response.text resp)))
                            end
                        end
                    end
                end
            end
      end
  end.

Definition _create_media_item (upload_token filename album_id : string)
  : M unit :=
  (resp <- request_with_retry "POST" (BASE_URL +:+ "/mediaItems:batchCreate")
             None
             (Some (encode_json
                      (media_item_body upload_token filename album_id)))
             None None ;;
   of_outcome (check_media_item resp))%eff.

(** Lines 129-138. *)
Definition upload_media (file_bytes : bytes)
  (filename mime_type album_id : string) : M unit :=
  (upload_token <- _upload_bytes file_bytes mime_type ;;
   _create_media_item upload_token filename album_id)%eff.

(** [data.get(key)] of a parsed answer, and the [GooglePhotosError] for a
    value that is missing or not truthy (lines 111-115 and 123-127). *)
Definition required_field (resp : Response.t) (key msg : string)
  : Outcome Json.t :=
  match json resp with
  | Raise exc => Raise exc
  | Ret data =>
      match Json.get data key Json.Null with
      | Raise exc => Raise exc
      | Ret value =>
          if negb (Json.truthy value)
          then Raise (GooglePhotosError msg None (Some (Response.text resp)))
          else Ret value
      end
  end.

(** Lines 101-115. *)
Definition _create_album (title : string) : M Json.t :=
  let title_trimmed := cut 500 title in
  let body :=
    Json.Dict [("album", Json.Dict [("title", Json.Str title_trimmed)])] in
  (resp <- request_with_retry "POST" (BASE_URL +:+ "/albums") None
             (Some (encode_json body)) None None ;;
   of_outcome
     (required_field resp "id" "Create album response missing id"))%eff.

(** Lines 117-127. *)
Definition get_album_product_url (album_id : string) : M Json.t :=
  (resp <- request_with_retry "GET" (BASE_URL +:+ "/albums/" +:+ album_id)
             None None None None ;;
   of_outcome (required_field resp "productUrl"
                 "Album response missing productUrl"))%eff.

(** Lines 93-95: the loop over the albums of one page; [None] when it
    ends without a [return]. *)
Fixpoint scan_albums (albums : list Json.t) (title : string)
  : Outcome (option Json.t) :=
  match albums with
  | [] => Ret None
  | album :: albums' =>
      match Json.get album "title" Json.Null with
      | Raise exc => Raise exc
      | Ret album_title =>
          if Json.eq_str album_title title
          then
            match Json.getitem album "id" with
            | Raise exc => Raise exc
            | Ret album_id => Ret (Some album_id)
            end
          else scan_albums albums' title
      end
  end.

(** Lines 79-84: the parameters of the request for one page. *)
Definition page_params (page_token : Json.t) : list (string * Json.t) :=
  [("pageSize", Json.Int 50); ("excludeNonAppCreatedData", Json.Bool true)]
  ++ (if Json.truthy page_token then [("pageToken", page_token)] else []).

(** Lines 78-99: [while True], at most [pages] times round; the result is
    [None] when the loop has not ended by then, and [Some Json.Null] when
    the method returns [None]. *)
Fixpoint find_pages (pages : nat) (title : string) (page_token : Json.t)
  : M (option Json.t) :=
  match pages with
  | O => ret None
  | S pages' =>
      (resp <- request_with_retry "GET" (BASE_URL +:+ "/albums")
                 (Some (encode_params (page_params page_token)))
                 None None None ;;
       data <- of_outcome (json resp) ;;
       albums <- of_outcome (Json.get data "albums" (Json.List [])) ;;
       albums <- of_outcome (Json.iter albums) ;;
       found <- of_outcome (scan_albums albums title) ;;
       match found with
       | Some album_id => ret (Some album_id)
       | None =>
           page_token <- of_outcome
                           (Json.get data "nextPageToken" Json.Null) ;;
           if negb (Json.truthy page_token) then ret (Some Json.Null)
           else find_pages pages' title page_token
       end)%eff
  end.

Definition _find_album_by_title (pages : nat) (title : string)
  : M (option Json.t) :=
  find_pages pages title Json.Null.

(** Lines 62-73. *)
Definition get_or_create_album (pages : nat) (title : string)
  : M (option Json.t) :=
  (found <- _find_album_by_title pages title ;;
   match found with
   | None => ret None
   | Some album_id =>
       if Json.truthy album_id then ret (Some album_id)
       else (album_id <- _create_album title ;; ret (Some album_id))
   end)%eff.

End Methods.

(** *** Vocabulary of the statements about the client *)

(** Every request of every run of [m] satisfies [P]. *)
Definition sends {A} (P : Request.t -> Prop) (m : M A) : Prop :=
  forall k, Forall P (requests (m k).2).

(** The request carries a token the credential holder handed out. *)
Definition authorized (credentials : nat -> Credentials.t) (req : Request.t)
  : Prop :=
  exists k attempt token,
    Credentials._get_access_token (credentials k) attempt = Ret token /\
    Request.headers req !! "Authorization" = Some ("Bearer " +:+ token).

(** The request uploads [file_bytes] as [mime_type]. *)
Definition is_upload (file_bytes : bytes) (mime_type : string)
  (req : Request.t) : Prop :=
  Request.method req = "POST" /\ Request.url req = UPLOAD_URL /\
  Request.body req = ContentBody (Some file_bytes) /\
  Request.headers req !! "Content-type" = Some "application/octet-stream" /\
  Request.headers req !! "X-Goog-Upload-Content-Type" = Some mime_type /\
  Request.headers req !! "X-Goog-Upload-Protocol" = Some "raw".

(** The request posts [body] as JSON to [url]. *)
Definition is_post (url body : string) (req : Request.t) : Prop :=
  Request.method req = "POST" /\ Request.url req = url /\
  Request.body req = JsonBody body.

(** The request asks for a page of the album list. *)
Definition is_search (req : Request.t) : Prop :=
  Request.method req = "GET" /\ Request.url req = BASE_URL +:+ "/albums" /\
  Request.body req = ContentBody None.

(** The album is a dict whose title is not [title]. *)
Definition other_album (title : string) (album : Json.t) : Prop :=
  exists album_title,
    Json.get album "title" Json.Null = Ret album_title /\
    Json.eq_str album_title title = false.

End GooglePhotosClient.

(** ** Concrete collaborators of the client, for the scenarios *)

Module ClientCases.
Import Telegram GooglePhotos.

(** The credential holder always hands out the same token. *)
Definition tokens : nat -> Credentials.t := fun _ => Scenarios.fresh_token.

(** Call [k] is answered with the [k]-th of [answers] at its first attempt;
    a call beyond them finds the network down. *)
Definition answering (answers : list Response.t) : nat -> AsyncClient.t :=
  fun k =>
    AsyncClient.mk
      (fun _ _ =>
         match answers !! k with
         | Some resp => Ret resp
         | None => Raise (HTTPError "connection refused")
         end).

(** Two pages of the album list: "Trip" is on the second one. *)
Definition first_page : Json.t :=
  Json.Dict
    [("albums",
      Json.List
        [Json.Dict [("id", Json.Str "album_7"); ("title", Json.Str "Other")]]);
     ("nextPageToken", Json.Str "page_2")].

Definition second_page : Json.t :=
  Json.Dict
    [("albums",
      Json.List
        [Json.Dict [("id", Json.Str "album_8"); ("title", Json.Str "Trip")];
         Json.Dict [("id", Json.Str "album_9"); ("title", Json.Str "Trip")]])].

(** [resp.json()] for the answers of the scenarios. *)
Definition parsed (resp : Response.t) : Outcome Json.t :=
  if String.eqb (Response.text resp) "first page" then Ret first_page
  else if String.eqb (Response.text resp) "second page" then Ret second_page
  else Raise (OtherException "JSONDecodeError").

(** Encoders that keep strings and integers and drop the rest. *)
Definition plain (v : Json.t) : string :=
  match v with
  | Json.Str s => s
  | Json.Int n => pretty n
  | _ => EmptyString
  end.

Definition plain_params (params : list (string * Json.t))
  : list (string * string) :=
  map (fun kv => (fst kv, plain (snd kv))) params.

Definition find_trip (pages : nat)
  : Outcome (option Json.t) * nat * list Event :=
  GooglePhotosClient.get_or_create_album tokens
    (answering [Response.mk 200 "first page"; Response.mk 200 "second page"])
    parsed plain plain_params pages "Trip" 0%nat.

End ClientCases.

(** * Facts *)

(** ** The tests of the repository, replayed *)

Example safe_filename_simple :
  Media._safe_filename "photo.jpg" "fallback.jpg" = "photo.jpg".
Proof. reflexivity. Qed.

Example safe_filename_whitespace :
  Media._safe_filename "   " "fallback.jpg" = "fallback.jpg".
Proof. reflexivity. Qed.

Example safe_filename_backslash :
  Media._safe_filename "photos\image.jpg" "fallback.jpg" = "image.jpg".
Proof. reflexivity. Qed.

Example safe_filename_deep :
  Media._safe_filename "a/b/c/photo.jpg" "fallback.jpg" = "photo.jpg".
Proof. reflexivity. Qed.

Example safe_filename_trailing_slash :
  Media._safe_filename "some/path/" "fallback.jpg" = "fallback.jpg".
Proof. reflexivity. Qed.

(** [503, 503, 200]: the 200 comes back after three attempts and two waits. *)
Example retry_then_success :
  run (Scenarios.get_albums Scenarios.unavailable_twice_then_ok)
  = (Scenarios.respond 200 "ok",
     (let req :=
        GooglePhotos.SendRequest
          (GooglePhotos.Request.mk "GET"
             "https://photoslibrary.googleapis.com/v1/albums" None
             (GooglePhotos.ContentBody None)
             {[ "Authorization" := "Bearer fresh" ]}) in
      [GooglePhotos.GetAccessToken; req;
       GooglePhotos.Sleep 60; GooglePhotos.GetAccessToken; req;
       GooglePhotos.Sleep 120; GooglePhotos.GetAccessToken; req])).
Proof. vm_compute. reflexivity. Qed.

(** Group -100, message 42, title "Vacation": one upload into the album
    that was resolved, then the mark. *)
Example end_to_end :
  let '(r, store', evs) :=
    Handlers.handle_media
      (Scenarios.photo_event (-100) 42 "Vacation" (Some 5000))
      (Scenarios.context "album_1")
      (Database.opened Scenarios.empty_tables) in
  r = Ret tt /\
  (Database.is_processed (-100) 42 store').1 = Ret true /\
  (Database.get_album_id "Vacation" store').1 = Ret (Some "album_1") /\
  (Database.get_chat_title (-100) store').1 = Ret (Some "Vacation") /\
  evs = [Handlers.SetChatTitle (-100) "Vacation";
         Handlers.Transfer (Media.GetFile "photo_id");
         Handlers.Transfer (Media.DownloadAsBytearray "photo_id");
         Handlers.DownloadMedia (Ret (Some Scenarios.downloaded_photo));
         Handlers.GetOrCreateAlbum "Vacation" (Ret "album_1");
         Handlers.SetAlbumId "Vacation" "album_1";
         Handlers.UploadMedia Scenarios.jpeg "img_001.jpg" "image/jpeg"
           "album_1" (Ret tt);
         Handlers.MarkProcessed (-100) 42].
Proof. vm_compute. repeat split. Qed.

(** ** The store *)

(** C4. For all integers [g] and [m] and every open store:
    [mark_processed g m] returns; after it [is_processed g m] answers
    [True]; and a second [mark_processed g m] returns as well, without an
    error, and leaves the store exactly as the first call left it. *)
Theorem mark_processed_idempotent (g m : Z) (conn : Database.Tables) :
  exists conn',
    Database.mark_processed g m (Database.opened conn)
      = (Ret tt, Database.opened conn') /\
    Database.is_processed g m (Database.opened conn')
      = (Ret true, Database.opened conn') /\
    Database.mark_processed g m (Database.opened conn')
      = (Ret tt, Database.opened conn').
Proof.
  unfold Database.mark_processed, Database.is_processed. simpl.
  destruct (decide ((g, m) ∈ Database.processed_messages conn)) as [Hin|Hnin].
  - exists conn. rewrite bool_decide_eq_true_2 by done.
    rewrite decide_True by done. done.
  - eexists. split; [reflexivity|]. simpl.
    rewrite bool_decide_eq_true_2 by set_solver.
    rewrite decide_True by set_solver. done.
Qed.

(** ** The download *)

Section MediaFacts.
Import Telegram Media.

Lemma check_file_size_raises size limit label :
  _check_file_size (Some size) limit label
    = Raise (FileTooLargeError label size limit) <-> limit < size.
Proof.
  unfold _check_file_size. destruct (limit <? size) eqn:H.
  - apply Z.ltb_lt in H. done.
  - apply Z.ltb_ge in H. split; [done | lia].
Qed.

Lemma last_Some_cons {A} (l : list A) x :
  last l = Some x -> exists y l', l = y :: l'.
Proof. destruct l; [done | eauto]. Qed.

(** An attachment over its ceiling: the size-limit error, and not one
    call to Telegram. *)
Lemma download_media_oversize bot message label limit size :
  declared message label limit size -> limit < size ->
  run (download_media bot message)
    = (Raise (FileTooLargeError label size limit), []).
Proof.
  intros Hdecl Hlt. apply Z.ltb_lt in Hlt.
  unfold run, download_media.
  destruct Hdecl as [largest size Hlast Hsize | video size Hphoto Hvideo Hsize
                    | note size Hphoto Hvideo Hnote Hsize].
  - destruct (last_Some_cons _ _ Hlast) as (p & ps & Hps). rewrite Hps.
    unfold _download_photo. rewrite <- Hps, Hlast.
    unfold bind, of_outcome, _check_file_size. rewrite Hsize, Hlt.
    reflexivity.
  - rewrite Hphoto, Hvideo. unfold _download_video.
    unfold bind, of_outcome, _check_file_size. rewrite Hsize, Hlt.
    reflexivity.
  - rewrite Hphoto, Hvideo, Hnote. unfold _download_video_note.
    unfold bind, of_outcome, _check_file_size. rewrite Hsize, Hlt.
    reflexivity.
Qed.

(** An attachment without a declared size: the download is the
    transfer, whatever the number of bytes that arrive. *)
Lemma download_media_undeclared bot message file_id :
  undeclared message file_id ->
  exists r,
    run (download_media bot message)
      = (r, (run (_download_with_retry bot file_id)).2) /\
    match (run (_download_with_retry bot file_id)).1 with
    | Ret (tg_file, data) =>
        exists filename mime_type,
          r = Ret (Some (mkContent data filename mime_type))
    | Raise exc => r = Raise exc
    end.
Proof.
  intros Hund. unfold run, download_media.
  destruct Hund as [largest Hlast Hsize | video Hphoto Hvideo Hsize
                   | note Hphoto Hvideo Hnote Hsize].
  - destruct (last_Some_cons _ _ Hlast) as (p & ps & Hps). rewrite Hps.
    unfold _download_photo. rewrite <- Hps, Hlast.
    unfold bind, of_outcome, _check_file_size, ret. rewrite Hsize.
    destruct (_download_with_retry bot (PhotoSize.file_id largest) tt)
      as [[[[tg_file data]|exc] []] evs]; simpl;
      rewrite ?app_nil_r; eauto.
  - rewrite Hphoto, Hvideo. unfold _download_video.
    unfold bind, of_outcome, _check_file_size, ret. rewrite Hsize.
    destruct (_download_with_retry bot (Video.file_id video) tt)
      as [[[[tg_file data]|exc] []] evs]; simpl;
      rewrite ?app_nil_r; eauto.
  - rewrite Hphoto, Hvideo, Hnote. unfold _download_video_note.
    unfold bind, of_outcome, _check_file_size, ret. rewrite Hsize.
    destruct (_download_with_retry bot (VideoNote.file_id note) tt)
      as [[[[tg_file data]|exc] []] evs]; simpl;
      rewrite ?app_nil_r; eauto.
Qed.

(** C9. The size check does nothing when no size is declared; it lets a
    declared size equal to the limit pass; it raises exactly when the
    declared size is strictly greater than the limit.  For an attachment
    that declares no size the download is the transfer itself: the same
    calls to Telegram, the same error when the transfer fails, and the
    bytes that arrived, however many, as the content. *)
Theorem size_check_skipped_when_undeclared_and_inclusive :
  (forall limit label, _check_file_size None limit label = Ret tt) /\
  (forall limit label, _check_file_size (Some limit) limit label = Ret tt) /\
  (forall size limit label,
     _check_file_size (Some size) limit label
       = Raise (FileTooLargeError label size limit) <-> limit < size) /\
  (forall bot message file_id,
     undeclared message file_id ->
     exists r,
       run (download_media bot message)
         = (r, (run (_download_with_retry bot file_id)).2) /\
       match (run (_download_with_retry bot file_id)).1 with
       | Ret (tg_file, data) =>
           exists filename mime_type,
             r = Ret (Some (mkContent data filename mime_type))
       | Raise exc => r = Raise exc
       end).
Proof.
  split; [done|]. split; [|split].
  - intros limit label. unfold _check_file_size.
    rewrite Z.ltb_irrefl. reflexivity.
  - apply check_file_size_raises.
  - apply download_media_undeclared.
Qed.

Lemma size_check_skipped_when_undeclared_and_inclusive_witness :
  undeclared (Scenarios.photo_message 3 None) "photo_id" /\
  exists filename mime_type,
    run (download_media Scenarios.reliable_bot
           (Scenarios.photo_message 3 None))
    = (Ret (Some (mkContent Scenarios.jpeg filename mime_type)),
       Scenarios.photo_transfer).
Proof.
  assert (undeclared (Scenarios.photo_message 3 None) "photo_id") as Hund.
  { by apply (undeclared_photo _ (PhotoSize.mk "photo_id" None)). }
  split; [exact Hund|].
  destruct size_check_skipped_when_undeclared_and_inclusive
    as (_ & _ & _ & H).
  destruct (H Scenarios.reliable_bot _ _ Hund) as (r & Hrun & Hr).
  rewrite Hrun. vm_compute in Hr. destruct Hr as (fn & mt & ->).
  exists fn, mt. reflexivity.
Defined.
End MediaFacts.

(** ** The retry wrapper *)

Section WrapperFacts.
Import Telegram GooglePhotos.
Variable self : Credentials.t.
Variable client : AsyncClient.t.
Variables method url : string.
Variable params : option (list (string * string)).
Variable json : option string.
Variable content : option bytes.
Variable extra_headers : option (gmap string string).

Abbreviation attempts :=
  (_attempts self client method url params json content extra_headers).
Abbreviation retryable :=
  (retryable_attempt self client method url params json content
     extra_headers).
Abbreviation failure :=
  (attempt_failure self client method url params json content extra_headers).
Abbreviation outcome :=
  (attempt_outcome self client method url params json content extra_headers).
Abbreviation wrapper :=
  (_request_with_retry self client method url params json content
     extra_headers).

Ltac run_tail :=
  match goal with
  | |- context [attempts ?a ?b ?c ?d tt] =>
      destruct (attempts a b c d tt) as [[? []] ?]
  end.

(** A retryable failure costs one attempt, and the loop goes on with the
    delay doubled. *)
Lemma run_attempts_retry i rem delay last :
  retryable i = true -> MIN_RETRY_DELAY_SEC <= delay ->
  exists req,
    run (attempts (S rem) i delay last) =
    let '(r, t) :=
      run (attempts rem (S i) (next_delay delay) (Some (failure i))) in
    (r, (if (0 <? i)%nat then [Sleep delay] else [])
          ++ GetAccessToken :: SendRequest req :: t).
Proof.
  unfold retryable_attempt, attempt_failure. intros Hr Hd.
  destruct (Credentials._get_access_token self i) as [token|e] eqn:Htok;
    [|done].
  exists (build_request method url params json content extra_headers token).
  unfold run. simpl. unfold bind, try, emit, of_outcome, ret.
  rewrite Htok.
  destruct (AsyncClient.request client i _) as [resp|e] eqn:Hreq;
    rewrite Hr; rewrite ?Z.max_l by lia;
    destruct (0 <? i)%nat; run_tail; reflexivity.
Qed.

(** An attempt that does not fail retryably ends the call. *)
Lemma run_attempts_final i rem delay last :
  retryable i = false ->
  exists evs,
    run (attempts (S rem) i delay last) = (outcome i, evs) /\
    attempts_started evs = 1%nat /\
    sleeps evs = (if (0 <? i)%nat then [delay] else []).
Proof.
  unfold retryable_attempt, attempt_outcome. intros Hr.
  unfold run. simpl. unfold bind, try, emit, of_outcome, ret.
  destruct (Credentials._get_access_token self i) as [token|e] eqn:Htok.
  - destruct (AsyncClient.request client i _) as [resp|e] eqn:Hreq;
      rewrite Hr.
    + destruct (raise_for_status resp);
        destruct (0 <? i)%nat; eexists; (split; [reflexivity|done]).
    + destruct (0 <? i)%nat; eexists; (split; [reflexivity|done]).
  - destruct (0 <? i)%nat; eexists; (split; [reflexivity|done]).
Qed.

Lemma run_attempts_exhausted i delay exc :
  run (attempts 0 i delay (Some exc)) = (Raise exc, []).
Proof. reflexivity. Qed.

(** The first thing an attempt after the first does is sleep [delay]. *)
Lemma run_attempts_head_sleep i rem delay last :
  (0 < i)%nat ->
  exists evs, (run (attempts (S rem) i delay last)).2 = Sleep delay :: evs.
Proof.
  intros Hi. unfold run. simpl. unfold bind, try, emit, of_outcome, ret.
  apply Nat.ltb_lt in Hi. rewrite Hi.
  destruct (Credentials._get_access_token self i) as [token|e];
    [|eexists; reflexivity].
  destruct (AsyncClient.request client i _) as [resp|e].
  - destruct (retryable_status resp); [run_tail; eexists; reflexivity|].
    destruct (raise_for_status resp); eexists; reflexivity.
  - destruct (is_HTTPError e); [run_tail|]; eexists; reflexivity.
Qed.

(** The first attempt starts by asking for a token: nothing is slept. *)
Lemma run_attempts_head_first rem delay last :
  exists evs, (run (attempts (S rem) 0 delay last)).2 = GetAccessToken :: evs.
Proof.
  unfold run. simpl. unfold bind, try, emit, of_outcome, ret.
  destruct (Credentials._get_access_token self 0) as [token|e];
    [|eexists; reflexivity].
  destruct (AsyncClient.request client 0 _) as [resp|e].
  - destruct (retryable_status resp); [run_tail; eexists; reflexivity|].
    destruct (raise_for_status resp); eexists; reflexivity.
  - destruct (is_HTTPError e); [run_tail|]; eexists; reflexivity.
Qed.

(** After [k] retryable failures from attempt [i] on, with attempts left,
    the waits so far are [delay], [next_delay delay], ... *)
Lemma sleeps_after_retries k :
  forall rem i delay last,
    (0 < i)%nat -> MIN_RETRY_DELAY_SEC <= delay -> (k < rem)%nat ->
    (forall j, (j < k)%nat -> retryable (i + j) = true) ->
    forall j, (j <= k)%nat ->
      sleeps (run (attempts rem i delay last)).2 !! j
      = Some (Nat.iter j next_delay delay).
Proof.
  induction k as [|k IH]; intros rem i delay last Hi Hd Hrem Hretry j Hj.
  - destruct rem as [|rem]; [lia|].
    destruct (run_attempts_head_sleep i rem delay last Hi) as [evs ->].
    replace j with 0%nat by lia. reflexivity.
  - destruct rem as [|rem]; [lia|].
    destruct (run_attempts_retry i rem delay last) as [req Hstep];
      [rewrite <- (Nat.add_0_r i); apply Hretry; lia | done |].
    rewrite Hstep.
    destruct (run (attempts rem (S i) (next_delay delay) (Some (failure i))))
      as [r t] eqn:Htail.
    apply Nat.ltb_lt in Hi as Hi'. rewrite Hi'. simpl.
    destruct j as [|j]; [reflexivity|].
    rewrite Nat.iter_succ_r.
    change ((delay :: sleeps t) !! S j) with (sleeps t !! j).
    replace t
      with (run (attempts rem (S i) (next_delay delay) (Some (failure i)))).2
      by (rewrite Htail; reflexivity).
    apply IH; try lia.
    + unfold next_delay, MIN_RETRY_DELAY_SEC in *. lia.
    + intros j' Hj'. replace (S i + j')%nat with (i + S j')%nat by lia.
      apply Hretry. lia.
Qed.

(** Every wait of every run lies between the minimum and the cap. *)
Lemma sleeps_bounded rem :
  forall i delay last,
    MIN_RETRY_DELAY_SEC <= delay <= 120 ->
    Forall (fun d => MIN_RETRY_DELAY_SEC <= d <= 120)
      (sleeps (run (attempts rem i delay last)).2).
Proof.
  induction rem as [|rem IH]; intros i delay last Hd.
  - destruct last; constructor.
  - destruct (retryable i) eqn:Hr.
    + destruct (run_attempts_retry i rem delay last Hr) as [req ->]; [lia|].
      specialize (IH (S i) (next_delay delay) (Some (failure i))).
      destruct (run (attempts rem (S i) (next_delay delay) (Some (failure i))))
        as [r t]. simpl in *.
      unfold sleeps. rewrite omap_app. apply Forall_app. split.
      * destruct (0 <? i)%nat; repeat constructor; lia.
      * apply IH. unfold next_delay, MIN_RETRY_DELAY_SEC in *. lia.
    + destruct (run_attempts_final i rem delay last Hr)
        as (evs & Hrun & _ & Hs).
      rewrite Hrun. simpl. rewrite Hs.
      destruct (0 <? i)%nat; repeat constructor; lia.
Qed.

(** [k] retryable failures in a row use up [k] attempts. *)
Lemma attempts_after_retries k :
  forall rem i delay last,
    MIN_RETRY_DELAY_SEC <= delay -> (k <= rem)%nat ->
    (forall j, (j < k)%nat -> retryable (i + j) = true) ->
    exists pre delay',
      MIN_RETRY_DELAY_SEC <= delay' /\
      attempts_started pre = k /\
      length (requests pre) = k /\
      run (attempts rem i delay last) =
      let '(r, t) :=
        run (attempts (rem - k) (i + k) delay'
               (match k with
                | O => last
                | S k' => Some (failure (i + k'))
                end)) in
      (r, pre ++ t).
Proof.
  induction k as [|k IH]; intros rem i delay last Hd Hrem Hretry.
  - exists [], delay. rewrite Nat.sub_0_r, Nat.add_0_r.
    destruct (run (attempts rem i delay last)). done.
  - destruct rem as [|rem]; [lia|].
    destruct (run_attempts_retry i rem delay last) as [req Hstep];
      [rewrite <- (Nat.add_0_r i); apply Hretry; lia | done |].
    destruct (IH rem (S i) (next_delay delay) (Some (failure i)))
      as (pre & delay' & Hd' & Hn & Hq & Htail).
    { unfold next_delay, MIN_RETRY_DELAY_SEC in *. lia. }
    { lia. }
    { intros j Hj. replace (S i + j)%nat with (i + S j)%nat by lia.
      apply Hretry. lia. }
    exists ((if (0 <? i)%nat then [Sleep delay] else [])
              ++ GetAccessToken :: SendRequest req :: pre), delay'.
    split; [done|]. split; [|split].
    + unfold attempts_started. rewrite omap_app, length_app.
      change (length (omap _ (GetAccessToken :: SendRequest req :: pre)))
        with (S (attempts_started pre)).
      rewrite Hn. destruct (0 <? i)%nat; reflexivity.
    + unfold requests. rewrite omap_app, length_app.
      change (length (omap _ (GetAccessToken :: SendRequest req :: pre)))
        with (S (length (requests pre))).
      rewrite Hq. destruct (0 <? i)%nat; reflexivity.
    + replace (match k with
               | 0%nat => Some (failure i)
               | S k' => Some (failure (S i + k'))
               end) with (Some (failure (i + k))) in Htail.
      2:{ destruct k; [rewrite Nat.add_0_r|
                       replace (S i + k)%nat with (i + S k)%nat by lia];
          reflexivity. }
      replace (S i + k)%nat with (i + S k)%nat in Htail by lia.
      rewrite Hstep, Htail.
      change (S rem - S k)%nat with (rem - k)%nat.
      destruct (run (attempts (rem - k) (i + S k) delay'
                       (Some (failure (i + k))))) as [r t].
      rewrite <- app_assoc. reflexivity.
Qed.
End WrapperFacts.

Section WrapperClaims.
Import Telegram GooglePhotos.

Lemma request_headers_authorization token extra_headers :
  request_headers token extra_headers !! "Authorization" =
  match extra_headers with
  | Some extra =>
      match extra !! "Authorization" with
      | Some v => Some v
      | None => Some ("Bearer " +:+ token)
      end
  | None => Some ("Bearer " +:+ token)
  end.
Proof.
  unfold request_headers, dict_update, _auth_headers.
  destruct extra_headers as [extra|]; [|apply lookup_singleton_eq].
  case_decide as He.
  - subst extra. rewrite lookup_empty. apply lookup_singleton_eq.
  - rewrite lookup_union. destruct (extra !! "Authorization") as [v|].
    + rewrite lookup_singleton_eq. reflexivity.
    + rewrite lookup_singleton_eq. reflexivity.
Qed.

(** C8, the code at the failing input.  The caller passes an
    Authorization header of its own and the token of the attempt is
    "fresh": the one request that is sent carries the caller's value,
    not the header made from the fresh token, because [dict.update] lets
    the entries of [extra_headers] replace those already there. *)
Theorem caller_authorization_overrides_fresh_token :
  map (fun req => Request.headers req !! "Authorization")
    (requests (run (Scenarios.post_upload
                      (Some Scenarios.stale_authorization))).2)
  = [Some "Bearer stale"]
  /\ _auth_headers "fresh" !! "Authorization" = Some "Bearer fresh".
Proof. split; vm_compute; reflexivity. Qed.

(** C2, amended.  Whenever the first [k <= 3] attempts fail retryably:
    the first attempt starts with the token request, nothing is slept
    before it; the wait before retry [i + 1] is min(30 * 2^(i+1), 120)
    seconds, that is 60, 120, 120, because [delay] starts at 30 and is
    doubled when an attempt fails, before the next wait; and every wait
    of every run lies between the 30-second minimum and the 120-second
    cap, the wait after a 429 included. *)
Theorem backoff_waits_start_doubled
  self client method url params json content extra_headers (k : nat) :
  (k <= 3)%nat ->
  (forall i, (i < k)%nat ->
     retryable_attempt self client method url params json content
       extra_headers i = true) ->
  let evs :=
    (run (_request_with_retry self client method url params json content
            extra_headers)).2 in
  (exists rest, evs = GetAccessToken :: rest) /\
  (forall i, (i < k)%nat ->
     sleeps evs !! i
     = Some (Z.min (MIN_RETRY_DELAY_SEC * 2 ^ (Z.of_nat i + 1)) 120)) /\
  (forall i, (i < k)%nat -> sleeps evs !! i = [60; 120; 120] !! i) /\
  Forall (fun d => MIN_RETRY_DELAY_SEC <= d <= 120) (sleeps evs).
Proof.
  intros Hk Hretry evs.
  assert (Hsl : forall i, (i < k)%nat -> sleeps evs !! i = [60; 120; 120] !! i).
  { intros i Hi. subst evs. unfold _request_with_retry, MAX_RETRIES.
    destruct (run_attempts_retry self client method url params json content
                extra_headers 0 3 MIN_RETRY_DELAY_SEC None)
      as [req Hstep]; [apply Hretry; lia | done |].
    rewrite Hstep.
    pose proof (sleeps_after_retries self client method url params json
                  content extra_headers (k - 1) 3 1
                  (next_delay MIN_RETRY_DELAY_SEC)
                  (Some (attempt_failure self client method url params json
                           content extra_headers 0))) as Hs.
    destruct (run (_attempts self client method url params json content
                     extra_headers 3 1 _ _)) as [r t].
    change ((r, (if (0 <? 0)%nat then [Sleep MIN_RETRY_DELAY_SEC] else [])
                  ++ GetAccessToken :: SendRequest req :: t).2)
      with (GetAccessToken :: SendRequest req :: t).
    change (sleeps (GetAccessToken :: SendRequest req :: t)) with (sleeps t).
    simpl in Hs. rewrite Hs; try lia.
    - destruct i as [|[|[|i]]]; try reflexivity. lia.
    - done.
    - intros j Hj. apply (Hretry (S j)). lia. }
  split; [|split; [|split]].
  - apply run_attempts_head_first.
  - intros i Hi. rewrite (Hsl i Hi).
    destruct i as [|[|[|i]]]; try reflexivity. lia.
  - exact Hsl.
  - apply sleeps_bounded. done.
Qed.

Lemma backoff_waits_start_doubled_witness :
  (forall i, (i < 3)%nat ->
     retryable_attempt Scenarios.fresh_token Scenarios.always_rate_limited
       "GET" "https://photoslibrary.googleapis.com/v1/albums"
       None None None None i = true) /\
  sleeps (run (Scenarios.get_albums Scenarios.always_rate_limited)).2
    !! 2%nat = Some 120.
Proof.
  assert (forall i, (i < 3)%nat ->
            retryable_attempt Scenarios.fresh_token
              Scenarios.always_rate_limited "GET"
              "https://photoslibrary.googleapis.com/v1/albums"
              None None None None i = true) as Hretry.
  { intros i _. reflexivity. }
  split; [exact Hretry|].
  destruct (backoff_waits_start_doubled Scenarios.fresh_token
              Scenarios.always_rate_limited "GET"
              "https://photoslibrary.googleapis.com/v1/albums"
              None None None None 3 ltac:(lia) Hretry) as (_ & _ & H & _).
  apply (H 2%nat). lia.
Defined.

(** The backoff as the spec words it does not hold: with every request
    answered 429, the wait before the first retry is 60 seconds, not 30. *)
Lemma backoff_as_claimed_fails :
  ~ (forall self client method url params json content extra_headers,
       backoff_as_claimed self client method url params json content
         extra_headers).
Proof.
  intros H.
  specialize (H Scenarios.fresh_token Scenarios.always_rate_limited "GET"
                "https://photoslibrary.googleapis.com/v1/albums"
                None None None None 1%nat ltac:(lia)
                ltac:(intros; reflexivity) 0%nat ltac:(lia)).
  vm_compute in H. discriminate H.
Qed.
End WrapperClaims.

Section RetryPolicy.
Import Telegram GooglePhotos.
Variable self : Credentials.t.
Variable client : AsyncClient.t.
Variables method url : string.
Variable params : option (list (string * string)).
Variable json : option string.
Variable content : option bytes.
Variable extra_headers : option (gmap string string).

Abbreviation retryable' :=
  (retryable_attempt self client method url params json content
     extra_headers).
Abbreviation failure' :=
  (attempt_failure self client method url params json content extra_headers).
Abbreviation outcome' :=
  (attempt_outcome self client method url params json content extra_headers).
Abbreviation response' :=
  (attempt_response self client method url params json content extra_headers).
Abbreviation wrapper' :=
  (_request_with_retry self client method url params json content
     extra_headers).

(** The first attempt that does not fail retryably decides the call. *)
Lemma wrapper_decided_at k :
  (k < MAX_RETRIES)%nat ->
  (forall i, (i < k)%nat -> retryable' i = true) ->
  retryable' k = false ->
  (run wrapper').1 = outcome' k /\
  attempts_started (run wrapper').2 = S k.
Proof.
  intros Hk Hretry Hfinal. unfold _request_with_retry.
  destruct (attempts_after_retries self client method url params json content
              extra_headers k MAX_RETRIES 0 MIN_RETRY_DELAY_SEC None)
    as (pre & delay' & _ & Hn & _ & Hrun); [done | lia | done |].
  rewrite Hrun. simpl (0 + k)%nat.
  destruct (MAX_RETRIES - k)%nat as [|rem] eqn:Hrem; [lia|].
  destruct (run_attempts_final self client method url params json content
              extra_headers k rem delay'
              (match k with
               | O => None
               | S k' => Some (failure' (0 + k'))
               end) Hfinal) as (evs & Hlast & Hone & _).
  rewrite Hlast. simpl. split; [reflexivity|].
  unfold attempts_started in *. rewrite omap_app, length_app. lia.
Qed.

(** When every attempt fails retryably, the failure of the last one is
    what the call raises. *)
Lemma wrapper_exhausted :
  (forall i, (i < MAX_RETRIES)%nat -> retryable' i = true) ->
  (run wrapper').1 = Raise (failure' (MAX_RETRIES - 1)) /\
  attempts_started (run wrapper').2 = MAX_RETRIES /\
  length (requests (run wrapper').2) = MAX_RETRIES.
Proof.
  intros Hretry. unfold _request_with_retry.
  destruct (attempts_after_retries self client method url params json content
              extra_headers MAX_RETRIES MAX_RETRIES 0 MIN_RETRY_DELAY_SEC None)
    as (pre & delay' & _ & Hn & Hq & Hrun); [done | lia | done |].
  rewrite Hrun. rewrite Nat.sub_diag. simpl.
  rewrite app_nil_r. done.
Qed.

(** While attempts remain, the next one is started. *)
Lemma wrapper_retries_while_left k :
  (k < MAX_RETRIES)%nat ->
  (forall i, (i < k)%nat -> retryable' i = true) ->
  (k < attempts_started (run wrapper').2)%nat.
Proof.
  intros Hk Hretry. unfold _request_with_retry.
  destruct (attempts_after_retries self client method url params json content
              extra_headers k MAX_RETRIES 0 MIN_RETRY_DELAY_SEC None)
    as (pre & delay' & Hd & Hn & _ & Hrun); [done | lia | done |].
  rewrite Hrun. simpl (0 + k)%nat.
  destruct (MAX_RETRIES - k)%nat as [|rem] eqn:Hrem; [lia|].
  set (last := match k with
               | O => None
               | S k' => Some (failure' (0 + k'))
               end).
  assert (1 <= attempts_started
                 (run (_attempts self client method url params json content
                         extra_headers (S rem) k delay' last)).2)%nat as Hone.
  { destruct (retryable' k) eqn:Hr.
    - destruct (run_attempts_retry self client method url params json content
                  extra_headers k rem delay' last Hr Hd) as [req ->].
      destruct (run (_attempts self client method url params json content
                       extra_headers rem (S k) _ _)) as [r t].
      unfold attempts_started. simpl. rewrite omap_app, length_app.
      simpl. lia.
    - destruct (run_attempts_final self client method url params json content
                  extra_headers k rem delay' last Hr)
        as (evs & Hrun' & Hone & _).
      rewrite Hrun'. simpl. lia. }
  destruct (run (_attempts self client method url params json content
                   extra_headers (S rem) k delay' last)) as [r t].
  simpl in *. unfold attempts_started in *. rewrite omap_app, length_app.
  lia.
Qed.
End RetryPolicy.

Section RetryPolicyClaim.
Import Telegram GooglePhotos.

(** C5, amended.  With [MAX_RETRIES] attempts: while one is left, the
    attempt after a run of retryable failures is started; the first
    attempt that does not fail retryably (a retryable failure being a
    token obtained and then an [httpx.HTTPError] from the request or a
    status of 429, 500, 502, 503, 504) ends the call with its own
    outcome, and no attempt follows it; in particular a non-2xx status
    outside that set fails the call at once; and when every attempt
    fails retryably the call raises the failure of the last attempt, the
    typed error with that attempt's status and body when it was
    answered, the transport error it raised when it was not, whatever
    the earlier attempts obtained. *)
Theorem retry_policy_raises_last_failure
  self client method url params json content extra_headers :
  let retryable :=
    retryable_attempt self client method url params json content
      extra_headers in
  let result :=
    (run (_request_with_retry self client method url params json content
            extra_headers)).1 in
  let started :=
    attempts_started
      (run (_request_with_retry self client method url params json content
              extra_headers)).2 in
  (forall k, (k < MAX_RETRIES)%nat ->
     (forall i, (i < k)%nat -> retryable i = true) ->
     (k < started)%nat) /\
  (forall k, (k < MAX_RETRIES)%nat ->
     (forall i, (i < k)%nat -> retryable i = true) ->
     retryable k = false ->
     started = S k /\
     result = attempt_outcome self client method url params json content
                extra_headers k) /\
  (forall k token resp, (k < MAX_RETRIES)%nat ->
     (forall i, (i < k)%nat -> retryable i = true) ->
     Credentials._get_access_token self k = Ret token ->
     AsyncClient.request client k
       (build_request method url params json content extra_headers token)
       = Ret resp ->
     Response.status_code resp ∉ RETRYABLE_STATUS_CODES ->
     ~ (200 <= Response.status_code resp <= 299) ->
     started = S k /\
     result = Raise (HTTPStatusError (Response.status_code resp))) /\
  ((forall i, (i < MAX_RETRIES)%nat -> retryable i = true) ->
   started = MAX_RETRIES /\
   result = Raise (attempt_failure self client method url params json content
                     extra_headers (MAX_RETRIES - 1)) /\
   match attempt_response self client method url params json content
           extra_headers (MAX_RETRIES - 1) with
   | Some resp =>
       result = Raise (GooglePhotosError
                         ("API returned "
                            +:+ pretty (Response.status_code resp))
                         (Some (Response.status_code resp))
                         (Some (Response.text resp)))
   | None =>
       exists exc, is_HTTPError exc = true /\ result = Raise exc
   end).
Proof.
  intros retryable result started. subst retryable result started.
  split; [|split; [|split]].
  - intros k Hk Hretry. by apply wrapper_retries_while_left.
  - intros k Hk Hretry Hfinal.
    destruct (wrapper_decided_at self client method url params json content
                extra_headers k Hk Hretry Hfinal) as [-> ->]. done.
  - intros k token resp Hk Hretry Htok Hreq Hstatus Hnot2xx.
    assert (retryable_attempt self client method url params json content
              extra_headers k = false) as Hfinal.
    { unfold retryable_attempt. rewrite Htok, Hreq.
      unfold retryable_status. by apply bool_decide_eq_false_2. }
    destruct (wrapper_decided_at self client method url params json content
                extra_headers k Hk Hretry Hfinal) as [-> ->].
    split; [done|]. unfold attempt_outcome. rewrite Htok, Hreq.
    unfold raise_for_status.
    destruct ((200 <=? Response.status_code resp)
              && (Response.status_code resp <=? 299)) eqn:H2xx; [|done].
    apply andb_true_iff in H2xx as [?%Z.leb_le ?%Z.leb_le]. lia.
  - intros Hretry.
    destruct (wrapper_exhausted self client method url params json content
                extra_headers Hretry) as (-> & -> & _).
    split; [done|]. split; [done|].
    specialize (Hretry (MAX_RETRIES - 1)%nat ltac:(unfold MAX_RETRIES; lia)).
    unfold retryable_attempt in Hretry.
    unfold attempt_response, attempt_failure.
    destruct (Credentials._get_access_token self (MAX_RETRIES - 1))
      as [token|e]; [|done].
    destruct (AsyncClient.request client (MAX_RETRIES - 1) _) as [resp|e].
    + reflexivity.
    + exists e. done.
Qed.

Lemma retry_policy_raises_last_failure_witness :
  (forall i, (i < MAX_RETRIES)%nat ->
     retryable_attempt Scenarios.fresh_token Scenarios.unavailable_then_down
       "GET" "https://photoslibrary.googleapis.com/v1/albums"
       None None None None i = true) /\
  (run (Scenarios.get_albums Scenarios.unavailable_then_down)).1
  = Raise (HTTPError "down").
Proof.
  assert (forall i, (i < MAX_RETRIES)%nat ->
            retryable_attempt Scenarios.fresh_token
              Scenarios.unavailable_then_down "GET"
              "https://photoslibrary.googleapis.com/v1/albums"
              None None None None i = true) as Hretry.
  { intros [|i] _; reflexivity. }
  split; [exact Hretry|].
  destruct (retry_policy_raises_last_failure Scenarios.fresh_token
              Scenarios.unavailable_then_down "GET"
              "https://photoslibrary.googleapis.com/v1/albums"
              None None None None) as (_ & _ & _ & H).
  destruct (H Hretry) as (_ & Hlast & _). exact Hlast.
Defined.

(** Exhaustion as the spec words it does not hold: a 503 followed by three
    transport errors ends in the transport error, although an HTTP
    response was obtained. *)
Lemma exhaustion_as_claimed_fails :
  ~ (forall self client method url params json content extra_headers,
       exhaustion_as_claimed self client method url params json content
         extra_headers).
Proof.
  intros H.
  specialize (H Scenarios.fresh_token Scenarios.unavailable_then_down "GET"
                "https://photoslibrary.googleapis.com/v1/albums"
                None None None None).
  unfold exhaustion_as_claimed in H.
  destruct H as [msg H].
  - intros [|i] _; reflexivity.
  - vm_compute in H. discriminate H.
Qed.
End RetryPolicyClaim.

(** ** The orchestrator *)

Section HandlerFacts.
Import Telegram Handlers.

(** The rename step on an open store: it always returns, touches no
    marker, stores the title, and drops the album cached under a stored
    title that is non-empty and differs. *)
Lemma detect_rename_opened c t conn :
  exists conn1 pre,
    detect_rename c t (Database.opened conn)
      = (Ret tt, Database.opened conn1, pre) /\
    Database.processed_messages conn1 = Database.processed_messages conn /\
    Database.chat_titles conn1 = <[c := t]> (Database.chat_titles conn) /\
    Database.album_cache conn1 =
      match Database.chat_titles conn !! c with
      | Some stored =>
          if truthy stored && negb (String.eqb stored t)
          then delete stored (Database.album_cache conn)
          else Database.album_cache conn
      | None => Database.album_cache conn
      end /\
    forallb bookkeeping pre = true.
Proof.
  unfold detect_rename, bind, db_read, db_write, Database.get_chat_title,
    Database.delete_album_cache, Database.set_chat_title. simpl.
  destruct (Database.chat_titles conn !! c) as [stored|]; simpl.
  - destruct (truthy stored && negb (stored =? t)%string); simpl;
      eexists _, _; (split; [reflexivity|]); simpl; done.
  - eexists _, _. split; [reflexivity|]. simpl. done.
Qed.

(** Album resolution and upload on an open store, case by case. *)
Lemma resolve_and_upload_opened client t content conn :
  resolve_and_upload client t content (Database.opened conn) =
  let upload :=
    GooglePhotos.Client.upload_media client (Media.data content)
      (Media.filename content) (Media.mime_type content) in
  let uploaded album_id :=
    UploadMedia (Media.data content) (Media.filename content)
      (Media.mime_type content) album_id (upload album_id) in
  if truthy_opt (Database.album_cache conn !! t) then
    let album_id := default EmptyString (Database.album_cache conn !! t) in
    (upload album_id, Database.opened conn, [uploaded album_id])
  else
    match GooglePhotos.Client.get_or_create_album client t with
    | Raise exc =>
        (Raise exc, Database.opened conn, [GetOrCreateAlbum t (Raise exc)])
    | Ret album_id =>
        (upload album_id,
         Database.opened
           (Database.mkTables (Database.processed_messages conn)
              (<[t := album_id]> (Database.album_cache conn))
              (Database.chat_titles conn)),
         [GetOrCreateAlbum t (Ret album_id); SetAlbumId t album_id;
          uploaded album_id])
    end.
Proof.
  unfold resolve_and_upload, bind, db_read, db_write, call_client, ret,
    Database.get_album_id, Database.set_album_id. simpl.
  destruct (truthy_opt (Database.album_cache conn !! t)); simpl.
  - reflexivity.
  - destruct (GooglePhotos.Client.get_or_create_album client t); reflexivity.
Qed.

(** An accepted, unprocessed event on an open store: the steps 4 to 8. *)
Lemma handle_media_accepted update context message chat client cfg conn :
  accepted update context message chat client cfg ->
  (Chat.id chat, Message.id message) ∉ Database.processed_messages conn ->
  handle_media update context (Database.opened conn) =
  let c := Chat.id chat in
  let m := Message.id message in
  let t := effective_title chat in
  let '(_, store1, pre) := detect_rename c t (Database.opened conn) in
  let '(dl, tevs) := run (Media.download_media (bot context) message) in
  let fetched := map Transfer tevs ++ [DownloadMedia dl] in
  match dl with
  | Ret (Some content) =>
      let '(up, store2, uevs) :=
        resolve_and_upload client t content store1 in
      match up with
      | Ret _ =>
          (Ret tt, (Database.mark_processed c m store2).2,
           pre ++ fetched ++ uevs ++ [MarkProcessed c m])
      | Raise _ => (Ret tt, store2, pre ++ fetched ++ uevs ++ [])
      end
  | _ => (Ret tt, store1, pre ++ fetched ++ [])
  end.
Proof.
  intros [Hm Hc Hg Hdb Hcl Hcfg Hal] Hnew.
  unfold handle_media. rewrite Hm, Hc, Hg, Hdb, Hcl, Hcfg, Hal.
  cbv beta iota zeta. cbn [negb].
  unfold bind at 1. unfold db_read at 1. unfold Database.is_processed.
  cbn [Database._require_conn Database.opened Database._conn].
  rewrite bool_decide_eq_false_2 by done.
  cbv beta iota zeta.
  destruct (detect_rename_opened (Chat.id chat) (effective_title chat) conn)
    as (conn1 & pre & Hdr & _).
  rewrite Hdr. unfold detect_rename in Hdr.
  unfold bind at 1. rewrite Hdr.
  unfold bind at 1. unfold try at 1. unfold call_download.
  destruct (run (Media.download_media (bot context) message)) as [dl tevs].
  destruct dl as [[content|]|exc].
  - pose proof (resolve_and_upload_opened client (effective_title chat)
                  content conn1) as Hru.
    rewrite Hru. unfold resolve_and_upload in Hru.
    unfold bind at 1. unfold try at 1. rewrite Hru. cbv zeta.
    destruct (truthy_opt (Database.album_cache conn1 !! effective_title chat)).
    + destruct (GooglePhotos.Client.upload_media client _ _ _ _) as [[]|exc].
      * unfold db_write, Database.mark_processed. simpl.
        case_decide; reflexivity.
      * destruct (is_GooglePhotosError exc); reflexivity.
    + destruct (GooglePhotos.Client.get_or_create_album client _)
        as [album_id|exc].
      * destruct (GooglePhotos.Client.upload_media client _ _ _ _)
          as [[]|exc].
        -- unfold db_write, Database.mark_processed. simpl.
           case_decide; reflexivity.
        -- destruct (is_GooglePhotosError exc); reflexivity.
      * destruct (is_GooglePhotosError exc); reflexivity.
  - reflexivity.
  - destruct (is_FileTooLargeError exc); reflexivity.
Qed.
End HandlerFacts.

Section HandlerClaims.
Import Telegram Handlers.

Lemma marks_app l1 l2 : marks (l1 ++ l2) = marks l1 ++ marks l2.
Proof. apply omap_app. Qed.

Lemma transfers_app l1 l2 : transfers (l1 ++ l2) = transfers l1 ++ transfers l2.
Proof. apply omap_app. Qed.

Lemma album_lookups_app l1 l2 :
  album_lookups (l1 ++ l2) = album_lookups l1 ++ album_lookups l2.
Proof. apply omap_app. Qed.

(** The rename bookkeeping marks nothing, transfers nothing, looks no
    album up, and is no failure. *)
Lemma bookkeeping_quiet pre :
  forallb bookkeeping pre = true ->
  marks pre = [] /\ transfers pre = [] /\ album_lookups pre = [] /\
  existsb failed pre = false.
Proof.
  induction pre as [|ev pre IH]; [done|]. simpl.
  intros [Hev Hpre]%andb_true_iff. destruct (IH Hpre) as (? & ? & ? & ?).
  destruct ev; try discriminate Hev; done.
Qed.

(** So do the steps of the transfer. *)
Lemma transfer_quiet tevs :
  marks (map Transfer tevs) = [] /\
  transfers (map Transfer tevs) = tevs /\
  album_lookups (map Transfer tevs) = [] /\
  existsb failed (map Transfer tevs) = false.
Proof.
  induction tevs as [|ev tevs (? & ? & ? & ?)]; [done|].
  simpl. repeat split; try done. unfold transfers in *. simpl. congruence.
Qed.

(** An event turned away before the rename step changes nothing. *)
Lemma handle_media_rejected update context store :
  rejected update context store ->
  handle_media update context store = (Ret tt, store, []).
Proof.
  intros Hrej. unfold handle_media.
  destruct Hrej as [Hm | Hc | chat Hc Hg | chat cfg Hc Hcfg Hal
                   | message chat conn Hm Hc -> Hin].
  - rewrite Hm. reflexivity.
  - rewrite Hc. destruct (Update.message update); reflexivity.
  - rewrite Hc, Hg. destruct (Update.message update); reflexivity.
  - rewrite Hc, Hcfg. destruct (Update.message update); [|reflexivity].
    destruct (is_group chat); [|reflexivity]. simpl.
    destruct (db context); [|reflexivity].
    destruct (google_photos context); [|reflexivity].
    rewrite Hal. reflexivity.
  - rewrite Hm, Hc. destruct (is_group chat); [|reflexivity]. simpl.
    destruct (db context); [|reflexivity].
    destruct (google_photos context); [|reflexivity].
    destruct (config context) as [cfg|]; [|reflexivity].
    destruct (not_allowed cfg (Chat.id chat)); [reflexivity|].
    unfold bind, db_read, Database.is_processed. simpl.
    rewrite bool_decide_eq_true_2 by done. reflexivity.
Qed.

(** Every run either marks nothing and leaves the markers as they were,
    or ends with a successful upload followed by the one mark. *)
Lemma handle_media_outcome update context store :
  let '(r, store', evs) := handle_media update context store in
  (marks evs = [] /\ processed store' = processed store /\
   (r = Ret tt \/ evs = []))
  \/ (exists pre file_bytes filename mime_type album_id message chat,
        Update.message update = Some message /\
        Update.effective_chat update = Some chat /\
        evs = pre ++ [UploadMedia file_bytes filename mime_type album_id
                        (Ret tt);
                      MarkProcessed (Chat.id chat) (Message.id message)] /\
        marks pre = [] /\ existsb failed evs = false /\ r = Ret tt /\
        processed store'
          = {[ (Chat.id chat, Message.id message) ]} ∪ processed store).
Proof.
  destruct (Update.message update) as [message|] eqn:Hm.
  2:{ rewrite handle_media_rejected by (by apply rejected_no_message).
      left. auto. }
  destruct (Update.effective_chat update) as [chat|] eqn:Hc.
  2:{ rewrite handle_media_rejected by (by apply rejected_no_chat).
      left. auto. }
  destruct (is_group chat) eqn:Hg.
  2:{ rewrite handle_media_rejected by (by eapply rejected_not_group).
      left. auto. }
  destruct (db context) eqn:Hdb.
  2:{ unfold handle_media. rewrite Hm, Hc, Hg, Hdb. left. simpl. auto. }
  destruct (google_photos context) as [client|] eqn:Hcl.
  2:{ unfold handle_media. rewrite Hm, Hc, Hg, Hdb, Hcl. left. simpl. auto. }
  destruct (config context) as [cfg|] eqn:Hcfg.
  2:{ unfold handle_media. rewrite Hm, Hc, Hg, Hdb, Hcl, Hcfg. left.
      simpl. auto. }
  destruct (not_allowed cfg (Chat.id chat)) eqn:Hal.
  { rewrite handle_media_rejected by (by eapply rejected_not_allowed).
    left. auto. }
  destruct store as [[conn|]].
  2:{ unfold handle_media. rewrite Hm, Hc, Hg, Hdb, Hcl, Hcfg, Hal.
      left. simpl. auto. }
  change (Database.mk (Some conn)) with (Database.opened conn).
  destruct (decide ((Chat.id chat, Message.id message)
                      ∈ Database.processed_messages conn)) as [Hin|Hnew].
  { rewrite handle_media_rejected by (by eapply rejected_processed).
    left. auto. }
  rewrite (handle_media_accepted update context message chat client cfg conn)
    by done.
  cbv zeta.
  destruct (detect_rename_opened (Chat.id chat) (effective_title chat) conn)
    as (conn1 & pre & -> & Hp1 & _ & _ & Hpre).
  destruct (bookkeeping_quiet pre Hpre) as (Hpm & _ & _ & Hpf).
  destruct (run (Media.download_media (bot context) message)) as [dl tevs].
  destruct (transfer_quiet tevs) as (Htm & _ & _ & Htf).
  destruct dl as [[content|]|exc].
  - rewrite resolve_and_upload_opened. cbv zeta.
    destruct (truthy_opt (Database.album_cache conn1 !! effective_title chat)).
    + destruct (GooglePhotos.Client.upload_media client _ _ _ _) as [[]|exc].
      * right.
        eexists (pre ++ map Transfer tevs ++ [DownloadMedia _]), _, _, _, _,
          message, chat.
        split; [done|]. split; [done|]. split.
        { rewrite <- !app_assoc. reflexivity. }
        split; [by rewrite !marks_app, Hpm, Htm|].
        split; [by rewrite !existsb_app, Hpf, Htf|].
        split; [done|].
        unfold Database.mark_processed. simpl.
        rewrite decide_False by (by rewrite Hp1). simpl. by rewrite Hp1.
      * left. rewrite !marks_app, Hpm, Htm. simpl. auto.
    + destruct (GooglePhotos.Client.get_or_create_album client _)
        as [album_id|exc].
      * destruct (GooglePhotos.Client.upload_media client _ _ _ _)
          as [[]|exc].
        -- right.
           eexists (pre ++ map Transfer tevs ++ [DownloadMedia _]
                      ++ [GetOrCreateAlbum _ _; SetAlbumId _ _]),
             _, _, _, _, message, chat.
           split; [done|]. split; [done|]. split.
           { rewrite <- !app_assoc. reflexivity. }
           split; [by rewrite !marks_app, Hpm, Htm|].
           split; [by rewrite !existsb_app, Hpf, Htf|].
           split; [done|].
           unfold Database.mark_processed. simpl.
           rewrite decide_False by (by rewrite Hp1). simpl. by rewrite Hp1.
        -- left. rewrite !marks_app, Hpm, Htm. simpl. auto.
      * left. rewrite !marks_app, Hpm, Htm. simpl. auto.
  - left. rewrite !marks_app, Hpm, Htm. simpl. auto.
  - left. rewrite !marks_app, Hpm, Htm. simpl. auto.
Qed.
End HandlerClaims.

Section CallFacts.
Import Telegram Handlers Calls.

Lemma downloads_app l1 l2 : downloads (l1 ++ l2) = downloads l1 ++ downloads l2.
Proof. apply omap_app. Qed.

Lemma uploads_app l1 l2 : uploads (l1 ++ l2) = uploads l1 ++ uploads l2.
Proof. apply omap_app. Qed.

(** The rename bookkeeping downloads and uploads nothing; nor do the steps
    of the transfer. *)
Lemma bookkeeping_calls pre :
  forallb bookkeeping pre = true -> downloads pre = [] /\ uploads pre = [].
Proof.
  induction pre as [|ev pre IH]; [done|]. simpl.
  intros [Hev Hpre]%andb_true_iff. destruct (IH Hpre) as (? & ?).
  destruct ev; try discriminate Hev; done.
Qed.

Lemma transfer_calls tevs :
  downloads (map Transfer tevs) = [] /\ uploads (map Transfer tevs) = [].
Proof. induction tevs as [|ev tevs (? & ?)]; done. Qed.
End CallFacts.

Section OrchestratorClaims.
Import Telegram Handlers.

(** C10. An event that is turned away before the rename step (no
    message, no chat, a chat that is not a group, an allow-list that
    does not hold the group, or a pair (chat id, message id) that is
    already marked) makes [handle_media] return at once: no call is
    made and the store, all three tables, is the one it was. *)
Theorem rejected_event_leaves_store_unchanged update context store :
  rejected update context store ->
  handle_media update context store = (Ret tt, store, []).
Proof. apply handle_media_rejected. Qed.

Lemma rejected_event_leaves_store_unchanged_witness :
  rejected (Scenarios.photo_event (-100) 1 "Test Group" (Some 5000))
    (Scenarios.context "album_1")
    (Database.opened Scenarios.delivered_tables) /\
  handle_media (Scenarios.photo_event (-100) 1 "Test Group" (Some 5000))
    (Scenarios.context "album_1")
    (Database.opened Scenarios.delivered_tables)
  = (Ret tt, Database.opened Scenarios.delivered_tables, []).
Proof.
  assert (rejected (Scenarios.photo_event (-100) 1 "Test Group" (Some 5000))
            (Scenarios.context "album_1")
            (Database.opened Scenarios.delivered_tables)) as Hrej.
  { eapply rejected_processed; [reflexivity | reflexivity | reflexivity |].
    simpl. apply elem_of_singleton. reflexivity. }
  split; [exact Hrej|].
  exact (rejected_event_leaves_store_unchanged _ _ _ Hrej).
Defined.

(** C1. In every run of [handle_media]: a chat that is not a group and
    an allow-list rejection return without a mark and with the store
    untouched; a failed collaborator call (the fetch raised, a size-limit
    error included, or found no media, the album resolution raised, the
    upload raised) makes it return without a mark and with the markers
    as they were; without a [mark_processed] call the markers do not
    change; and a [mark_processed] call is the last call of the run,
    comes right after an [upload_media] that returned, is the only one,
    and no collaborator call failed before it. *)
Theorem mark_processed_only_after_successful_upload update context store :
  let '(r, store', evs) := handle_media update context store in
  (forall chat,
     Update.effective_chat update = Some chat -> is_group chat = false ->
     r = Ret tt /\ marks evs = [] /\ store' = store) /\
  (forall chat cfg,
     Update.effective_chat update = Some chat ->
     config context = Some cfg -> not_allowed cfg (Chat.id chat) = true ->
     r = Ret tt /\ marks evs = [] /\ store' = store) /\
  (existsb failed evs = true ->
   r = Ret tt /\ marks evs = [] /\ processed store' = processed store) /\
  (marks evs = [] -> processed store' = processed store) /\
  (forall c m,
     (c, m) ∈ marks evs ->
     exists pre file_bytes filename mime_type album_id,
       evs = pre ++ [UploadMedia file_bytes filename mime_type album_id
                       (Ret tt);
                     MarkProcessed c m] /\
       marks pre = [] /\ existsb failed evs = false).
Proof.
  pose proof (handle_media_outcome update context store) as Hout.
  pose proof (handle_media_rejected update context store) as Hrej.
  destruct (handle_media update context store) as [[r store'] evs].
  split; [|split; [|split; [|split]]].
  - intros chat Hc Hg.
    specialize (Hrej (rejected_not_group _ _ _ chat Hc Hg)).
    by injection Hrej as -> -> ->.
  - intros chat cfg Hc Hcfg Hal.
    specialize (Hrej (rejected_not_allowed _ _ _ chat cfg Hc Hcfg Hal)).
    by injection Hrej as -> -> ->.
  - intros Hfail.
    destruct Hout as [(Hm & Hp & [Hr | ->]) | Hok]; [done | done |].
    destruct Hok as (? & ? & ? & ? & ? & ? & ? & _ & _ & _ & _ & Hnf & _).
    congruence.
  - intros Hnone.
    destruct Hout as [(_ & Hp & _) | Hok]; [done|].
    destruct Hok as (pre & ? & ? & ? & ? & ? & ? & _ & _ & -> & Hpm & _).
    rewrite marks_app, Hpm in Hnone. discriminate Hnone.
  - intros c m Hin.
    destruct Hout as [(Hm & _) | Hok].
    { rewrite Hm in Hin. by apply elem_of_nil in Hin. }
    destruct Hok as (pre & fb & fn & mt & aid & message & chat
                     & _ & _ & -> & Hpm & Hnf & _).
    rewrite marks_app, Hpm in Hin. simpl in Hin.
    apply list_elem_of_singleton in Hin. injection Hin as -> ->.
    eauto 10.
Qed.
End OrchestratorClaims.

Section RenameAndOversize.
Import Telegram Handlers.

Lemma truthy_strip s : truthy (strip s) = true -> truthy s = true.
Proof. destruct s; [done | reflexivity]. Qed.

(** A reported title that is not blank is the effective title. *)
Lemma effective_title_reported chat title :
  Chat.title chat = Some title -> truthy (strip title) = true ->
  effective_title chat = title.
Proof.
  intros Ht Hs. unfold effective_title, str_or. rewrite Ht.
  rewrite (truthy_strip _ Hs). by rewrite Hs.
Qed.

Lemma eqb_ne (a b : string) : a <> b -> (a =? b)%string = false.
Proof. intros H. by apply String.eqb_neq. Qed.

(** C3, amended.  A group whose stored title [old] is not empty posts
    under the reported, non-blank title [new], different from [old]; the
    event passes the gates and is not marked yet.  Then the album cache
    holds nothing under [old] afterwards and [new] is the stored title.
    When the fetch yields media: with nothing cached under [new], the
    remote lookup/create is called exactly once, with [new], and the id
    it returns is cached under [new]; with an id already cached under
    [new], no lookup is made, that entry stays, and the cached id is the
    one used: the media of the event is uploaded into the album of that
    id. *)
Theorem rename_drops_old_album_and_resolves_new
  update context message chat client cfg conn old new :
  accepted update context message chat client cfg ->
  (Chat.id chat, Message.id message) ∉ Database.processed_messages conn ->
  Chat.title chat = Some new -> truthy (strip new) = true ->
  Database.chat_titles conn !! Chat.id chat = Some old ->
  truthy old = true -> old <> new ->
  let '(r, store', evs) :=
    handle_media update context (Database.opened conn) in
  exists conn',
    store' = Database.opened conn' /\
    Database.album_cache conn' !! old = None /\
    Database.chat_titles conn' !! Chat.id chat = Some new /\
    (forall content tevs,
       run (Media.download_media (bot context) message)
         = (Ret (Some content), tevs) ->
       (Database.album_cache conn !! new = None ->
        album_lookups evs = [new] /\
        forall album_new,
          GooglePhotos.Client.get_or_create_album client new = Ret album_new ->
          Database.album_cache conn' !! new = Some album_new) /\
       (truthy_opt (Database.album_cache conn !! new) = true ->
        album_lookups evs = [] /\
        Database.album_cache conn' !! new
          = Database.album_cache conn !! new /\
        exists album_id,
          Database.album_cache conn !! new = Some album_id /\
          Calls.uploads evs
            = [(Media.data content, Media.filename content,
                Media.mime_type content, album_id)])).
Proof.
  intros Hacc Hnew Htitle Hblank Hstored Hold Hne.
  rewrite (handle_media_accepted update context message chat client cfg conn)
    by done.
  cbv zeta. rewrite (effective_title_reported chat new Htitle Hblank).
  destruct (detect_rename_opened (Chat.id chat) new conn)
    as (conn1 & pre & -> & Hp1 & Ht1 & Hc1 & Hpre).
  rewrite Hstored, Hold, (eqb_ne _ _ Hne) in Hc1. simpl in Hc1.
  destruct (bookkeeping_quiet pre Hpre) as (_ & _ & Hpl & _).
  destruct (bookkeeping_calls pre Hpre) as (_ & Hpu).
  destruct (run (Media.download_media (bot context) message)) as [dl tevs].
  destruct (transfer_quiet tevs) as (_ & _ & Htl & _).
  destruct (transfer_calls tevs) as (_ & Htu).
  assert (Database.album_cache conn1 !! old = None) as Hgone.
  { rewrite Hc1. apply lookup_delete_eq. }
  assert (Database.album_cache conn1 !! new
          = Database.album_cache conn !! new) as Hsame.
  { rewrite Hc1. by apply lookup_delete_ne. }
  assert (Database.chat_titles conn1 !! Chat.id chat = Some new) as Hnow.
  { rewrite Ht1. apply lookup_insert_eq. }
  destruct dl as [[content|]|exc].
  - rewrite resolve_and_upload_opened. cbv zeta. rewrite Hsame.
    destruct (truthy_opt (Database.album_cache conn !! new)) eqn:Hhit.
    + destruct (Database.album_cache conn !! new) as [cached|] eqn:Hcached;
        [|discriminate Hhit].
      destruct (GooglePhotos.Client.upload_media client _ _ _ _) as [[]|exc].
      * unfold Database.mark_processed. simpl.
        rewrite decide_False by (by rewrite Hp1). simpl.
        eexists. split; [reflexivity|]. simpl.
        split; [done|]. split; [done|].
        intros content' tevs' [= <- <-]. split; [done|].
        intros _. rewrite !album_lookups_app, Hpl, Htl.
        split; [done|]. split; [done|]. exists cached. split; [done|].
        unfold Calls.uploads in *. by rewrite !omap_app, Hpu, Htu.
      * exists conn1. split; [done|]. split; [done|]. split; [done|].
        intros content' tevs' [= <- <-]. split; [done|].
        intros _. rewrite !album_lookups_app, Hpl, Htl.
        split; [done|]. split; [done|]. exists cached. split; [done|].
        unfold Calls.uploads in *. by rewrite !omap_app, Hpu, Htu.
    + destruct (GooglePhotos.Client.get_or_create_album client new)
        as [album_id|exc].
      * destruct (GooglePhotos.Client.upload_media client _ _ _ _)
          as [[]|exc].
        -- unfold Database.mark_processed. simpl.
           rewrite decide_False by (by rewrite Hp1). simpl.
           eexists. split; [reflexivity|]. simpl.
           split; [by rewrite lookup_insert_ne|]. split; [done|].
           intros content' tevs' [= <- <-]. split; [|congruence].
           intros _. rewrite !album_lookups_app, Hpl, Htl. split; [done|].
           intros album_new [= ->]. apply lookup_insert_eq.
        -- eexists. split; [reflexivity|]. simpl.
           split; [by rewrite lookup_insert_ne|]. split; [done|].
           intros content' tevs' [= <- <-]. split; [|congruence].
           intros _. rewrite !album_lookups_app, Hpl, Htl. split; [done|].
           intros album_new [= ->]. apply lookup_insert_eq.
      * exists conn1. split; [done|]. split; [done|]. split; [done|].
        intros content' tevs' [= <- <-]. split; [|congruence].
        intros _. rewrite !album_lookups_app, Hpl, Htl. split; [done|].
        intros album_new [=].
  - exists conn1. split; [done|]. split; [done|]. split; [done|].
    intros content' tevs' [=].
  - exists conn1. split; [done|]. split; [done|]. split; [done|].
    intros content' tevs' [=].
Qed.
End RenameAndOversize.

Section MoreOrchestratorClaims.
Import Telegram Handlers.

(** The rename scenario as the spec words it does not hold: when an album
    is already cached under "New", the rename drops the entry of "Old" and
    no remote lookup is made. *)
Lemma rename_as_claimed_fails : ~ rename_as_claimed.
Proof.
  intros H.
  destruct (H (Scenarios.photo_event (-100) 10 "New" (Some 5000))
              (Scenarios.context "album_new")
              (Scenarios.photo_message 10 (Some 5000))
              (Scenarios.supergroup (-100) "New")
              (Scenarios.photos "album_new") Scenarios.no_allow_list
              Scenarios.shared_tables Scenarios.downloaded_photo
              Scenarios.photo_transfer "album_old" "album_new")
    as (conn' & _ & _ & _ & Hlookups & _).
  - by constructor.
  - apply not_elem_of_empty.
  - reflexivity.
  - reflexivity.
  - reflexivity.
  - reflexivity.
  - reflexivity.
  - vm_compute in Hlookups. discriminate Hlookups.
Qed.

Lemma rename_drops_old_album_and_resolves_new_witness :
  let '(r, store', evs) :=
    handle_media (Scenarios.photo_event (-100) 10 "New" (Some 5000))
      (Scenarios.context "album_new")
      (Database.opened Scenarios.old_tables) in
  exists conn',
    store' = Database.opened conn' /\
    Database.album_cache conn' !! "Old" = None /\
    Database.chat_titles conn' !! (-100) = Some "New" /\
    album_lookups evs = ["New"] /\
    Database.album_cache conn' !! "New" = Some "album_new".
Proof.
  pose proof (rename_drops_old_album_and_resolves_new
                (Scenarios.photo_event (-100) 10 "New" (Some 5000))
                (Scenarios.context "album_new")
                (Scenarios.photo_message 10 (Some 5000))
                (Scenarios.supergroup (-100) "New")
                (Scenarios.photos "album_new") Scenarios.no_allow_list
                Scenarios.old_tables "Old" "New"
                ltac:(by constructor) ltac:(apply not_elem_of_empty)
                ltac:(reflexivity) ltac:(reflexivity) ltac:(reflexivity)
                ltac:(reflexivity) ltac:(discriminate)) as H.
  destruct (handle_media _ _ _) as [[r store'] evs].
  destruct H as (conn' & Hs & Hold & Hnew & H).
  destruct (H Scenarios.downloaded_photo Scenarios.photo_transfer
              ltac:(reflexivity)) as [Hmiss _].
  destruct (Hmiss ltac:(reflexivity)) as [Hl Hc].
  exists conn'. repeat split; try done. by apply Hc.
Defined.

(** C6. The ceilings are 200 MB for photos and 10 GB for videos and
    video notes.  For an attachment whose declared size exceeds the
    ceiling of its kind, the fetch raises the size-limit error with the
    kind's label, the declared size and the limit, without one call to
    Telegram: no transfer, no retry.  When the event had passed the
    gates, [handle_media] returns, the error being its last call: it is
    not retried, no album is looked up, nothing is uploaded, nothing is
    marked. *)
Theorem oversize_media_fails_before_transfer_and_is_not_marked :
  Media.PHOTO_MAX_BYTES = 200 * 2 ^ 20 /\
  Media.VIDEO_MAX_BYTES = 10 * 2 ^ 30 /\
  forall bot_ message label limit size,
  Media.declared message label limit size -> limit < size ->
  run (Media.download_media bot_ message)
    = (Raise (FileTooLargeError label size limit), []) /\
  forall update context chat client cfg conn,
    bot context = bot_ ->
    accepted update context message chat client cfg ->
    (Chat.id chat, Message.id message) ∉ Database.processed_messages conn ->
    let '(r, store', evs) :=
      handle_media update context (Database.opened conn) in
    r = Ret tt /\
    processed store' = Database.processed_messages conn /\
    marks evs = [] /\ transfers evs = [] /\ album_lookups evs = [] /\
    exists pre,
      forallb bookkeeping pre = true /\
      evs = pre ++ [DownloadMedia
                      (Raise (FileTooLargeError label size limit))].
Proof.
  split; [reflexivity|]. split; [reflexivity|].
  intros bot_ message label limit size Hdecl Hlt.
  pose proof (download_media_oversize bot_ message label limit size Hdecl Hlt)
    as Hdl.
  split; [exact Hdl|].
  intros update context chat client cfg conn Hbot Hacc Hnew.
  rewrite (handle_media_accepted update context message chat client cfg conn)
    by done.
  cbv zeta. rewrite Hbot, Hdl.
  destruct (detect_rename_opened (Chat.id chat) (effective_title chat) conn)
    as (conn1 & pre & -> & Hp1 & _ & _ & Hpre).
  destruct (bookkeeping_quiet pre Hpre) as (Hpm & Hpt & Hpl & _).
  simpl.
  split; [done|]. split; [done|].
  rewrite marks_app, transfers_app, album_lookups_app, Hpm, Hpt, Hpl.
  repeat split; try done. by exists pre.
Qed.

Lemma oversize_media_fails_before_transfer_and_is_not_marked_witness :
  let '(r, store', evs) :=
    handle_media
      (Scenarios.photo_event (-100) 8 "Test Group"
         (Some (Media.PHOTO_MAX_BYTES + 1)))
      (Scenarios.context "album_1")
      (Database.opened Scenarios.empty_tables) in
  r = Ret tt /\ processed store' = ∅ /\ marks evs = [] /\ transfers evs = [].
Proof.
  destruct oversize_media_fails_before_transfer_and_is_not_marked
    as (_ & _ & H).
  destruct (H Scenarios.reliable_bot
              (Scenarios.photo_message 8 (Some (Media.PHOTO_MAX_BYTES + 1)))
              "photo" Media.PHOTO_MAX_BYTES (Media.PHOTO_MAX_BYTES + 1)
              ltac:(by eapply Media.declared_photo) ltac:(lia))
    as [_ H'].
  clear H. rename H' into H.
  specialize (H (Scenarios.photo_event (-100) 8 "Test Group"
                   (Some (Media.PHOTO_MAX_BYTES + 1)))
                (Scenarios.context "album_1")
                (Scenarios.supergroup (-100) "Test Group")
                (Scenarios.photos "album_1") Scenarios.no_allow_list
                Scenarios.empty_tables ltac:(reflexivity)
                ltac:(by constructor) ltac:(apply not_elem_of_empty)).
  destruct (handle_media _ _ _) as [[r store'] evs].
  destruct H as (Hr & Hp & Hm & Ht & _). done.
Defined.

(** C7. The link query of a group that passes the gates, on an open
    store: it returns and the store is the one it was; with no album id
    cached under the effective title its only call is the reply "no
    album found", the remote product-URL call is not made; with an id
    cached, and the remote call returning a URL, it makes that call and
    replies with the URL. *)
Theorem link_query_reads_cache_only
  update context message chat client cfg conn :
  accepted update context message chat client cfg ->
  let '(r, store', evs) :=
    handle_link_command update context (Database.opened conn) in
  r = Ret tt /\ store' = Database.opened conn /\
  match Database.album_cache conn !! effective_title chat with
  | None => evs = [ReplyText NoAlbumFound]
  | Some album_id =>
      forall url,
        GooglePhotos.Client.get_album_product_url client album_id = Ret url ->
        evs = [GetAlbumProductUrl album_id (Ret url); ReplyText (AlbumUrl url)]
  end.
Proof.
  intros [Hm Hc Hg Hdb Hcl Hcfg Hal].
  unfold handle_link_command. rewrite Hm, Hc, Hg, Hdb, Hcl, Hcfg, Hal. simpl.
  unfold bind, db_read, Database.get_album_id, try, call_client, emit. simpl.
  destruct (Database.album_cache conn !! effective_title chat) as [album_id|].
  - destruct (GooglePhotos.Client.get_album_product_url client album_id)
      as [url|exc]; simpl.
    + repeat split. by intros ? [= ->].
    + repeat split. intros ? [=].
  - done.
Qed.

Lemma link_query_reads_cache_only_witness :
  handle_link_command
    (Scenarios.photo_event (-100) 1 "Empty Group" (Some 5000))
    (Scenarios.context "album_1") (Database.opened Scenarios.empty_tables)
  = (Ret tt, Database.opened Scenarios.empty_tables,
     [ReplyText NoAlbumFound]).
Proof.
  pose proof (link_query_reads_cache_only
                (Scenarios.photo_event (-100) 1 "Empty Group" (Some 5000))
                (Scenarios.context "album_1")
                (Scenarios.photo_message 1 (Some 5000))
                (Scenarios.supergroup (-100) "Empty Group")
                (Scenarios.photos "album_1") Scenarios.no_allow_list
                Scenarios.empty_tables ltac:(by constructor)) as H.
  destruct (handle_link_command _ _ _) as [[r store'] evs].
  destruct H as (-> & -> & H). change (evs = [ReplyText NoAlbumFound]) in H.
  by rewrite H.
Defined.

Lemma mark_processed_only_after_successful_upload_witness :
  let '(r, store', evs) :=
    handle_media (Scenarios.photo_event (-100) 7 "Test Group" (Some 5000))
      (Handlers.mkContext Scenarios.reliable_bot true
         (Some Scenarios.failing_upload) (Some Scenarios.no_allow_list))
      (Database.opened Scenarios.empty_tables) in
  existsb failed evs = true /\
  r = Ret tt /\ marks evs = [] /\ processed store' = ∅.
Proof.
  pose proof (mark_processed_only_after_successful_upload
                (Scenarios.photo_event (-100) 7 "Test Group" (Some 5000))
                (Handlers.mkContext Scenarios.reliable_bot true
                   (Some Scenarios.failing_upload)
                   (Some Scenarios.no_allow_list))
                (Database.opened Scenarios.empty_tables)) as H.
  destruct (handle_media _ _ _) as [[r store'] evs] eqn:E.
  vm_compute in E. injection E as <- <- <-.
  destruct H as (_ & _ & H & _).
  split; [reflexivity|]. apply H. reflexivity.
Defined.
End MoreOrchestratorClaims.

(** * More of the code *)

(** ** The store: the other operations *)

Section StoreFacts.
Import Database.

(** X1. Marking one pair changes the answer of [is_processed] for no other
    pair, and leaves the album cache and the chat titles as they were. *)
Theorem mark_processed_touches_one_marker (g m g' m' : Z) (conn : Tables) :
  exists conn',
    mark_processed g m (opened conn) = (Ret tt, opened conn') /\
    album_cache conn' = album_cache conn /\
    chat_titles conn' = chat_titles conn /\
    ((g', m') <> (g, m) ->
     (is_processed g' m' (opened conn')).1
     = (is_processed g' m' (opened conn)).1).
Proof.
  unfold mark_processed, is_processed. simpl.
  destruct (decide ((g, m) ∈ processed_messages conn)) as [Hin|Hnin].
  - exists conn. done.
  - eexists. split; [reflexivity|]. simpl. split; [done|]. split; [done|].
    intros Hne. f_equal. apply bool_decide_ext. set_solver.
Qed.

Lemma mark_processed_touches_one_marker_witness :
  (222, 1) <> (111, 1) /\
  (is_processed 222 1
     (mark_processed 111 1 (opened Scenarios.empty_tables)).2).1
  = Ret false.
Proof.
  split; [discriminate|].
  destruct (mark_processed_touches_one_marker 111 1 222 1
              Scenarios.empty_tables) as (conn' & Hrun & _ & _ & Hother).
  rewrite Hrun. simpl snd. rewrite Hother by discriminate. reflexivity.
Defined.

(** X2. [set_album_id] then [get_album_id] under the same title gives the
    id back; the entries of other titles, the markers and the chat titles
    are untouched; and a second [set_album_id] under the title replaces
    the first: the store is the one the second call alone would leave. *)
Theorem set_album_id_overwrites (title other a a2 : string) (conn : Tables) :
  exists conn1,
    set_album_id title a (opened conn) = (Ret tt, opened conn1) /\
    get_album_id title (opened conn1) = (Ret (Some a), opened conn1) /\
    (other <> title ->
     album_cache conn1 !! other = album_cache conn !! other) /\
    processed_messages conn1 = processed_messages conn /\
    chat_titles conn1 = chat_titles conn /\
    set_album_id title a2 (opened conn1) = set_album_id title a2 (opened conn).
Proof.
  unfold set_album_id, get_album_id. simpl. eexists.
  split; [reflexivity|]. simpl.
  split; [by rewrite lookup_insert_eq|].
  split; [by intros Hne; apply lookup_insert_ne|].
  split; [done|]. split; [done|].
  by rewrite insert_insert_eq.
Qed.

Lemma set_album_id_overwrites_witness :
  "Other" <> "My Group" /\
  album_cache Scenarios.old_tables !! "Other" = None /\
  (get_album_id "Other"
     (set_album_id "My Group" "album_new"
        (opened Scenarios.old_tables)).2).1 = Ret None.
Proof.
  split; [discriminate|]. split; [reflexivity|].
  destruct (set_album_id_overwrites "My Group" "Other" "album_new" "x"
              Scenarios.old_tables) as (conn1 & Hrun & _ & H & _).
  rewrite Hrun. unfold get_album_id. simpl.
  rewrite H by discriminate. reflexivity.
Defined.

(** X3. After [delete_album_cache] the title has no cached album; the
    entries of other titles, the markers and the chat titles are
    untouched; and deleting a title that has no entry returns without an
    error and leaves the store exactly as it was. *)
Theorem delete_album_cache_removes_one_entry (title other : string)
  (conn : Tables) :
  exists conn1,
    delete_album_cache title (opened conn) = (Ret tt, opened conn1) /\
    get_album_id title (opened conn1) = (Ret None, opened conn1) /\
    (other <> title ->
     album_cache conn1 !! other = album_cache conn !! other) /\
    processed_messages conn1 = processed_messages conn /\
    chat_titles conn1 = chat_titles conn /\
    (album_cache conn !! title = None -> conn1 = conn).
Proof.
  unfold delete_album_cache, get_album_id. simpl. eexists.
  split; [reflexivity|]. simpl.
  split; [by rewrite lookup_delete_eq|].
  split; [by intros Hne; apply lookup_delete_ne|].
  split; [done|]. split; [done|].
  intros Hnone. destruct conn as [p c t]. simpl in *.
  by rewrite delete_id.
Qed.

Lemma delete_album_cache_removes_one_entry_witness :
  album_cache Scenarios.old_tables !! "nonexistent" = None /\
  delete_album_cache "nonexistent" (opened Scenarios.old_tables)
  = (Ret tt, opened Scenarios.old_tables).
Proof.
  split; [reflexivity|].
  destruct (delete_album_cache_removes_one_entry "nonexistent" "Old"
              Scenarios.old_tables) as (conn1 & Hrun & _ & _ & _ & _ & H).
  rewrite Hrun, (H eq_refl). reflexivity.
Defined.

(** X4. [set_chat_title] then [get_chat_title] for the same chat gives the
    title back; the titles of other chats, the markers and the album cache
    are untouched; and a second [set_chat_title] for the chat replaces the
    first. *)
Theorem set_chat_title_overwrites (chat other : Z) (t1 t2 : string)
  (conn : Tables) :
  exists conn1,
    set_chat_title chat t1 (opened conn) = (Ret tt, opened conn1) /\
    get_chat_title chat (opened conn1) = (Ret (Some t1), opened conn1) /\
    (other <> chat ->
     chat_titles conn1 !! other = chat_titles conn !! other) /\
    processed_messages conn1 = processed_messages conn /\
    album_cache conn1 = album_cache conn /\
    set_chat_title chat t2 (opened conn1) = set_chat_title chat t2 (opened conn).
Proof.
  unfold set_chat_title, get_chat_title. simpl. eexists.
  split; [reflexivity|]. simpl.
  split; [by rewrite lookup_insert_eq|].
  split; [by intros Hne; apply lookup_insert_ne|].
  split; [done|]. split; [done|].
  by rewrite insert_insert_eq.
Qed.

Lemma set_chat_title_overwrites_witness :
  222 <> 111 /\
  (get_chat_title 222
     (set_chat_title 111 "Chat A" (opened Scenarios.old_tables)).2).1
  = Ret None.
Proof.
  split; [discriminate|].
  destruct (set_chat_title_overwrites 111 222 "Chat A" "x"
              Scenarios.old_tables) as (conn1 & Hrun & _ & H & _).
  rewrite Hrun. unfold get_chat_title. simpl.
  rewrite H by discriminate. reflexivity.
Defined.

(** X5. Once the connection is gone, after [close()], each of the seven
    operations raises the [RuntimeError] of [_require_conn] and leaves the
    store as it is: none of them reopens it; and [close()] can be called
    again. *)
Theorem operations_need_an_open_connection (self : t) (g m : Z)
  (title album : string) :
  let not_open := RuntimeError "Database not open; call open() first" in
  let closed := close self in
  close closed = closed /\
  is_processed g m closed = (Raise not_open, closed) /\
  mark_processed g m closed = (Raise not_open, closed) /\
  get_album_id title closed = (Raise not_open, closed) /\
  set_album_id title album closed = (Raise not_open, closed) /\
  delete_album_cache title closed = (Raise not_open, closed) /\
  get_chat_title g closed = (Raise not_open, closed) /\
  set_chat_title g title closed = (Raise not_open, closed).
Proof.
  unfold close, is_processed, mark_processed, get_album_id, set_album_id,
    delete_album_cache, get_chat_title, set_chat_title, _require_conn.
  simpl. repeat split.
Qed.
End StoreFacts.

(** ** The download: file names, retries, dispatch *)

Section TransferFacts.
Import Telegram Media.

Lemma split_slash_clean s :
  Forall (fun piece => contains_sep piece = false)
    (split_slash (replace_backslash s)).
Proof.
  induction s as [|c s IH]; [by repeat constructor|].
  simpl. destruct (Ascii.eqb c "\") eqn:Hb.
  - simpl. by constructor.
  - destruct (Ascii.eqb c "/") eqn:Hs; [by constructor|].
    destruct (split_slash (replace_backslash s)) as [|seg rest].
    + repeat constructor. simpl. unfold is_sep. by rewrite Hs, Hb.
    + inversion IH as [|? ? Hseg Hrest]; subst. constructor; [|done].
      simpl. unfold is_sep. by rewrite Hs, Hb.
Qed.

Lemma split_slash_cons s : exists piece rest, split_slash s = piece :: rest.
Proof.
  induction s as [|c s (piece & rest & IH)]; simpl; [eauto|].
  destruct (Ascii.eqb c "/"); [eauto|]. rewrite IH. eauto.
Qed.

(** A trailing separator adds one empty piece at the end. *)
Lemma split_slash_snoc stem sep :
  is_sep sep = true ->
  split_slash (replace_backslash (stem +:+ String sep EmptyString))
  = split_slash (replace_backslash stem) ++ [EmptyString].
Proof.
  intros Hsep. induction stem as [|c stem IH]; simpl.
  - unfold is_sep in Hsep.
    destruct (Ascii.eqb sep "\") eqn:Hb; [done|].
    rewrite orb_false_r in Hsep. by rewrite Hsep.
  - destruct (Ascii.eqb (if Ascii.eqb c "\" then "/"%char else c) "/").
    + by rewrite IH.
    + rewrite IH.
      destruct (split_slash_cons (replace_backslash stem))
        as (piece & rest & ->). done.
Qed.

Lemma contains_sep_snoc stem sep :
  is_sep sep = true -> contains_sep (stem +:+ String sep EmptyString) = true.
Proof.
  intros Hsep. induction stem as [|c stem IH]; simpl; [by rewrite Hsep|].
  rewrite IH. by destruct (is_sep c).
Qed.

Lemma last_Forall {A} (P : A -> Prop) l d :
  P d -> Forall P l -> P (List.last l d).
Proof.
  intros Hd Hl. induction Hl as [|x l Hx Hl IH]; [done|].
  destruct l; [done|]. exact IH.
Qed.

Lemma safe_filename_cases (candidate fallback : string) :
  _safe_filename candidate fallback = fallback \/
  (truthy (_safe_filename candidate fallback) = true /\
   contains_sep (_safe_filename candidate fallback) = false).
Proof.
  unfold _safe_filename.
  destruct (truthy (strip candidate)) eqn:Hc; simpl; [|by left].
  destruct (contains_sep (strip candidate)) eqn:Hsep.
  - destruct (truthy (List.last _ _)) eqn:Hl; simpl; [|by left].
    right. split; [done|].
    apply (last_Forall (fun piece => contains_sep piece = false)); [done|].
    apply split_slash_clean.
  - rewrite Hc. simpl. by right.
Qed.

(** With a fallback that is itself a clean name, so is the result. *)
Lemma safe_filename_clean (candidate fallback : string) :
  truthy fallback = true -> contains_sep fallback = false ->
  truthy (_safe_filename candidate fallback) = true /\
  contains_sep (_safe_filename candidate fallback) = false.
Proof.
  intros Hf Hs. destruct (safe_filename_cases candidate fallback) as [->|H];
    done.
Qed.

(** X6. The name [_safe_filename] returns is the fallback, or else it is
    not empty and holds neither a slash nor a backslash; a candidate that
    is blank, or that ends in a separator, gives the fallback. *)
Theorem safe_filename_is_fallback_or_clean (candidate fallback : string) :
  (_safe_filename candidate fallback = fallback \/
   (truthy (_safe_filename candidate fallback) = true /\
    contains_sep (_safe_filename candidate fallback) = false)) /\
  (truthy (strip candidate) = false ->
   _safe_filename candidate fallback = fallback) /\
  (forall stem sep, is_sep sep = true ->
     strip candidate = stem +:+ String sep EmptyString ->
     _safe_filename candidate fallback = fallback).
Proof.
  split; [apply safe_filename_cases|]. split.
  - intros Hblank. unfold _safe_filename. by rewrite Hblank.
  - intros stem sep Hsep Hstrip. unfold _safe_filename. rewrite Hstrip.
    assert (truthy (stem +:+ String sep "") = true) as ->
      by (by destruct stem).
    rewrite (contains_sep_snoc stem sep Hsep).
    simpl. rewrite split_slash_snoc by done. by rewrite List.last_last.
Qed.

Lemma safe_filename_is_fallback_or_clean_witness :
  is_sep "/" = true /\
  strip "some/path/" = "some/path" +:+ String "/" EmptyString /\
  _safe_filename "some/path/" "fallback.jpg" = "fallback.jpg".
Proof.
  split; [reflexivity|]. split; [reflexivity|].
  destruct (safe_filename_is_fallback_or_clean "some/path/" "fallback.jpg")
    as (_ & _ & H).
  by apply (H "some/path" "/"%char).
Defined.

(** A failed attempt with attempts left: its calls, then the next one. *)
Lemma download_attempts_fail bot file_id rem i last exc :
  transfer_attempt bot file_id i = Raise exc ->
  exists evs,
    run (_download_attempts bot file_id (S rem) i last) =
    (let '(r, t) :=
       run (_download_attempts bot file_id rem (S i) (Some exc)) in
     (r, evs ++ t)) /\
    get_files evs = [file_id] /\
    sleeps evs = (if (0 <? i)%nat
                  then [RETRY_BASE_DELAY_SEC * 2 ^ (Z.of_nat i - 1)]
                  else []) /\
    Forall (fun ev => file_of ev = None \/ file_of ev = Some file_id) evs.
Proof.
  unfold transfer_attempt. intros Hfail.
  unfold run. simpl. unfold bind, try, emit, of_outcome, ret.
  destruct (Bot.get_file bot i file_id) as [tg_file|e] eqn:Hget.
  - destruct (File.download_as_bytearray tg_file) as [data|e] eqn:Hdl; [done|].
    injection Hfail as ->.
    destruct (0 <? i)%nat;
      destruct (_download_attempts bot file_id rem (S i) (Some exc) tt)
        as [[r []] t];
      [exists [Sleep (RETRY_BASE_DELAY_SEC * 2 ^ (Z.of_nat i - 1));
               GetFile file_id; DownloadAsBytearray file_id]
      |exists [GetFile file_id; DownloadAsBytearray file_id]];
      (split; [reflexivity|]); simpl;
      (split; [done|]); (split; [done|]);
      repeat (apply Forall_cons; split; [first [by left | by right]|]);
      by apply Forall_nil.
  - injection Hfail as ->.
    destruct (0 <? i)%nat;
      destruct (_download_attempts bot file_id rem (S i) (Some exc) tt)
        as [[r []] t];
      [exists [Sleep (RETRY_BASE_DELAY_SEC * 2 ^ (Z.of_nat i - 1));
               GetFile file_id]
      |exists [GetFile file_id]];
      (split; [reflexivity|]); simpl;
      (split; [done|]); (split; [done|]);
      repeat (apply Forall_cons; split; [first [by left | by right]|]);
      by apply Forall_nil.
Qed.

(** An attempt that goes through ends the loop. *)
Lemma download_attempts_ok bot file_id rem i last res :
  transfer_attempt bot file_id i = Ret res ->
  exists evs,
    run (_download_attempts bot file_id (S rem) i last) = (Ret res, evs) /\
    get_files evs = [file_id] /\
    sleeps evs = (if (0 <? i)%nat
                  then [RETRY_BASE_DELAY_SEC * 2 ^ (Z.of_nat i - 1)]
                  else []) /\
    Forall (fun ev => file_of ev = None \/ file_of ev = Some file_id) evs.
Proof.
  unfold transfer_attempt. intros Hok.
  unfold run. simpl. unfold bind, try, emit, of_outcome, ret.
  destruct (Bot.get_file bot i file_id) as [tg_file|e] eqn:Hget; [|done].
  destruct (File.download_as_bytearray tg_file) as [data|e] eqn:Hdl; [|done].
  injection Hok as <-.
  destruct (0 <? i)%nat; eexists; (split; [reflexivity|]); simpl;
    (split; [done|]); (split; [done|]);
    repeat (apply Forall_cons; split; [first [by left | by right]|]);
    by apply Forall_nil.
Qed.


(** X7. When the first [k] attempts of a download fail ([get_file] or the
    byte transfer raised) and attempt [k], one of the three, goes through,
    [_download_with_retry] returns the file handle and bytes of that
    attempt, after exactly [k + 1] calls of [get_file] and the waits 2 s,
    then 4 s, one before each retry and none before the first attempt. *)
Theorem download_returns_first_success bot file_id (k : nat) res :
  (k < MAX_DOWNLOAD_RETRIES)%nat ->
  (forall i, (i < k)%nat -> transfer_fails bot file_id i = true) ->
  transfer_attempt bot file_id k = Ret res ->
  (run (_download_with_retry bot file_id)).1 = Ret res /\
  get_files (run (_download_with_retry bot file_id)).2
    = replicate (S k) file_id /\
  sleeps (run (_download_with_retry bot file_id)).2 = take k [2; 4].
Proof.
  intros Hk Hfail Hok. unfold _download_with_retry, MAX_DOWNLOAD_RETRIES in *.
  assert (forall i, (i < k)%nat ->
            exists exc, transfer_attempt bot file_id i = Raise exc) as Hexc.
  { intros i Hi. specialize (Hfail i Hi). unfold transfer_fails in Hfail.
    destruct (transfer_attempt bot file_id i); [done | eauto]. }
  destruct k as [|[|[|k]]]; [| | |lia].
  - destruct (download_attempts_ok bot file_id 2 0 None res Hok)
      as (evs & -> & Hg & Hs & _). simpl. by rewrite Hg, Hs.
  - destruct (Hexc 0%nat ltac:(lia)) as [e0 H0].
    destruct (download_attempts_fail bot file_id 2 0 None e0 H0)
      as (evs0 & -> & Hg0 & Hs0 & _).
    destruct (download_attempts_ok bot file_id 1 1 (Some e0) res Hok)
      as (evs1 & -> & Hg1 & Hs1 & _).
    simpl. unfold get_files, sleeps in *. rewrite !omap_app.
    rewrite Hg0, Hs0, Hg1, Hs1. done.
  - destruct (Hexc 0%nat ltac:(lia)) as [e0 H0].
    destruct (Hexc 1%nat ltac:(lia)) as [e1 H1].
    destruct (download_attempts_fail bot file_id 2 0 None e0 H0)
      as (evs0 & -> & Hg0 & Hs0 & _).
    destruct (download_attempts_fail bot file_id 1 1 (Some e0) e1 H1)
      as (evs1 & -> & Hg1 & Hs1 & _).
    destruct (download_attempts_ok bot file_id 0 2 (Some e1) res Hok)
      as (evs2 & -> & Hg2 & Hs2 & _).
    simpl. unfold get_files, sleeps in *. rewrite !omap_app.
    rewrite Hg0, Hs0, Hg1, Hs1, Hg2, Hs2. done.
Qed.

Lemma download_returns_first_success_witness :
  transfer_attempt Scenarios.reliable_bot "photo_id" 0
    = Ret (Scenarios.tg_file, Scenarios.jpeg) /\
  (run (_download_with_retry Scenarios.reliable_bot "photo_id")).1
    = Ret (Scenarios.tg_file, Scenarios.jpeg).
Proof.
  split; [reflexivity|].
  apply (download_returns_first_success Scenarios.reliable_bot "photo_id" 0).
  - unfold MAX_DOWNLOAD_RETRIES. lia.
  - intros i Hi. lia.
  - reflexivity.
Defined.

(** X8. When all three attempts of a download fail, [_download_with_retry]
    raises what the last attempt raised, after exactly three calls of
    [get_file] and the waits 2 s and 4 s. *)
Theorem download_raises_last_failure bot file_id exc :
  (forall i, (i < MAX_DOWNLOAD_RETRIES)%nat ->
     transfer_fails bot file_id i = true) ->
  transfer_attempt bot file_id 2 = Raise exc ->
  (run (_download_with_retry bot file_id)).1 = Raise exc /\
  get_files (run (_download_with_retry bot file_id)).2
    = [file_id; file_id; file_id] /\
  sleeps (run (_download_with_retry bot file_id)).2 = [2; 4].
Proof.
  intros Hfail H2. unfold _download_with_retry, MAX_DOWNLOAD_RETRIES in *.
  assert (forall i, (i < 3)%nat ->
            exists e, transfer_attempt bot file_id i = Raise e) as Hexc.
  { intros i Hi. specialize (Hfail i Hi). unfold transfer_fails in Hfail.
    destruct (transfer_attempt bot file_id i); [done | eauto]. }
  destruct (Hexc 0%nat ltac:(lia)) as [e0 H0].
  destruct (Hexc 1%nat ltac:(lia)) as [e1 H1].
  destruct (download_attempts_fail bot file_id 2 0 None e0 H0)
    as (evs0 & -> & Hg0 & Hs0 & _).
  destruct (download_attempts_fail bot file_id 1 1 (Some e0) e1 H1)
    as (evs1 & -> & Hg1 & Hs1 & _).
  destruct (download_attempts_fail bot file_id 0 2 (Some e1) exc H2)
    as (evs2 & -> & Hg2 & Hs2 & _).
  simpl. unfold get_files, sleeps in *. rewrite !omap_app.
  rewrite Hg0, Hs0, Hg1, Hs1, Hg2, Hs2. done.
Qed.

Lemma download_raises_last_failure_witness :
  (forall i, (i < MAX_DOWNLOAD_RETRIES)%nat ->
     transfer_fails Cases.dead_bot "file_x" i = true) /\
  (run (_download_with_retry Cases.dead_bot "file_x")).1
  = Raise (OtherException "persistent failure").
Proof.
  assert (forall i, (i < MAX_DOWNLOAD_RETRIES)%nat ->
            transfer_fails Cases.dead_bot "file_x" i = true) as Hfail.
  { intros i _. reflexivity. }
  split; [exact Hfail|].
  apply (download_raises_last_failure Cases.dead_bot "file_x"); [exact Hfail|].
  reflexivity.
Defined.
End TransferFacts.

Section DispatchFacts.
Import Telegram Media.

(** The three downloaders, as runs: the size check, then the transfer,
    then the name and type of the content. *)
Lemma download_photo_run bot photo_sizes largest :
  last photo_sizes = Some largest ->
  run (_download_photo bot photo_sizes)
  = match _check_file_size (PhotoSize.file_size largest) PHOTO_MAX_BYTES
            "photo" with
    | Raise exc => (Raise exc, [])
    | Ret _ =>
        let '(r, t) :=
          run (_download_with_retry bot (PhotoSize.file_id largest)) in
        (match r with
         | Ret (tg_file, data) =>
             Ret (Some (mkContent data
                          (_safe_filename
                             (str_or (File.file_path tg_file) "photo.jpg")
                             "photo.jpg")
                          "image/jpeg"))
         | Raise exc => Raise exc
         end, t)
    end.
Proof.
  intros Hlast. unfold _download_photo. rewrite Hlast.
  unfold run, bind, of_outcome, ret.
  destruct (_check_file_size _ _ _); [|done].
  destruct (_download_with_retry bot _ tt) as [[[[tg_file data]|exc] []] t];
    simpl; by rewrite ?app_nil_r.
Qed.

Lemma download_video_run bot video :
  run (_download_video bot video)
  = match _check_file_size (Video.file_size video) VIDEO_MAX_BYTES
            "video" with
    | Raise exc => (Raise exc, [])
    | Ret _ =>
        let '(r, t) := run (_download_with_retry bot (Video.file_id video)) in
        (match r with
         | Ret (tg_file, data) =>
             Ret (Some (mkContent data
                          (match Video.file_name video with
                           | Some n =>
                               if truthy n then n
                               else _safe_filename
                                      (str_or (File.file_path tg_file)
                                         "video.mp4") "video.mp4"
                           | None =>
                               _safe_filename
                                 (str_or (File.file_path tg_file) "video.mp4")
                                 "video.mp4"
                           end)
                          (str_or (Video.mime_type video) "video/mp4")))
         | Raise exc => Raise exc
         end, t)
    end.
Proof.
  unfold _download_video. unfold run, bind, of_outcome, ret.
  destruct (_check_file_size _ _ _); [|done].
  destruct (_download_with_retry bot _ tt) as [[[[tg_file data]|exc] []] t];
    simpl; by rewrite ?app_nil_r.
Qed.

Lemma download_video_note_run bot video_note :
  run (_download_video_note bot video_note)
  = match _check_file_size (VideoNote.file_size video_note) VIDEO_MAX_BYTES
            "video_note" with
    | Raise exc => (Raise exc, [])
    | Ret _ =>
        let '(r, t) :=
          run (_download_with_retry bot (VideoNote.file_id video_note)) in
        (match r with
         | Ret (tg_file, data) =>
             Ret (Some (mkContent data
                          (_safe_filename
                             (str_or (File.file_path tg_file) "video_note.mp4")
                             "video_note.mp4")
                          "video/mp4"))
         | Raise exc => Raise exc
         end, t)
    end.
Proof.
  unfold _download_video_note. unfold run, bind, of_outcome, ret.
  destruct (_check_file_size _ _ _); [|done].
  destruct (_download_with_retry bot _ tt) as [[[[tg_file data]|exc] []] t];
    simpl; by rewrite ?app_nil_r.
Qed.

Lemma download_media_photo bot message largest :
  last (Message.photo message) = Some largest ->
  download_media bot message = _download_photo bot (Message.photo message).
Proof.
  intros Hlast. unfold download_media.
  by destruct (Message.photo message).
Qed.




(** X10. The content of a download that went through: a photo is typed
    image/jpeg and a video note video/mp4, and their file name is not
    empty and holds no slash or backslash; a video is typed as it declares,
    video/mp4 if it declares nothing, and a file name the video declares
    is used as it is, separators included; only without one is the name
    derived, and clean. *)
Theorem downloaded_content_names bot message content evs :
  run (download_media bot message) = (Ret (Some content), evs) ->
  (forall largest,
     last (Message.photo message) = Some largest ->
     mime_type content = "image/jpeg" /\
     truthy (filename content) = true /\
     contains_sep (filename content) = false) /\
  (forall video,
     Message.photo message = [] -> Message.video message = Some video ->
     mime_type content = str_or (Video.mime_type video) "video/mp4" /\
     (forall name,
        Video.file_name video = Some name -> truthy name = true ->
        filename content = name) /\
     (truthy_opt (Video.file_name video) = false ->
      truthy (filename content) = true /\
      contains_sep (filename content) = false)) /\
  (forall video_note,
     Message.photo message = [] -> Message.video message = None ->
     Message.video_note message = Some video_note ->
     mime_type content = "video/mp4" /\
     truthy (filename content) = true /\
     contains_sep (filename content) = false).
Proof.
  intros Hrun. split; [|split].
  - intros largest Hlast.
    rewrite (download_media_photo bot message largest Hlast) in Hrun.
    rewrite (download_photo_run bot _ largest Hlast) in Hrun.
    destruct (_check_file_size _ _ _); [|done].
    destruct (run (_download_with_retry _ _)) as [[[tg_file data]|exc] t];
      [|done].
    injection Hrun as <- <-. simpl. split; [done|].
    by apply safe_filename_clean.
  - intros video Hp Hv. unfold download_media in Hrun. rewrite Hp, Hv in Hrun.
    rewrite download_video_run in Hrun.
    destruct (_check_file_size _ _ _); [|done].
    destruct (run (_download_with_retry _ _)) as [[[tg_file data]|exc] t];
      [|done].
    injection Hrun as <- <-. simpl. split; [done|]. split.
    + intros name -> Hname. by rewrite Hname.
    + intros Hnone. destruct (Video.file_name video) as [n|]; simpl in Hnone.
      * rewrite Hnone. by apply safe_filename_clean.
      * by apply safe_filename_clean.
  - intros note Hp Hv Hn. unfold download_media in Hrun.
    rewrite Hp, Hv, Hn in Hrun. rewrite download_video_note_run in Hrun.
    destruct (_check_file_size _ _ _); [|done].
    destruct (run (_download_with_retry _ _)) as [[[tg_file data]|exc] t];
      [|done].
    injection Hrun as <- <-. simpl. split; [done|].
    by apply safe_filename_clean.
Qed.

Lemma downloaded_content_names_witness :
  exists content evs,
    run (download_media Cases.flaky_bot Cases.video_message)
      = (Ret (Some content), evs) /\
    filename content = "clips/holiday.mp4" /\
    contains_sep (filename content) = true.
Proof.
  destruct (run (download_media Cases.flaky_bot Cases.video_message))
    as [r evs] eqn:Hrun.
  assert (exists content, r = Ret (Some content)) as [content ->].
  { vm_compute in Hrun. injection Hrun as <- _. eauto. }
  exists content, evs. split; [reflexivity|].
  destruct (downloaded_content_names Cases.flaky_bot Cases.video_message
              content evs Hrun) as (_ & H & _).
  destruct (H Cases.holiday_video eq_refl eq_refl) as (_ & Hname & _).
  rewrite (Hname "clips/holiday.mp4" eq_refl eq_refl). split; reflexivity.
Defined.
End DispatchFacts.

(** ** The retry wrapper: what every run has in common *)

Section WrapperRuns.
Import Telegram GooglePhotos.
Variable self : Credentials.t.
Variable client : AsyncClient.t.
Variables method url : string.
Variable params : option (list (string * string)).
Variable json : option string.
Variable content : option bytes.
Variable extra_headers : option (gmap string string).

Abbreviation attempts_ :=
  (_attempts self client method url params json content extra_headers).
Abbreviation retryable_ :=
  (retryable_attempt self client method url params json content
     extra_headers).
Abbreviation failure_ :=
  (attempt_failure self client method url params json content extra_headers).
Abbreviation outcome_ :=
  (attempt_outcome self client method url params json content extra_headers).
Abbreviation response_ :=
  (attempt_response self client method url params json content extra_headers).
Abbreviation build_ :=
  (build_request method url params json content extra_headers).

(** The request of a retried attempt is the one built from its token. *)
Lemma run_attempts_retry_request i rem delay last :
  retryable_ i = true -> MIN_RETRY_DELAY_SEC <= delay ->
  exists token,
    Credentials._get_access_token self i = Ret token /\
    run (attempts_ (S rem) i delay last) =
    let '(r, t) :=
      run (attempts_ rem (S i) (next_delay delay) (Some (failure_ i))) in
    (r, (if (0 <? i)%nat then [Sleep delay] else [])
          ++ GetAccessToken :: SendRequest (build_ token) :: t).
Proof.
  unfold retryable_attempt, attempt_failure. intros Hr Hd.
  destruct (Credentials._get_access_token self i) as [token|e] eqn:Htok;
    [|done].
  exists token. split; [done|].
  unfold run. simpl. unfold bind, try, emit, of_outcome, ret.
  rewrite Htok.
  destruct (AsyncClient.request client i _) as [resp|e] eqn:Hreq;
    rewrite Hr; rewrite ?Z.max_l by lia;
    destruct (0 <? i)%nat;
    match goal with
    | |- context [attempts_ ?a ?b ?c ?d tt] =>
        destruct (attempts_ a b c d tt) as [[? []] ?]
    end; reflexivity.
Qed.

(** The last attempt of a run sends one request, built from its token, or
    none when the token could not be had; a response it returns is 2xx
    and is the one that request was answered with. *)
Lemma run_attempts_final_request i rem delay last :
  retryable_ i = false ->
  exists evs,
    run (attempts_ (S rem) i delay last) = (outcome_ i, evs) /\
    requests evs = match Credentials._get_access_token self i with
                   | Ret token => [build_ token]
                   | Raise _ => []
                   end /\
    (forall resp,
       outcome_ i = Ret resp ->
       200 <= Response.status_code resp <= 299 /\
       response_ i = Some resp /\
       exists token, Credentials._get_access_token self i = Ret token).
Proof.
  unfold retryable_attempt, attempt_outcome, attempt_response. intros Hr.
  unfold run. simpl. unfold bind, try, emit, of_outcome, ret.
  destruct (Credentials._get_access_token self i) as [token|e] eqn:Htok.
  - destruct (AsyncClient.request client i _) as [resp|e] eqn:Hreq;
      rewrite Hr.
    + unfold raise_for_status.
      destruct ((200 <=? Response.status_code resp)
                && (Response.status_code resp <=? 299)) eqn:H2xx;
        destruct (0 <? i)%nat; eexists; (split; [reflexivity|]);
        (split; [done|]); intros resp' [=]; subst resp'.
      all: apply andb_true_iff in H2xx as [?%Z.leb_le ?%Z.leb_le]; eauto.
    + destruct (0 <? i)%nat; eexists; (split; [reflexivity|]);
        (split; [done|]); intros resp' [=].
  - destruct (0 <? i)%nat; eexists; (split; [reflexivity|]);
      (split; [done|]); intros resp' [=].
Qed.

(** From attempt [i] on: a response that comes back is 2xx and answers the
    last request; request [j] is built from the token of attempt [i + j]. *)
Lemma run_attempts_requests rem :
  forall i delay last,
    MIN_RETRY_DELAY_SEC <= delay ->
    let '(r, evs) := run (attempts_ rem i delay last) in
    (forall resp,
       r = Ret resp ->
       200 <= Response.status_code resp <= 299 /\
       exists k, (k < rem)%nat /\ response_ (i + k) = Some resp /\
                 length (requests evs) = S k) /\
    (forall j req,
       requests evs !! j = Some req ->
       exists token,
         Credentials._get_access_token self (i + j) = Ret token /\
         req = build_ token).
Proof.
  induction rem as [|rem IH]; intros i delay last Hd.
  - destruct last; simpl; split; intros; done.
  - destruct (retryable_ i) eqn:Hr.
    + destruct (run_attempts_retry_request i rem delay last Hr Hd)
        as (token & Htok & ->).
      specialize (IH (S i) (next_delay delay) (Some (failure_ i))).
      destruct (run (attempts_ rem (S i) (next_delay delay)
                       (Some (failure_ i)))) as [r t].
      destruct IH as [IHr IHq].
      { unfold next_delay, MIN_RETRY_DELAY_SEC in *. lia. }
      assert (requests ((if (0 <? i)%nat then [Sleep delay] else [])
                          ++ GetAccessToken :: SendRequest (build_ token) :: t)
              = build_ token :: requests t) as Hreqs.
      { unfold requests. rewrite omap_app. by destruct (0 <? i)%nat. }
      rewrite Hreqs. split.
      * intros resp Hresp. destruct (IHr resp Hresp) as (H2 & k & Hk & Hk' & Hl).
        split; [done|]. exists (S k). split; [lia|].
        replace (i + S k)%nat with (S i + k)%nat by lia.
        split; [done|]. simpl. by rewrite Hl.
      * intros [|j] req Hj.
        -- injection Hj as <-. exists token. by rewrite Nat.add_0_r.
        -- replace (i + S j)%nat with (S i + j)%nat by lia. by apply IHq.
    + destruct (run_attempts_final_request i rem delay last Hr)
        as (evs & -> & Hreqs & Hresp).
      rewrite Hreqs. split.
      * intros resp Hout. destruct (Hresp resp Hout) as (H2 & Hk & token & Htok).
        split; [done|]. exists 0%nat. rewrite Nat.add_0_r.
        split; [lia|]. split; [done|]. by rewrite Htok.
      * intros j req Hj.
        destruct (Credentials._get_access_token self i) as [token|e] eqn:Htok;
          [|done].
        destruct j as [|j]; [|done]. injection Hj as <-.
        exists token. by rewrite Nat.add_0_r.
Qed.

(** From an attempt after the first on, [n] attempts are started, each
    after its wait: [delay], doubled and capped from one to the next. *)
Lemma run_attempts_waits rem :
  forall i delay last,
    (0 < i)%nat -> MIN_RETRY_DELAY_SEC <= delay ->
    exists n,
      (n <= rem)%nat /\ (rem = 0%nat \/ 0 < n)%nat /\
      attempts_started (run (attempts_ rem i delay last)).2 = n /\
      sleeps (run (attempts_ rem i delay last)).2
      = map (fun j => Nat.iter j next_delay delay) (seq 0 n).
Proof.
  induction rem as [|rem IH]; intros i delay last Hi Hd.
  - exists 0%nat. destruct last; simpl; repeat split; auto.
  - apply Nat.ltb_lt in Hi as Hi'. destruct (retryable_ i) eqn:Hr.
    + destruct (run_attempts_retry_request i rem delay last Hr Hd)
        as (token & Htok & ->).
      destruct (IH (S i) (next_delay delay) (Some (failure_ i)))
        as (n & Hn & _ & Hstarted & Hsleeps); [lia| |].
      { unfold next_delay, MIN_RETRY_DELAY_SEC in *. lia. }
      destruct (run (attempts_ rem (S i) (next_delay delay)
                       (Some (failure_ i)))) as [r t].
      rewrite Hi'. cbn [snd] in *. exists (S n).
      split; [lia|]. split; [right; lia|].
      change (attempts_started
                ([Sleep delay] ++ GetAccessToken
                   :: SendRequest (build_ token) :: t))
        with (S (attempts_started t)).
      change (sleeps ([Sleep delay] ++ GetAccessToken
                        :: SendRequest (build_ token) :: t))
        with (delay :: sleeps t).
      split; [by rewrite Hstarted|].
      rewrite Hsleeps. cbn [seq map Nat.iter nat_rect]. f_equal.
      rewrite <- seq_shift, map_map.
      apply map_ext. intros j. by rewrite Nat.iter_succ_r.
    + destruct (run_attempts_final self client method url params json content
                  extra_headers i rem delay last Hr)
        as (evs & -> & Hone & Hs).
      exists 1%nat. cbn [snd]. rewrite Hone, Hs, Hi'.
      split; [lia|]. split; [right; lia|]. done.
Qed.
End WrapperRuns.

Section WrapperExtras.
Import Telegram GooglePhotos.

(** Every request of a run follows a token request of its own. *)
Lemma requests_le_started self client method url params json content
  extra_headers rem :
  forall i delay last,
    MIN_RETRY_DELAY_SEC <= delay ->
    (length (requests (run (_attempts self client method url params json
                              content extra_headers rem i delay last)).2)
     <= attempts_started
          (run (_attempts self client method url params json content
                  extra_headers rem i delay last)).2)%nat.
Proof.
  induction rem as [|rem IH]; intros i delay last Hd.
  - destruct last; simpl; lia.
  - destruct (retryable_attempt self client method url params json content
                extra_headers i) eqn:Hr.
    + destruct (run_attempts_retry_request self client method url params json
                  content extra_headers i rem delay last Hr Hd)
        as (token & _ & ->).
      assert (MIN_RETRY_DELAY_SEC <= next_delay delay) as Hd'.
      { unfold next_delay, MIN_RETRY_DELAY_SEC in *. lia. }
      specialize (IH (S i) (next_delay delay)
                    (Some (attempt_failure self client method url params json
                             content extra_headers i)) Hd').
      destruct (run (_attempts self client method url params json content
                       extra_headers rem (S i) _ _)) as [r t].
      cbn [snd] in *. unfold requests, attempts_started in *.
      rewrite !omap_app, !length_app.
      destruct (0 <? i)%nat; simpl; apply le_n_S, IH.
    + destruct (run_attempts_final self client method url params json content
                  extra_headers i rem delay last Hr) as (evs & Hrun & Hone & _).
      destruct (run_attempts_final_request self client method url params json
                  content extra_headers i rem delay last Hr)
        as (evs' & Hrun' & Hreqs & _).
      rewrite Hrun in Hrun'. injection Hrun' as <-.
      rewrite Hrun. cbn [snd]. rewrite Hone, Hreqs.
      destruct (Credentials._get_access_token self i); simpl; lia.
Qed.

(** X11. A response that [_request_with_retry] returns has a 2xx status,
    and it is the answer to the last request the call sent: the call never
    hands a non-2xx response, or an earlier response, to its caller. *)
Theorem wrapper_returns_only_2xx
  self client method url params json content extra_headers resp :
  (run (_request_with_retry self client method url params json content
          extra_headers)).1 = Ret resp ->
  200 <= Response.status_code resp <= 299 /\
  exists k,
    (k < MAX_RETRIES)%nat /\
    attempt_response self client method url params json content extra_headers
      k = Some resp /\
    length (requests
              (run (_request_with_retry self client method url params json
                      content extra_headers)).2) = S k.
Proof.
  intros Hret. unfold _request_with_retry in *.
  pose proof (run_attempts_requests self client method url params json content
                extra_headers MAX_RETRIES 0 MIN_RETRY_DELAY_SEC None
                ltac:(done)) as H.
  destruct (run (_attempts self client method url params json content
                   extra_headers MAX_RETRIES 0 MIN_RETRY_DELAY_SEC None))
    as [r evs].
  destruct H as [H _]. exact (H resp Hret).
Qed.

Lemma wrapper_returns_only_2xx_witness :
  (run (Scenarios.get_albums Scenarios.unavailable_twice_then_ok)).1
    = Ret (Response.mk 200 "ok") /\
  exists k,
    (k < MAX_RETRIES)%nat /\
    attempt_response Scenarios.fresh_token
      Scenarios.unavailable_twice_then_ok "GET"
      "https://photoslibrary.googleapis.com/v1/albums" None None None None
      k = Some (Response.mk 200 "ok") /\
    length (requests
              (run (Scenarios.get_albums
                      Scenarios.unavailable_twice_then_ok)).2) = S k.
Proof.
  split; [reflexivity|].
  exact (proj2 (wrapper_returns_only_2xx Scenarios.fresh_token
                  Scenarios.unavailable_twice_then_ok "GET"
                  "https://photoslibrary.googleapis.com/v1/albums"
                  None None None None (Response.mk 200 "ok") eq_refl)).
Defined.

(** X12. In every run of [_request_with_retry]: between one and
    [MAX_RETRIES] = 4 attempts are started, each with a token request of
    its own; no more requests are sent than attempts are started; the
    waits are the first ones of 60, 120, 120 seconds, one before each
    attempt but the first; so a call never waits more than 300 seconds in
    all. *)
Theorem wrapper_attempts_and_waits_bounded
  self client method url params json content extra_headers :
  let evs :=
    (run (_request_with_retry self client method url params json content
            extra_headers)).2 in
  (1 <= attempts_started evs <= MAX_RETRIES)%nat /\
  (length (requests evs) <= attempts_started evs)%nat /\
  sleeps evs = take (attempts_started evs - 1) [60; 120; 120] /\
  foldr Z.add 0 (sleeps evs) <= 300.
Proof.
  intros evs.
  assert ((1 <= attempts_started evs <= MAX_RETRIES)%nat /\
          sleeps evs = take (attempts_started evs - 1) [60; 120; 120])
    as [Hn Hs].
  { subst evs. unfold _request_with_retry, MAX_RETRIES.
    destruct (retryable_attempt self client method url params json content
                extra_headers 0) eqn:Hr.
    - destruct (run_attempts_retry_request self client method url params json
                  content extra_headers 0 3 MIN_RETRY_DELAY_SEC None Hr
                  ltac:(done)) as (token & _ & ->).
      destruct (run_attempts_waits self client method url params json content
                  extra_headers 3 1 (next_delay MIN_RETRY_DELAY_SEC)
                  (Some (attempt_failure self client method url params json
                           content extra_headers 0)))
        as (n & Hn & _ & Hstarted & Hsleeps); [lia | done |].
      destruct (run (_attempts self client method url params json content
                       extra_headers 3 1 _ _)) as [r t].
      cbn [snd] in *.
      change (attempts_started
                ((if (0 <? 0)%nat then [Sleep MIN_RETRY_DELAY_SEC] else [])
                   ++ GetAccessToken :: SendRequest _ :: t))
        with (S (attempts_started t)).
      change (sleeps
                ((if (0 <? 0)%nat then [Sleep MIN_RETRY_DELAY_SEC] else [])
                   ++ GetAccessToken :: SendRequest _ :: t))
        with (sleeps t).
      rewrite Hstarted, Hsleeps. split; [lia|].
      destruct n as [|[|[|[|n]]]]; try reflexivity. lia.
    - destruct (run_attempts_final self client method url params json content
                  extra_headers 0 3 MIN_RETRY_DELAY_SEC None Hr)
        as (evs & -> & Hone & Hs).
      cbn [snd]. rewrite Hone, Hs. split; [lia | reflexivity]. }
  split; [done|]. split.
  - subst evs. by apply requests_le_started.
  - split; [done|]. rewrite Hs. unfold MAX_RETRIES in Hn.
    destruct (attempts_started evs) as [|[|[|[|[|n]]]]]; simpl; lia.
Qed.

(** X13. Request [j] of a run is built from the token obtained for attempt
    [j]: the same method, URL, parameters and body every time, every
    header of the caller with the caller's value, and, unless the caller
    passes an Authorization header, the Authorization header made of that
    attempt's own token. *)
Theorem every_request_carries_its_attempts_token
  self client method url params json content extra_headers j req :
  requests (run (_request_with_retry self client method url params json
                   content extra_headers)).2 !! j = Some req ->
  exists token,
    Credentials._get_access_token self j = Ret token /\
    req = build_request method url params json content extra_headers token /\
    (forall extra k v,
       extra_headers = Some extra -> extra !! k = Some v ->
       Request.headers req !! k = Some v) /\
    (match extra_headers with
     | Some extra => extra !! "Authorization" = None
     | None => True
     end ->
     Request.headers req !! "Authorization" = Some ("Bearer " +:+ token)).
Proof.
  intros Hj. unfold _request_with_retry in *.
  pose proof (run_attempts_requests self client method url params json content
                extra_headers MAX_RETRIES 0 MIN_RETRY_DELAY_SEC None
                ltac:(done)) as H.
  destruct (run (_attempts self client method url params json content
                   extra_headers MAX_RETRIES 0 MIN_RETRY_DELAY_SEC None))
    as [r evs].
  destruct H as [_ H]. destruct (H j req Hj) as (token & Htok & ->).
  exists token. split; [done|]. split; [done|]. split.
  - intros extra k v -> Hk. unfold build_request. simpl.
    unfold request_headers, dict_update. case_decide as He.
    + subst extra. by rewrite lookup_empty in Hk.
    + by apply lookup_union_Some_l.
  - intros Hnone. unfold build_request. simpl.
    rewrite request_headers_authorization.
    destruct extra_headers as [extra|]; [|done]. by rewrite Hnone.
Qed.

Lemma every_request_carries_its_attempts_token_witness :
  exists req,
    requests (run (Scenarios.get_albums Scenarios.unavailable_twice_then_ok)).2
      !! 2%nat = Some req /\
    Request.headers req !! "Authorization" = Some "Bearer fresh".
Proof.
  eexists. split; [reflexivity|].
  destruct (every_request_carries_its_attempts_token Scenarios.fresh_token
              Scenarios.unavailable_twice_then_ok "GET"
              "https://photoslibrary.googleapis.com/v1/albums"
              None None None None 2 _ eq_refl)
    as (token & Htok & _ & _ & H).
  injection Htok as <-. exact (H I).
Defined.
End WrapperExtras.

(** ** The orchestrator: whole runs *)

Section RunFacts.
Import Telegram Handlers Calls.

(** A run returns at once; or it is the run of an accepted event, which
    raises at once on a store that is not open and goes on to the rename
    step on an open store that does not hold its marker. *)
Lemma handle_media_cases update context store :
  handle_media update context store = (Ret tt, store, [])
  \/ exists message chat client cfg,
       accepted update context message chat client cfg /\
       ((Database._conn store = None /\
         handle_media update context store
         = (Raise (RuntimeError "Database not open; call open() first"),
            store, []))
        \/ exists conn,
             store = Database.opened conn /\
             (Chat.id chat, Message.id message)
               ∉ Database.processed_messages conn).
Proof.
  destruct (Update.message update) as [message|] eqn:Hm.
  2:{ left. by apply handle_media_rejected, rejected_no_message. }
  destruct (Update.effective_chat update) as [chat|] eqn:Hc.
  2:{ left. by apply handle_media_rejected, rejected_no_chat. }
  destruct (is_group chat) eqn:Hg.
  2:{ left. by eapply handle_media_rejected, rejected_not_group. }
  destruct (db context) eqn:Hdb.
  2:{ left. unfold handle_media. by rewrite Hm, Hc, Hg, Hdb. }
  destruct (google_photos context) as [client|] eqn:Hcl.
  2:{ left. unfold handle_media. by rewrite Hm, Hc, Hg, Hdb, Hcl. }
  destruct (config context) as [cfg|] eqn:Hcfg.
  2:{ left. unfold handle_media. by rewrite Hm, Hc, Hg, Hdb, Hcl, Hcfg. }
  destruct (not_allowed cfg (Chat.id chat)) eqn:Hal.
  { left. by eapply handle_media_rejected, rejected_not_allowed. }
  destruct store as [[conn|]].
  - change (Database.mk (Some conn)) with (Database.opened conn).
    destruct (decide ((Chat.id chat, Message.id message)
                        ∈ Database.processed_messages conn)) as [Hin|Hnew].
    + left. by eapply handle_media_rejected, rejected_processed.
    + right. exists message, chat, client, cfg. split; [done|]. right. eauto.
  - right. exists message, chat, client, cfg. split; [done|]. left.
    split; [done|]. unfold handle_media.
    by rewrite Hm, Hc, Hg, Hdb, Hcl, Hcfg, Hal.
Qed.

(** X15. On a store that was closed an accepted event makes [handle_media]
    raise the [RuntimeError] of the store, before any call: nothing is
    downloaded or uploaded, and the error is not caught. *)
Theorem handle_media_raises_on_closed_store
  update context message chat client cfg store :
  accepted update context message chat client cfg ->
  handle_media update context (Database.close store)
  = (Raise (RuntimeError "Database not open; call open() first"),
     Database.close store, []).
Proof.
  intros Hacc.
  destruct (handle_media_cases update context (Database.close store))
    as [Hquiet | (message' & chat' & client' & cfg' & _ & Hrun)].
  - destruct Hacc as [Hm Hc Hg Hdb Hcl Hcfg Hal].
    unfold handle_media in Hquiet.
    rewrite Hm, Hc, Hg, Hdb, Hcl, Hcfg, Hal in Hquiet. discriminate Hquiet.
  - destruct Hrun as [[_ Hraise] | (conn & Hopen & _)]; [done|].
    discriminate Hopen.
Qed.

Lemma handle_media_raises_on_closed_store_witness :
  accepted (Scenarios.photo_event (-100) 42 "Vacation" (Some 5000))
    (Scenarios.context "album_1")
    (Scenarios.photo_message 42 (Some 5000))
    (Scenarios.supergroup (-100) "Vacation")
    (Scenarios.photos "album_1") Scenarios.no_allow_list /\
  (handle_media (Scenarios.photo_event (-100) 42 "Vacation" (Some 5000))
     (Scenarios.context "album_1")
     (Database.close (Database.opened Scenarios.empty_tables))).2 = [].
Proof.
  assert (accepted (Scenarios.photo_event (-100) 42 "Vacation" (Some 5000))
            (Scenarios.context "album_1")
            (Scenarios.photo_message 42 (Some 5000))
            (Scenarios.supergroup (-100) "Vacation")
            (Scenarios.photos "album_1") Scenarios.no_allow_list) as Hacc.
  { split; reflexivity. }
  split; [exact Hacc|].
  rewrite (handle_media_raises_on_closed_store _ _ _ _ _ _
             (Database.opened Scenarios.empty_tables) Hacc).
  reflexivity.
Defined.

(** X16. An event whose run marked it is skipped when it is delivered
    again, whatever the context is by then: the second run returns at
    once, makes no call and leaves the store as the first run left it. *)
Theorem marked_event_is_skipped_when_redelivered
  update context context' store :
  marks (handle_media update context store).2 <> [] ->
  handle_media update context' (handle_media update context store).1.2
  = (Ret tt, (handle_media update context store).1.2, []).
Proof.
  intros Hmarked.
  pose proof (handle_media_outcome update context store) as Hout.
  destruct (handle_media update context store) as [[r store'] evs].
  simpl in *.
  destruct Hout as [(Hnone & _) | Hok]; [done|].
  destruct Hok as (_ & _ & _ & _ & _ & message & chat & Hm & Hc & _ & _ & _
                   & _ & Hp).
  unfold processed in Hp at 1.
  destruct store' as [[conn'|]].
  - apply handle_media_rejected.
    apply (rejected_processed _ _ _ message chat conn'); [done..|].
    simpl in Hp. rewrite Hp. set_solver.
  - simpl in Hp. exfalso.
    assert ((Chat.id chat, Message.id message) ∈ (∅ : gset (Z * Z))) as Hin
      by (rewrite Hp; set_solver).
    set_solver.
Qed.

Lemma marked_event_is_skipped_when_redelivered_witness :
  marks (handle_media
           (Scenarios.photo_event (-100) 42 "Vacation" (Some 5000))
           (Scenarios.context "album_1")
           (Database.opened Scenarios.empty_tables)).2 <> [] /\
  (handle_media (Scenarios.photo_event (-100) 42 "Vacation" (Some 5000))
     (Scenarios.context "album_2")
     (handle_media
        (Scenarios.photo_event (-100) 42 "Vacation" (Some 5000))
        (Scenarios.context "album_1")
        (Database.opened Scenarios.empty_tables)).1.2).2 = [].
Proof.
  assert (marks (handle_media
                   (Scenarios.photo_event (-100) 42 "Vacation" (Some 5000))
                   (Scenarios.context "album_1")
                   (Database.opened Scenarios.empty_tables)).2 <> [])
    as Hmarked by (vm_compute; discriminate).
  split; [exact Hmarked|].
  rewrite (marked_event_is_skipped_when_redelivered _ _
             (Scenarios.context "album_2") _ Hmarked).
  reflexivity.
Defined.

(** X17. In every run of [handle_media] each collaborator is called at
    most once (one download, one album lookup, one upload, one mark), and
    what is uploaded is what the download of that run returned: its bytes,
    its file name and its MIME type. *)
Theorem handle_media_calls_each_collaborator_once update context store :
  let evs := (handle_media update context store).2 in
  (length (downloads evs) <= 1)%nat /\
  (length (album_lookups evs) <= 1)%nat /\
  (length (uploads evs) <= 1)%nat /\
  (length (marks evs) <= 1)%nat /\
  (forall file_bytes filename mime_type album_id,
     (file_bytes, filename, mime_type, album_id) ∈ uploads evs ->
     exists content,
       downloads evs = [Ret (Some content)] /\
       file_bytes = Media.data content /\
       filename = Media.filename content /\
       mime_type = Media.mime_type content).
Proof.
  intros evs. subst evs.
  destruct (handle_media_cases update context store)
    as [-> | (message & chat & client & cfg & Hacc & Hrun)].
  { simpl. repeat split; try lia. intros ? ? ? ? Hin.
    by apply elem_of_nil in Hin. }
  destruct Hrun as [[_ ->] | (conn & -> & Hnew)].
  { simpl. repeat split; try lia. intros ? ? ? ? Hin.
    by apply elem_of_nil in Hin. }
  rewrite (handle_media_accepted update context message chat client cfg conn)
    by done.
  cbv zeta.
  destruct (detect_rename_opened (Chat.id chat) (effective_title chat) conn)
    as (conn1 & pre & -> & _ & _ & _ & Hpre).
  destruct (bookkeeping_quiet pre Hpre) as (Hpm & _ & Hpa & _).
  destruct (bookkeeping_calls pre Hpre) as (Hpd & Hpu).
  destruct (run (Media.download_media (bot context) message)) as [dl tevs].
  destruct (transfer_quiet tevs) as (Htm & _ & Hta & _).
  destruct (transfer_calls tevs) as (Htd & Htu).
  assert (forall dl uevs,
            downloads (pre ++ (map Transfer tevs ++ [DownloadMedia dl])
                         ++ uevs) = dl :: downloads uevs) as Hd.
  { intros. by rewrite !downloads_app, Hpd, Htd. }
  assert (forall dl uevs,
            uploads (pre ++ (map Transfer tevs ++ [DownloadMedia dl])
                       ++ uevs) = uploads uevs) as Hu.
  { intros. by rewrite !uploads_app, Hpu, Htu. }
  assert (forall dl uevs,
            album_lookups (pre ++ (map Transfer tevs ++ [DownloadMedia dl])
                             ++ uevs) = album_lookups uevs) as Ha.
  { intros. by rewrite !album_lookups_app, Hpa, Hta. }
  assert (forall dl uevs,
            marks (pre ++ (map Transfer tevs ++ [DownloadMedia dl])
                     ++ uevs) = marks uevs) as Hk.
  { intros. by rewrite !marks_app, Hpm, Htm. }
  destruct dl as [[content|]|exc].
  - rewrite resolve_and_upload_opened. cbv zeta.
    destruct (truthy_opt (Database.album_cache conn1 !! effective_title chat));
      [|destruct (GooglePhotos.Client.get_or_create_album client _)
          as [album_id|exc]];
      try (destruct (GooglePhotos.Client.upload_media client _ _ _ _)
             as [[]|exc]);
      cbn [snd]; rewrite Hd, Hu, Ha, Hk; simpl;
      (repeat split; try lia);
      intros ? ? ? ? Hin;
      try (by apply elem_of_nil in Hin);
      apply list_elem_of_singleton in Hin; injection Hin as -> -> -> ->;
      by exists content.
  - cbn [snd]. rewrite Hd, Hu, Ha, Hk. simpl. repeat split; try lia.
    intros ? ? ? ? Hin. by apply elem_of_nil in Hin.
  - cbn [snd]. rewrite Hd, Hu, Ha, Hk. simpl. repeat split; try lia.
    intros ? ? ? ? Hin. by apply elem_of_nil in Hin.
Qed.
End RunFacts.

Section StoreAfterRun.
Import Telegram Handlers Calls.

(** The rename step leaves the album cached under the new title alone. *)
Lemma rename_keeps_new_title (stored : option string) t
  (cache : gmap string string) :
  match stored with
  | Some stored =>
      if truthy stored && negb (String.eqb stored t)
      then delete stored cache
      else cache
  | None => cache
  end !! t = cache !! t.
Proof.
  destruct stored as [stored|]; [|done].
  destruct (truthy stored); [|done]. simpl.
  destruct (String.eqb_spec stored t); [done|]. simpl.
  by apply lookup_delete_ne.
Qed.

(** X18. What a run of an accepted, unmarked event can change in an open
    store, whatever the bot and the client do: the title of the chat is
    recorded, also when the download or the upload fails; the titles of
    the other chats stay; an album cached under a title that is neither
    the title the album goes by nor the title stored for the chat stays;
    no marker is dropped and none but the event's own is added. *)
Theorem handle_media_changes_only_its_own_rows
  update context message chat client cfg conn :
  accepted update context message chat client cfg ->
  (Chat.id chat, Message.id message) ∉ Database.processed_messages conn ->
  exists conn',
    (handle_media update context (Database.opened conn)).1.2
      = Database.opened conn' /\
    Database.chat_titles conn'
      = <[Chat.id chat := effective_title chat]> (Database.chat_titles conn) /\
    (forall title,
       title <> effective_title chat ->
       Database.chat_titles conn !! Chat.id chat <> Some title ->
       Database.album_cache conn' !! title
         = Database.album_cache conn !! title) /\
    Database.processed_messages conn ⊆ Database.processed_messages conn' /\
    Database.processed_messages conn'
      ⊆ {[ (Chat.id chat, Message.id message) ]}
          ∪ Database.processed_messages conn.
Proof.
  intros Hacc Hnew.
  rewrite (handle_media_accepted update context message chat client cfg conn)
    by done.
  cbv zeta.
  destruct (detect_rename_opened (Chat.id chat) (effective_title chat) conn)
    as (conn1 & pre & -> & Hp1 & Ht1 & Hc1 & _).
  assert (forall title,
            title <> effective_title chat ->
            Database.chat_titles conn !! Chat.id chat <> Some title ->
            Database.album_cache conn1 !! title
              = Database.album_cache conn !! title) as Hframe.
  { intros title Hne Hstored. rewrite Hc1.
    destruct (Database.chat_titles conn !! Chat.id chat) as [stored|]; [|done].
    destruct (truthy stored && negb (stored =? effective_title chat)%string);
      [|done].
    apply lookup_delete_ne. congruence. }
  assert (exists conn',
            Database.opened conn1 = Database.opened conn' /\
            Database.chat_titles conn'
              = <[Chat.id chat := effective_title chat]>
                  (Database.chat_titles conn) /\
            (forall title,
               title <> effective_title chat ->
               Database.chat_titles conn !! Chat.id chat <> Some title ->
               Database.album_cache conn' !! title
                 = Database.album_cache conn !! title) /\
            Database.processed_messages conn
              ⊆ Database.processed_messages conn' /\
            Database.processed_messages conn'
              ⊆ {[ (Chat.id chat, Message.id message) ]}
                  ∪ Database.processed_messages conn) as Hquiet.
  { exists conn1. rewrite Hp1. repeat split; try done. set_solver. }
  destruct (run (Media.download_media (bot context) message)) as [dl tevs].
  destruct dl as [[content|]|exc]; [|done..].
  rewrite resolve_and_upload_opened. cbv zeta.
  destruct (truthy_opt (Database.album_cache conn1 !! effective_title chat)).
  - destruct (GooglePhotos.Client.upload_media client _ _ _ _) as [[]|exc];
      [|done].
    unfold Database.mark_processed. simpl.
    rewrite decide_False by (by rewrite Hp1). simpl.
    eexists. split; [reflexivity|]. simpl. rewrite Hp1.
    repeat split; try done; set_solver.
  - destruct (GooglePhotos.Client.get_or_create_album client _)
      as [album_id|exc]; [|done].
    assert (forall title,
              title <> effective_title chat ->
              Database.chat_titles conn !! Chat.id chat <> Some title ->
              <[effective_title chat := album_id]>
                (Database.album_cache conn1) !! title
              = Database.album_cache conn !! title) as Hframe'.
    { intros title Hne Hstored. rewrite lookup_insert_ne by done.
      by apply Hframe. }
    destruct (GooglePhotos.Client.upload_media client _ _ _ _) as [[]|exc].
    + unfold Database.mark_processed. simpl.
      rewrite decide_False by (by rewrite Hp1). simpl.
      eexists. split; [reflexivity|]. simpl. rewrite Hp1.
      repeat split; try done; set_solver.
    + eexists. split; [reflexivity|]. simpl. rewrite Hp1.
      repeat split; try done; set_solver.
Qed.

Lemma handle_media_changes_only_its_own_rows_witness :
  exists conn',
    (handle_media (Scenarios.photo_event (-100) 42 "New" (Some 5000))
       (Handlers.mkContext Cases.dead_bot true
          (Some (Scenarios.photos "album_1")) (Some Scenarios.no_allow_list))
       (Database.opened Scenarios.old_tables)).1.2 = Database.opened conn' /\
    Database.chat_titles conn' !! (-100) = Some "New".
Proof.
  destruct (handle_media_changes_only_its_own_rows
              (Scenarios.photo_event (-100) 42 "New" (Some 5000))
              (Handlers.mkContext Cases.dead_bot true
                 (Some (Scenarios.photos "album_1"))
                 (Some Scenarios.no_allow_list))
              (Scenarios.photo_message 42 (Some 5000))
              (Scenarios.supergroup (-100) "New")
              (Scenarios.photos "album_1") Scenarios.no_allow_list
              Scenarios.old_tables)
    as (conn' & Hstore & Htitles & _).
  - split; reflexivity.
  - simpl. set_solver.
  - exists conn'. split; [exact Hstore|]. rewrite Htitles.
    apply lookup_insert_eq.
Defined.

(** X19. When a non-empty album id is cached under the title the album
    goes by, and the download returns media, the run looks no album up:
    it uploads the media into the cached album, also right after a rename
    away from another title, and the cached id stays. *)
Theorem cached_album_is_used_without_lookup
  update context message chat client cfg conn content tevs album_id :
  accepted update context message chat client cfg ->
  (Chat.id chat, Message.id message) ∉ Database.processed_messages conn ->
  run (Media.download_media (bot context) message)
    = (Ret (Some content), tevs) ->
  Database.album_cache conn !! effective_title chat = Some album_id ->
  truthy album_id = true ->
  let '(_, store', evs) :=
    handle_media update context (Database.opened conn) in
  album_lookups evs = [] /\
  uploads evs = [(Media.data content, Media.filename content,
                  Media.mime_type content, album_id)] /\
  (Database.get_album_id (effective_title chat) store').1
    = Ret (Some album_id).
Proof.
  intros Hacc Hnew Hdl Hcached Hid.
  rewrite (handle_media_accepted update context message chat client cfg conn)
    by done.
  cbv zeta.
  destruct (detect_rename_opened (Chat.id chat) (effective_title chat) conn)
    as (conn1 & pre & -> & Hp1 & _ & Hc1 & Hpre).
  destruct (bookkeeping_quiet pre Hpre) as (_ & _ & Hpa & _).
  destruct (bookkeeping_calls pre Hpre) as (_ & Hpu).
  rewrite Hdl.
  destruct (transfer_quiet tevs) as (_ & _ & Hta & _).
  destruct (transfer_calls tevs) as (_ & Htu).
  assert (Database.album_cache conn1 !! effective_title chat = Some album_id)
    as Hcached1.
  { rewrite Hc1, rename_keeps_new_title. exact Hcached. }
  rewrite resolve_and_upload_opened. cbv zeta.
  rewrite Hcached1. simpl truthy_opt. rewrite Hid. simpl default.
  destruct (GooglePhotos.Client.upload_media client _ _ _ _) as [[]|exc].
  - rewrite !album_lookups_app, !uploads_app, Hpa, Hta, Hpu, Htu.
    split; [done|]. split; [done|].
    unfold Database.mark_processed. simpl.
    rewrite decide_False by (by rewrite Hp1). simpl. by rewrite Hcached1.
  - rewrite !album_lookups_app, !uploads_app, Hpa, Hta, Hpu, Htu.
    split; [done|]. split; [done|]. simpl. by rewrite Hcached1.
Qed.

Lemma cached_album_is_used_without_lookup_witness :
  album_lookups
    (handle_media (Scenarios.photo_event (-100) 42 "New" (Some 5000))
       (Scenarios.context "album_1")
       (Database.opened Scenarios.shared_tables)).2 = [] /\
  uploads
    (handle_media (Scenarios.photo_event (-100) 42 "New" (Some 5000))
       (Scenarios.context "album_1")
       (Database.opened Scenarios.shared_tables)).2
  = [(Scenarios.jpeg, "img_001.jpg", "image/jpeg", "album_shared")].
Proof.
  pose proof (cached_album_is_used_without_lookup
                (Scenarios.photo_event (-100) 42 "New" (Some 5000))
                (Scenarios.context "album_1")
                (Scenarios.photo_message 42 (Some 5000))
                (Scenarios.supergroup (-100) "New")
                (Scenarios.photos "album_1") Scenarios.no_allow_list
                Scenarios.shared_tables Scenarios.downloaded_photo
                Scenarios.photo_transfer "album_shared") as H.
  destruct (handle_media (Scenarios.photo_event (-100) 42 "New" (Some 5000))
              (Scenarios.context "album_1")
              (Database.opened Scenarios.shared_tables)) as [[r store'] evs].
  destruct H as (Hlook & Hup & _).
  - split; reflexivity.
  - simpl. set_solver.
  - reflexivity.
  - reflexivity.
  - reflexivity.
  - split; [exact Hlook | exact Hup].
Defined.

(** X20. When no album id, or the empty one, is cached under the title the
    album goes by, the download returns media and the lookup answers, the
    run looks the album up once, caches the id it got, and uploads into
    it; the id is cached before the upload, so it stays cached when the
    upload fails. *)
Theorem looked_up_album_is_cached_before_upload
  update context message chat client cfg conn content tevs album_id :
  accepted update context message chat client cfg ->
  (Chat.id chat, Message.id message) ∉ Database.processed_messages conn ->
  run (Media.download_media (bot context) message)
    = (Ret (Some content), tevs) ->
  truthy_opt (Database.album_cache conn !! effective_title chat) = false ->
  GooglePhotos.Client.get_or_create_album client (effective_title chat)
    = Ret album_id ->
  let '(_, store', evs) :=
    handle_media update context (Database.opened conn) in
  album_lookups evs = [effective_title chat] /\
  uploads evs = [(Media.data content, Media.filename content,
                  Media.mime_type content, album_id)] /\
  (Database.get_album_id (effective_title chat) store').1
    = Ret (Some album_id).
Proof.
  intros Hacc Hnew Hdl Hcached Hlookup.
  rewrite (handle_media_accepted update context message chat client cfg conn)
    by done.
  cbv zeta.
  destruct (detect_rename_opened (Chat.id chat) (effective_title chat) conn)
    as (conn1 & pre & -> & Hp1 & _ & Hc1 & Hpre).
  destruct (bookkeeping_quiet pre Hpre) as (_ & _ & Hpa & _).
  destruct (bookkeeping_calls pre Hpre) as (_ & Hpu).
  rewrite Hdl.
  destruct (transfer_quiet tevs) as (_ & _ & Hta & _).
  destruct (transfer_calls tevs) as (_ & Htu).
  assert (truthy_opt (Database.album_cache conn1 !! effective_title chat)
          = false) as Hcached1.
  { rewrite Hc1, rename_keeps_new_title. exact Hcached. }
  rewrite resolve_and_upload_opened. cbv zeta.
  rewrite Hcached1, Hlookup.
  destruct (GooglePhotos.Client.upload_media client _ _ _ _) as [[]|exc].
  - rewrite !album_lookups_app, !uploads_app, Hpa, Hta, Hpu, Htu.
    split; [done|]. split; [done|].
    unfold Database.mark_processed. simpl.
    rewrite decide_False by (by rewrite Hp1). simpl.
    by rewrite lookup_insert_eq.
  - rewrite !album_lookups_app, !uploads_app, Hpa, Hta, Hpu, Htu.
    split; [done|]. split; [done|]. simpl. by rewrite lookup_insert_eq.
Qed.

Lemma looked_up_album_is_cached_before_upload_witness :
  marks
    (handle_media (Scenarios.photo_event (-100) 42 "Vacation" (Some 5000))
       (Handlers.mkContext Scenarios.reliable_bot true
          (Some Scenarios.failing_upload) (Some Scenarios.no_allow_list))
       (Database.opened Scenarios.empty_tables)).2 = [] /\
  (Database.get_album_id "Vacation"
     (handle_media (Scenarios.photo_event (-100) 42 "Vacation" (Some 5000))
        (Handlers.mkContext Scenarios.reliable_bot true
           (Some Scenarios.failing_upload) (Some Scenarios.no_allow_list))
        (Database.opened Scenarios.empty_tables)).1.2).1
  = Ret (Some "album_1").
Proof.
  split; [reflexivity|].
  pose proof (looked_up_album_is_cached_before_upload
                (Scenarios.photo_event (-100) 42 "Vacation" (Some 5000))
                (Handlers.mkContext Scenarios.reliable_bot true
                   (Some Scenarios.failing_upload)
                   (Some Scenarios.no_allow_list))
                (Scenarios.photo_message 42 (Some 5000))
                (Scenarios.supergroup (-100) "Vacation")
                Scenarios.failing_upload Scenarios.no_allow_list
                Scenarios.empty_tables Scenarios.downloaded_photo
                Scenarios.photo_transfer "album_1") as H.
  destruct (handle_media (Scenarios.photo_event (-100) 42 "Vacation"
                            (Some 5000))
              (Handlers.mkContext Scenarios.reliable_bot true
                 (Some Scenarios.failing_upload)
                 (Some Scenarios.no_allow_list))
              (Database.opened Scenarios.empty_tables)) as [[r store'] evs].
  destruct H as (_ & _ & Hcached).
  - split; reflexivity.
  - simpl. set_solver.
  - reflexivity.
  - reflexivity.
  - reflexivity.
  - exact Hcached.
Defined.
End StoreAfterRun.

Section Titles.
Import Telegram Handlers Calls.

Lemma placeholder_not_blank chat_id :
  truthy (strip (placeholder chat_id)) = true.
Proof. unfold strip, placeholder. simpl. by destruct (rstrip _). Qed.

(** The title an album goes by, case by case. *)
Lemma effective_title_cases chat :
  effective_title chat
  = if untitled chat then placeholder (Chat.id chat)
    else default EmptyString (Chat.title chat).
Proof.
  unfold effective_title, untitled, str_or.
  fold (placeholder (Chat.id chat)).
  pose proof (placeholder_not_blank (Chat.id chat)) as Hp.
  destruct (Chat.title chat) as [title|]; simpl.
  - destruct (truthy title) eqn:Ht.
    + destruct (truthy (strip title)) eqn:Hs; simpl; by rewrite ?Hp, ?Hs.
    + destruct title; [|discriminate Ht]. simpl. by rewrite Hp.
  - by rewrite Hp.
Qed.

(** X21. The title an album goes by is never blank: it is the title the
    chat reports when that has a character that is not white space, and
    the placeholder [Chat_<id>] of the chat otherwise. *)
Theorem effective_title_is_never_blank chat :
  truthy (strip (effective_title chat)) = true /\
  effective_title chat
  = if untitled chat then placeholder (Chat.id chat)
    else default EmptyString (Chat.title chat).
Proof.
  split; [|apply effective_title_cases].
  rewrite effective_title_cases. unfold untitled.
  destruct (Chat.title chat) as [title|]; simpl.
  - destruct (truthy (strip title)) eqn:Hs; simpl;
      [done | apply placeholder_not_blank].
  - apply placeholder_not_blank.
Qed.

(** X22. Two chats that report no title to go by get the same album title
    only if they are the same chat: the placeholder tells the chat ids
    apart. *)
Theorem untitled_chats_get_distinct_titles chat1 chat2 :
  untitled chat1 = true -> untitled chat2 = true ->
  effective_title chat1 = effective_title chat2 ->
  Chat.id chat1 = Chat.id chat2.
Proof.
  intros H1 H2. rewrite !effective_title_cases, H1, H2.
  unfold placeholder. intros Heq. simpl in Heq.
  injection Heq as Heq. by apply (inj pretty).
Qed.

Lemma untitled_chats_get_distinct_titles_witness :
  untitled (Chat.mk 7 "group" None) = true /\
  untitled (Chat.mk 8 "group" (Some "  ")) = true /\
  effective_title (Chat.mk 7 "group" None)
    <> effective_title (Chat.mk 8 "group" (Some "  ")).
Proof.
  split; [reflexivity|]. split; [reflexivity|].
  intros Heq.
  pose proof (untitled_chats_get_distinct_titles (Chat.mk 7 "group" None)
                (Chat.mk 8 "group" (Some "  ")) eq_refl eq_refl Heq) as Hid.
  discriminate Hid.
Defined.
End Titles.

(** ** The calls of the client *)

Section ClientRuns.
Import Telegram GooglePhotos GooglePhotosClient.

(** Every request of a run of the wrapper is built from a token that one
    of its attempts obtained. *)
Lemma wrapper_requests_built self client method url params body content
  extra_headers :
  Forall (fun req =>
            exists attempt token,
              Credentials._get_access_token self attempt = Ret token /\
              req = build_request method url params body content
                      extra_headers token)
    (requests (run (_request_with_retry self client method url params body
                      content extra_headers)).2).
Proof.
  unfold _request_with_retry.
  pose proof (run_attempts_requests self client method url params body content
                extra_headers MAX_RETRIES 0 MIN_RETRY_DELAY_SEC None
                ltac:(done)) as H.
  destruct (run (_attempts self client method url params body content
                   extra_headers MAX_RETRIES 0 MIN_RETRY_DELAY_SEC None))
    as [r evs].
  destruct H as [_ H]. apply Forall_lookup. intros j req Hj.
  destruct (H j req Hj) as (token & Htok & ->). eauto.
Qed.

Lemma sends_ret {A} P (a : A) : sends P (ret a).
Proof. intros k. apply Forall_nil_2. Qed.

Lemma sends_of_outcome {A} P (r : Outcome A) : sends P (of_outcome r).
Proof. intros k. apply Forall_nil_2. Qed.

Lemma sends_bind {A B} P (m : M A) (f : A -> M B) :
  sends P m -> (forall a, sends P (f a)) -> sends P (bind m f).
Proof.
  intros Hm Hf k. specialize (Hm k). unfold bind.
  destruct (m k) as [[[a|exc] k1] t1]; [|done].
  specialize (Hf a k1). destruct (f a k1) as [[r k2] t2].
  simpl in *. unfold requests in *. rewrite omap_app.
  by apply Forall_app.
Qed.

Section Calls.
Variable credentials : nat -> Credentials.t.
Variable http : nat -> AsyncClient.t.

Lemma sends_request_with_retry (P : Request.t -> Prop) method url params body
  content extra_headers :
  (forall k attempt token,
     Credentials._get_access_token (credentials k) attempt = Ret token ->
     P (build_request method url params body content extra_headers token)) ->
  sends P (request_with_retry credentials http method url params body content
             extra_headers).
Proof.
  intros HP k. unfold request_with_retry.
  pose proof (wrapper_requests_built (credentials k) (http k) method url
                params body content extra_headers) as H.
  destruct (run (_request_with_retry (credentials k) (http k) method url
                   params body content extra_headers)) as [r t].
  simpl in *. eapply Forall_impl; [exact H|].
  intros req (attempt & token & Htok & ->). eauto.
Qed.

(** A call without an Authorization header of its own is authorized. *)
Lemma request_with_retry_authorized method url params body content
  extra_headers :
  match extra_headers with
  | Some extra => extra !! "Authorization" = None
  | None => True
  end ->
  sends (authorized credentials)
    (request_with_retry credentials http method url params body content
       extra_headers).
Proof.
  intros Hextra. apply sends_request_with_retry.
  intros k attempt token Htok. exists k, attempt, token. split; [done|].
  unfold build_request. simpl. rewrite request_headers_authorization.
  destruct extra_headers as [extra|]; [|done]. by rewrite Hextra.
Qed.
End Calls.
End ClientRuns.

Section ClientFacts.
Import Telegram GooglePhotos GooglePhotosClient.
Variable credentials : nat -> Credentials.t.
Variable http : nat -> AsyncClient.t.
Variable json : Response.t -> Outcome Json.t.
Variable encode_json : Json.t -> string.
Variable encode_params : list (string * Json.t) -> list (string * string).
Variable str : Json.t -> string.

Lemma upload_headers_lookup mime_type :
  upload_headers mime_type !! "Content-type"
    = Some "application/octet-stream" /\
  upload_headers mime_type !! "X-Goog-Upload-Content-Type" = Some mime_type /\
  upload_headers mime_type !! "X-Goog-Upload-Protocol" = Some "raw" /\
  upload_headers mime_type !! "Authorization" = None /\
  upload_headers mime_type <> ∅.
Proof.
  unfold upload_headers. split; [|split; [|split; [|split]]].
  - apply lookup_insert_eq.
  - rewrite lookup_insert_ne by done. apply lookup_insert_eq.
  - rewrite !lookup_insert_ne by done. apply lookup_singleton_eq.
  - rewrite !lookup_insert_ne by done. by apply lookup_singleton_ne.
  - apply insert_non_empty.
Qed.

Lemma sends_upload_bytes file_bytes mime_type :
  sends (is_upload file_bytes mime_type)
    (_upload_bytes credentials http file_bytes mime_type).
Proof.
  apply sends_bind; [|intros; apply sends_ret].
  apply sends_request_with_retry. intros k attempt token _.
  destruct (upload_headers_lookup mime_type) as (H1 & H2 & H3 & _ & Hne).
  unfold is_upload, build_request, request_headers, dict_update. simpl.
  rewrite decide_False by done.
  repeat split; try done; by apply lookup_union_Some_l.
Qed.

Lemma sends_create_media_item upload_token filename album_id :
  sends (is_post (BASE_URL +:+ "/mediaItems:batchCreate")
           (encode_json (media_item_body upload_token filename album_id)))
    (_create_media_item credentials http json encode_json str upload_token
       filename album_id).
Proof.
  apply sends_bind; [|intros; apply sends_of_outcome].
  apply sends_request_with_retry. by intros.
Qed.

(** X23. [upload_media] creates the media item only after the bytes are
    accepted.  When the upload of the bytes raises, [upload_media] raises
    the same and has sent the requests of that upload only; when it
    returns a response, every request that follows posts, to
    [mediaItems:batchCreate], the body made of the stripped text of that
    response as upload token, the album id, and the file name cut to 255
    characters.  The requests of the upload itself post the bytes to the
    upload URL, with the MIME type among the three upload headers. *)
Theorem upload_media_creates_item_after_upload
  file_bytes filename mime_type album_id k :
  let uploaded :=
    run (_request_with_retry (credentials k) (http k) "POST" UPLOAD_URL None
           None (Some file_bytes) (Some (upload_headers mime_type))) in
  let '(r, _, evs) :=
    upload_media credentials http json encode_json str file_bytes filename
      mime_type album_id k in
  Forall (is_upload file_bytes mime_type) (requests uploaded.2) /\
  match uploaded.1 with
  | Raise exc => r = Raise exc /\ evs = uploaded.2
  | Ret resp =>
      exists created,
        evs = uploaded.2 ++ created /\
        Forall (is_post (BASE_URL +:+ "/mediaItems:batchCreate")
                  (encode_json
                     (media_item_body (strip (Response.text resp)) filename
                        album_id)))
          (requests created)
  end.
Proof.
  intros uploaded.
  assert (Forall (is_upload file_bytes mime_type) (requests uploaded.2))
    as Hup.
  { pose proof (sends_upload_bytes file_bytes mime_type k) as H.
    unfold _upload_bytes, bind, request_with_retry, ret in H.
    fold uploaded in H.
    destruct uploaded as [[resp|exc] t]; simpl in H;
      by rewrite ?app_nil_r in H. }
  unfold upload_media, _upload_bytes.
  unfold bind at 1. unfold bind at 1. unfold request_with_retry at 1.
  fold uploaded. destruct uploaded as [[resp|exc] t]; simpl in *.
  - pose proof (sends_create_media_item (strip (Response.text resp)) filename
                  album_id (S k)) as Hcr.
    destruct (_create_media_item _ _ _ _ _ _ _ _ (S k)) as [[r k2] created].
    simpl in *. rewrite app_nil_r. split; [done|].
    exists created. done.
  - done.
Qed.

(** X24. Every request the three public calls send carries, as its
    Authorization header, the bearer token the credential holder handed
    out for one of the attempts: no call of the client passes an
    Authorization header of its own to [_request_with_retry]. *)
Theorem client_requests_are_authorized
  file_bytes filename mime_type album_id pages title :
  sends (authorized credentials)
    (upload_media credentials http json encode_json str file_bytes filename
       mime_type album_id) /\
  sends (authorized credentials)
    (get_or_create_album credentials http json encode_json encode_params
       pages title) /\
  sends (authorized credentials)
    (get_album_product_url credentials http json album_id).
Proof.
  split; [|split].
  - apply sends_bind.
    + apply sends_bind; [|intros; apply sends_ret].
      apply request_with_retry_authorized.
      by destruct (upload_headers_lookup mime_type) as (_ & _ & _ & H & _).
    + intros token. apply sends_bind; [|intros; apply sends_of_outcome].
      by apply request_with_retry_authorized.
  - apply sends_bind.
    + unfold _find_album_by_title. generalize Json.Null.
      induction pages as [|pages' IH]; intros page_token; [apply sends_ret|].
      simpl. apply sends_bind; [by apply request_with_retry_authorized|].
      intros resp. apply sends_bind; [apply sends_of_outcome|].
      intros data. apply sends_bind; [apply sends_of_outcome|].
      intros albums. apply sends_bind; [apply sends_of_outcome|].
      intros items. apply sends_bind; [apply sends_of_outcome|].
      intros [found|]; [apply sends_ret|].
      apply sends_bind; [apply sends_of_outcome|].
      intros next. destruct (negb (Json.truthy next)); [apply sends_ret|].
      apply IH.
    + intros [found|]; [|apply sends_ret].
      destruct (Json.truthy found); [apply sends_ret|].
      apply sends_bind; [|intros; apply sends_ret].
      apply sends_bind; [|intros; apply sends_of_outcome].
      by apply request_with_retry_authorized.
  - apply sends_bind; [|intros; apply sends_of_outcome].
    by apply request_with_retry_authorized.
Qed.

Lemma required_field_truthy resp key msg value :
  required_field json resp key msg = Ret value -> Json.truthy value = true.
Proof.
  unfold required_field. destruct (json resp) as [data|]; [|done].
  destruct (Json.get data key Json.Null) as [v|]; [|done].
  destruct (Json.truthy v) eqn:Hv; [|done]. simpl. by intros [= <-].
Qed.
End ClientFacts.

Section AlbumSearch.
Import Telegram GooglePhotos GooglePhotosClient.
Variable credentials : nat -> Credentials.t.
Variable http : nat -> AsyncClient.t.
Variable json : Response.t -> Outcome Json.t.
Variable encode_json : Json.t -> string.
Variable encode_params : list (string * Json.t) -> list (string * string).

Lemma eq_str_true v s : Json.eq_str v s = true -> v = Json.Str s.
Proof.
  destruct v; try discriminate. simpl. by intros ->%String.eqb_eq.
Qed.

(** X26. The loop over the albums of a page stops at the first album whose
    title is the one looked for, and returns the id of that album, also
    when a later album has the title as well; it runs to the end only when
    every album is a dict with another title or none; and it raises only
    at the first entry that is not a dict, or at a first match that has
    no id. *)
Theorem scan_albums_stops_at_first_match albums title :
  match scan_albums albums title with
  | Ret (Some album_id) =>
      exists before album after,
        albums = before ++ album :: after /\
        Forall (other_album title) before /\
        Json.get album "title" Json.Null = Ret (Json.Str title) /\
        Json.getitem album "id" = Ret album_id
  | Ret None => Forall (other_album title) albums
  | Raise exc =>
      exists before album after,
        albums = before ++ album :: after /\
        Forall (other_album title) before /\
        (Json.get album "title" Json.Null = Raise exc \/
         (Json.get album "title" Json.Null = Ret (Json.Str title) /\
          Json.getitem album "id" = Raise exc))
  end.
Proof.
  induction albums as [|album albums IH]; [by apply Forall_nil_2|].
  simpl.
  destruct (Json.get album "title" Json.Null) as [album_title|exc] eqn:Hget.
  - destruct (Json.eq_str album_title title) eqn:Heq.
    + apply eq_str_true in Heq as ->.
      destruct (Json.getitem album "id") as [album_id|exc] eqn:Hid.
      * exists [], album, albums. by repeat split.
      * exists [], album, albums. split; [done|]. split; [done|]. by right.
    + assert (other_album title album) as Hother by (by exists album_title).
      destruct (scan_albums albums title) as [[album_id|]|exc].
      * destruct IH as (before & found & after & -> & Hbefore & Hfound).
        exists (album :: before), found, after.
        split; [done|]. split; [by apply Forall_cons|done].
      * by apply Forall_cons.
      * destruct IH as (before & bad & after & -> & Hbefore & Hbad).
        exists (album :: before), bad, after.
        split; [done|]. split; [by apply Forall_cons|done].
  - exists [], album, albums. split; [done|]. split; [done|]. by left.
Qed.

Lemma sends_find_pages pages title :
  forall page_token,
    sends is_search
      (find_pages credentials http json encode_params pages title page_token).
Proof.
  induction pages as [|pages' IH]; intros page_token; [apply sends_ret|].
  simpl. apply sends_bind; [by apply sends_request_with_retry|].
  intros resp. apply sends_bind; [apply sends_of_outcome|].
  intros data. apply sends_bind; [apply sends_of_outcome|].
  intros albums. apply sends_bind; [apply sends_of_outcome|].
  intros items. apply sends_bind; [apply sends_of_outcome|].
  intros [found|]; [apply sends_ret|].
  apply sends_bind; [apply sends_of_outcome|].
  intros next. destruct (negb (Json.truthy next)); [apply sends_ret|].
  apply IH.
Qed.

Lemma sends_create_album title :
  sends (is_post (BASE_URL +:+ "/albums")
           (encode_json
              (Json.Dict
                 [("album",
                   Json.Dict [("title", Json.Str (cut 500 title))])])))
    (_create_album credentials http json encode_json title).
Proof.
  apply sends_bind; [|intros; apply sends_of_outcome].
  apply sends_request_with_retry. by intros.
Qed.

(** The call, seen from the outcome of its search. *)
Lemma get_or_create_album_run pages title k :
  get_or_create_album credentials http json encode_json encode_params pages
    title k
  = match _find_album_by_title credentials http json encode_params pages
            title k with
    | (Ret (Some album_id), k1, searched) =>
        if Json.truthy album_id then (Ret (Some album_id), k1, searched)
        else
          match _create_album credentials http json encode_json title k1 with
          | (Ret created_id, k2, created) =>
              (Ret (Some created_id), k2, searched ++ created)
          | (Raise exc, k2, created) => (Raise exc, k2, searched ++ created)
          end
    | (Ret None, k1, searched) => (Ret None, k1, searched)
    | (Raise exc, k1, searched) => (Raise exc, k1, searched)
    end.
Proof.
  unfold get_or_create_album. unfold bind at 1.
  destruct (_find_album_by_title _ _ _ _ _ _ k)
    as [[[[album_id|]|exc] k1] searched]; [| |done].
  - destruct (Json.truthy album_id).
    + unfold ret. by rewrite app_nil_r.
    + unfold bind.
      destruct (_create_album _ _ _ _ _ k1) as [[[created_id|exc] k2] created];
        [|done].
      unfold ret. by rewrite app_nil_r.
  - unfold ret. by rewrite app_nil_r.
Qed.

(** X27. [get_or_create_album] looks before it creates.  The requests of
    its search only read the album list.  When the search finds an album
    with a truthy id, that id is returned and nothing else is sent: a
    found album is not created again.  When the search raises, or has not
    ended within the bound, so does the call, and nothing is created.
    Only when the search ends without a truthy id does the call go on:
    what it sends then posts the title, cut to 500 characters, to the
    album list, and nothing else. *)
Theorem get_or_create_album_looks_before_it_creates pages title k :
  let '(found, k1, searched) :=
    _find_album_by_title credentials http json encode_params pages title k in
  Forall is_search (requests searched) /\
  match found with
  | Ret (Some album_id) =>
      if Json.truthy album_id
      then
        get_or_create_album credentials http json encode_json encode_params
          pages title k
        = (Ret (Some album_id), k1, searched)
      else
        exists created,
          (get_or_create_album credentials http json encode_json
             encode_params pages title k).2 = searched ++ created /\
          Forall (is_post (BASE_URL +:+ "/albums")
                    (encode_json
                       (Json.Dict
                          [("album",
                            Json.Dict
                              [("title", Json.Str (cut 500 title))])])))
            (requests created)
  | Ret None =>
      get_or_create_album credentials http json encode_json encode_params
        pages title k
      = (Ret None, k1, searched)
  | Raise exc =>
      get_or_create_album credentials http json encode_json encode_params
        pages title k
      = (Raise exc, k1, searched)
  end.
Proof.
  pose proof (sends_find_pages pages title Json.Null k) as Hsearch.
  rewrite get_or_create_album_run.
  unfold _find_album_by_title in *.
  destruct (find_pages _ _ _ _ _ _ _ k) as [[found k1] searched].
  simpl in Hsearch. split; [done|].
  destruct found as [[album_id|]|exc]; [|done..].
  destruct (Json.truthy album_id); [done|].
  pose proof (sends_create_album title k1) as Hcreate.
  destruct (_create_album _ _ _ _ _ k1) as [[[created_id|exc] k2] created];
    exists created; by split.
Qed.
End AlbumSearch.

Section ClientResults.
Import Telegram GooglePhotos GooglePhotosClient.
Variable credentials : nat -> Credentials.t.
Variable http : nat -> AsyncClient.t.
Variable json : Response.t -> Outcome Json.t.
Variable encode_json : Json.t -> string.
Variable encode_params : list (string * Json.t) -> list (string * string).

(** What is made of the answer to a call that asks for one field. *)
Lemma required_field_run method url body key msg k resp evs data value :
  request_with_retry credentials http method url None body None None k
    = (Ret resp, S k, evs) ->
  json resp = Ret data -> Json.get data key Json.Null = Ret value ->
  bind (request_with_retry credentials http method url None body None None)
    (fun resp => of_outcome (required_field json resp key msg)) k
  = (if Json.truthy value then Ret value
     else Raise (GooglePhotosError msg None (Some (Response.text resp))),
     S k, evs).
Proof.
  intros Hcall Hjson Hget. unfold bind. rewrite Hcall.
  unfold of_outcome, required_field. rewrite Hjson, Hget, app_nil_r.
  by destruct (Json.truthy value).
Qed.

(** X25. What [get_or_create_album] and [get_album_product_url] return is
    truthy: never [None], never an empty string.  When the search ends
    with an id that is not truthy, or with [None], the album is created
    anew: the call goes on with [_create_album] and returns or raises what
    that does.  And an answer to [_create_album] whose id, or to
    [get_album_product_url] whose product URL, is missing or not truthy
    raises the [GooglePhotosError] of the source with the text of the
    answer as body, while a truthy one is returned as it is. *)
Theorem client_returns_no_empty_id :
  (forall pages title k album_id,
     (get_or_create_album credentials http json encode_json encode_params
        pages title k).1.1 = Ret (Some album_id) ->
     Json.truthy album_id = true) /\
  (forall album_id k url,
     (get_album_product_url credentials http json album_id k).1.1 = Ret url ->
     Json.truthy url = true) /\
  (forall pages title k found k1 searched,
     _find_album_by_title credentials http json encode_params pages title k
       = (Ret (Some found), k1, searched) ->
     Json.truthy found = false ->
     get_or_create_album credentials http json encode_json encode_params
       pages title k
     = let '(created, k2, evs) :=
         _create_album credentials http json encode_json title k1 in
       (match created with
        | Ret album_id => Ret (Some album_id)
        | Raise exc => Raise exc
        end, k2, searched ++ evs)) /\
  (forall title k resp evs data value,
     request_with_retry credentials http "POST" (BASE_URL +:+ "/albums") None
       (Some (encode_json
                (Json.Dict
                   [("album",
                     Json.Dict [("title", Json.Str (cut 500 title))])])))
       None None k
       = (Ret resp, S k, evs) ->
     json resp = Ret data -> Json.get data "id" Json.Null = Ret value ->
     _create_album credentials http json encode_json title k
     = (if Json.truthy value then Ret value
        else Raise (GooglePhotosError "Create album response missing id"
                      None (Some (Response.text resp))),
        S k, evs)) /\
  (forall album_id k resp evs data value,
     request_with_retry credentials http "GET"
       (BASE_URL +:+ "/albums/" +:+ album_id) None None None None k
       = (Ret resp, S k, evs) ->
     json resp = Ret data ->
     Json.get data "productUrl" Json.Null = Ret value ->
     get_album_product_url credentials http json album_id k
     = (if Json.truthy value then Ret value
        else Raise (GooglePhotosError "Album response missing productUrl"
                      None (Some (Response.text resp))),
        S k, evs)).
Proof.
  split; [|split; [|split; [|split]]].
  - intros pages title k album_id. rewrite get_or_create_album_run.
    destruct (_find_album_by_title _ _ _ _ _ _ k) as [[[[found|]|exc] k1] t1];
      [|done..].
    destruct (Json.truthy found) eqn:Hfound.
    + simpl. by intros [= <-].
    + unfold _create_album, bind, request_with_retry, of_outcome.
      destruct (run _) as [[resp|exc] t]; [|done].
      destruct (required_field json resp "id" _) as [value|exc] eqn:Hreq;
        [|done].
      simpl. intros [= <-]. by eapply required_field_truthy.
  - intros album_id k url.
    unfold get_album_product_url, bind, request_with_retry, of_outcome.
    destruct (run _) as [[resp|exc] t]; [|done].
    destruct (required_field json resp "productUrl" _) as [value|exc] eqn:Hreq;
      [|done].
    simpl. intros [= <-]. by eapply required_field_truthy.
  - intros pages title k found k1 searched Hfind Hfalsy.
    rewrite get_or_create_album_run, Hfind, Hfalsy.
    by destruct (_create_album _ _ _ _ _ k1) as [[[created|exc] k2] evs].
  - intros title k resp evs data value Hcall Hjson Hget.
    by apply required_field_run with (data := data).
  - intros album_id k resp evs data value Hcall Hjson Hget.
    by apply required_field_run with (data := data).
Qed.
End ClientResults.

Lemma client_returns_no_empty_id_witness :
  (ClientCases.find_trip 2).1.1 = Ret (Some (Json.Str "album_8")) /\
  Json.truthy (Json.Str "album_8") = true.
Proof.
  split; [reflexivity|].
  exact (proj1 (client_returns_no_empty_id ClientCases.tokens
                  (ClientCases.answering
                     [GooglePhotos.Response.mk 200 "first page";
                      GooglePhotos.Response.mk 200 "second page"])
                  ClientCases.parsed ClientCases.plain
                  ClientCases.plain_params)
           2%nat "Trip" 0%nat (Json.Str "album_8") eq_refl).
Defined.

Section Cuts.
Import GooglePhotosClient.

Lemma substring_prefix n :
  forall s, (n <= String.length s)%nat ->
    String.length (substring 0 n s) = n /\
    exists rest, s = substring 0 n s +:+ rest.
Proof.
  induction n as [|n IH]; intros s Hn.
  - destruct s; simpl; eauto.
  - destruct s as [|c s]; simpl in *; [lia|].
    destruct (IH s) as (Hlen & rest & Hrest); [lia|].
    split; [by rewrite Hlen|]. exists rest.
    change (String c s = String c (substring 0 n s +:+ rest)).
    by rewrite <- Hrest.
Qed.

(** X29. What the client sends of a file name or of an album title: the
    name itself when it has at most the limit of characters (255 for a
    file name, 500 for a title), and otherwise its first characters up to
    the limit; never more than the limit. *)
Theorem cut_keeps_a_prefix_within_the_limit n s :
  (String.length (cut n s) <= n)%nat /\
  (exists rest, s = cut n s +:+ rest) /\
  ((String.length s <= n)%nat -> cut n s = s) /\
  ((n < String.length s)%nat -> String.length (cut n s) = n).
Proof.
  unfold cut. destruct (Nat.ltb_spec n (String.length s)) as [Hlt|Hge].
  - destruct (substring_prefix n s) as (Hlen & rest & Hrest); [lia|].
    rewrite Hlen. repeat split; try lia. by exists rest.
  - repeat split; try lia. exists EmptyString.
    clear Hge. induction s as [|c s IH]; [done|].
    change (String c s = String c (s +:+ EmptyString)). by rewrite <- IH.
Qed.
End Cuts.
